(** * Dye-Gradient-to-CSV: a shallow embedding of [src/cpp/main.cpp]

    The program groups image files into triplicate replicates by a
    numeric key (the "RPM"), crops the three images of a group to a common
    size, and writes one CSV row per pixel column with the
    luminance-normalised intensity of one colour channel.

    Conventions of the embedding.
    - [int] and [size_t] values are [Z]; the bound [INT_MAX] is written out
      where the source relies on it.
    - The profiling loop is embedded twice.  [Machine.profile] computes
      with the numbers of the machine: [float] is IEEE 754 binary32,
      [double] is binary64, and every operation of the source rounds to
      nearest, ties to even, on its own.  It carries the statements about
      the numbers written.  [profile] computes with exact rationals [Q]
      and marks a division whose divisor is zero as an error ([None]); it
      carries the statements in which rounding plays no part: that the
      code divides by no zero, which pixels it reads and in which order,
      and which file a value goes to.
    - [std::string] is [string]; [std::vector] is [list]; [std::set<int>]
      is a strictly increasing [list Z].
    - A [cv::Mat] holds 3-channel samples ([cv::Vec3f]), the type that the
      profiling loop reads with [image.at<cv::Vec3f>].
    - The file system, the image codec, the blur filter and the clock are
      the fields of a record [World]; console and file output is a list of
      [Event]s in program order. *)

From Stdlib Require Import ZArith QArith String Ascii List Bool Lia.
From Stdlib Require Import DecimalString Sorted Lqa Permutation.
From Stdlib Require DecimalPos Floats.SpecFloat.
Import ListNotations.

Local Open Scope string_scope.
Local Open Scope Z_scope.

(* ================================================================= *)
(** ** Errors as [option] *)

Definition bind {A B : Type} (m : option A) (k : A -> option B) : option B :=
  match m with
  | Some a => k a
  | None => None
  end.

Notation "x <- m ;; k" := (bind m (fun x => k))
  (at level 61, m at next level, right associativity).

(* ================================================================= *)
(** ** Strings *)

Module Str.

(** [std::to_string(int)]. *)
Definition to_string (z : Z) : string :=
  NilZero.string_of_int (Z.to_int z).

(** [s.find(sub)]: the least position at which [sub] occurs in [s];
    [None] stands for [std::string::npos]. *)
Fixpoint find_from (s sub : string) (pos : nat) : option nat :=
  if String.prefix sub s then Some pos
  else match s with
       | EmptyString => None
       | String _ s' => find_from s' sub (S pos)
       end.

Definition find (s sub : string) : option nat := find_from s sub 0.

(** [s.find(sub) != std::string::npos]. *)
Definition found (r : option nat) : bool :=
  match r with Some _ => true | None => false end.

(** The class [\d] of [std::regex] (ECMAScript grammar, "C" locale). *)
Definition is_digit (c : ascii) : bool :=
  let n := N_of_ascii c in ((48 <=? n) && (n <=? 57))%N.

Definition digit_value (c : ascii) : Z := Z.of_N (N_of_ascii c) - 48.

Fixpoint all_digits (s : string) : bool :=
  match s with
  | EmptyString => true
  | String c s' => is_digit c && all_digits s'
  end.

(** The longest run of digits at the head of [s], and what follows. *)
Fixpoint span_digits (s : string) : string * string :=
  match s with
  | EmptyString => (EmptyString, EmptyString)
  | String c s' =>
      if is_digit c
      then let (ds, rest) := span_digits s' in (String c ds, rest)
      else (EmptyString, s)
  end.

(** [s] without its prefix [p], when it has that prefix. *)
Fixpoint strip_prefix (p s : string) : option string :=
  match p with
  | EmptyString => Some s
  | String a p' =>
      match s with
      | EmptyString => None
      | String b s' => if Ascii.eqb a b then strip_prefix p' s' else None
      end
  end.

(** Decimal value of a string of digits, most significant first. *)
Fixpoint decimal_from (acc : Z) (s : string) : Z :=
  match s with
  | EmptyString => acc
  | String c s' => decimal_from (10 * acc + digit_value c) s'
  end.

Definition decimal (s : string) : Z := decimal_from 0 s.

(** [std::replace(s.begin(), s.end(), a, b)]. *)
Fixpoint replace (a b : ascii) (s : string) : string :=
  match s with
  | EmptyString => EmptyString
  | String c s' => String (if Ascii.eqb c a then b else c) (replace a b s')
  end.

End Str.

Definition INT_MAX : Z := 2147483647.

(** [std::stoi] on a non-empty string of digits: the value, or [None] for
    the [std::out_of_range] that it throws when the value does not fit an
    [int]. *)
Definition stoi (s : string) : option Z :=
  let v := Str.decimal s in
  if v <=? INT_MAX then Some v else None.

(* ================================================================= *)
(** ** Filename Classifier: [extractUniqueRPMs] *)

(** The pattern [identifier + "_(\\d+)_R\\d+"] tried at the head of [s];
    the result is the text of capture group 1.  The identifier is matched
    as literal text, which is what [std::regex] does when the identifier
    has none of the characters that the grammar treats specially.  After
    the literal prefix the only way for the pattern to match is with the
    whole run of digits in the group, because the character that follows
    the group must be ['_']. *)
Definition match_here (identifier s : string) : option string :=
  r1 <- Str.strip_prefix identifier s ;;
  r2 <- Str.strip_prefix "_" r1 ;;
  let (ds, r3) := Str.span_digits r2 in
  match ds with
  | EmptyString => None
  | String _ _ =>
      r4 <- Str.strip_prefix "_R" r3 ;;
      match r4 with
      | String c _ => if Str.is_digit c then Some ds else None
      | EmptyString => None
      end
  end.

(** [std::regex_search(filename, match, pattern)] followed by
    [match[1].str()]: the first (leftmost) match only. *)
Fixpoint regex_search (identifier s : string) : option string :=
  match match_here identifier s with
  | Some ds => Some ds
  | None =>
      match s with
      | EmptyString => None
      | String _ s' => regex_search identifier s'
      end
  end.

(** [std::set<int>::insert]: the set is kept as a strictly increasing
    list, which is also the order in which it is iterated. *)
Fixpoint set_insert (k : Z) (s : list Z) : list Z :=
  match s with
  | [] => [k]
  | h :: t =>
      if k <? h then k :: s
      else if k =? h then s
      else h :: set_insert k t
  end.

(** The loop of [extractUniqueRPMs] with the set as accumulator; [None]
    when [std::stoi] throws. *)
Fixpoint extract_loop (filenames : list string) (identifier : string)
    (uniqueRPMs : list Z) : option (list Z) :=
  match filenames with
  | [] => Some uniqueRPMs
  | filename :: rest =>
      match regex_search identifier filename with
      | Some ds =>
          k <- stoi ds ;;
          extract_loop rest identifier (set_insert k uniqueRPMs)
      | None => extract_loop rest identifier uniqueRPMs
      end
  end.

Definition extractUniqueRPMs (filenames : list string) (identifier : string)
    : option (list Z) :=
  extract_loop filenames identifier [].

(* ================================================================= *)
(** ** Group Validator: [validateReplicates] *)

(** The inner loop of [validateReplicates]: [count] after the last file. *)
Fixpoint count_replicates (filenames : list string) (identifier : string)
    (rpm : Z) (count : Z) : Z :=
  match filenames with
  | [] => count
  | filename :: rest =>
      if Str.found
           (Str.find filename (identifier ++ "_" ++ Str.to_string rpm ++ "_R"))
      then count_replicates rest identifier rpm (count + 1)
      else count_replicates rest identifier rpm count
  end.

(** What the program prints.  The text of a message is not modelled, only
    which message it is and the values it carries. *)
Inductive Message : Type :=
| NotThreeReplicates (rpm : Z)
| ProcessingRPM (rpm : Z)
| LoadingImage (filename : string)
| CouldNotLoad (filename : string)
| OriginalDimensions (rows cols : Z)
| UnexpectedNumber (rpm : Z) (found : nat)
| OriginalImageInfo (i : nat)
| SavingAligned (path : string)
| TypeBeforeSaving (i : nat)
| FailedToSave (path : string)
| AlignedDimensions (i : Z) (rows cols : Z)
| CouldNotCreateCsv (path : string)
| WritingCsv (path : string)
| ProcessedRPM (rpm : Z) (path : string).

(** [validateReplicates]: the verdict and the message written to
    [std::cerr] for the first key whose count is not 3. *)
Fixpoint validateReplicates (filenames : list string) (uniqueRPMs : list Z)
    (identifier : string) : bool * list Message :=
  match uniqueRPMs with
  | [] => (true, [])
  | rpm :: rest =>
      let count := count_replicates filenames identifier rpm 0 in
      if negb (count =? 3) then (false, [NotThreeReplicates rpm])
      else validateReplicates filenames rest identifier
  end.

(* ================================================================= *)
(** ** Images *)

(** [cv::Vec3f]: the samples of one pixel, in the order of the channels. *)
Definition Vec3f : Type := (Q * Q * Q)%type.

(** [cv::Mat], restricted to what the program reads: the two dimensions
    and the pixels, row by row. *)
Record Mat : Type := mkMat {
  rows : Z;
  cols : Z;
  data : list (list Vec3f)
}.

(** The invariant of a [cv::Mat] header: the dimensions are [int]s that
    are not negative, and the pixel data has that shape. *)
Definition wf_Mat (m : Mat) : Prop :=
  0 <= rows m <= INT_MAX /\ 0 <= cols m <= INT_MAX /\
  length (data m) = Z.to_nat (rows m) /\
  Forall (fun row => length row = Z.to_nat (cols m)) (data m).

(** [image.empty()]. *)
Definition empty (m : Mat) : bool := (rows m =? 0) || (cols m =? 0).

(** [image.at<cv::Vec3f>(y, x)]; [None] outside the image, where the
    access is undefined (the source guards it with an [assert]). *)
Definition at_ (m : Mat) (y x : Z) : option Vec3f :=
  if (0 <=? y) && (y <? rows m) && (0 <=? x) && (x <? cols m)
  then row <- nth_error (data m) (Z.to_nat y) ;; nth_error row (Z.to_nat x)
  else None.

Record Rect : Type := mkRect {
  rect_x : Z;
  rect_y : Z;
  rect_width : Z;
  rect_height : Z
}.

(** [image(rect)]: the sub-image of [image] that [rect] selects. *)
Definition roi (m : Mat) (r : Rect) : Mat :=
  {| rows := rect_height r;
     cols := rect_width r;
     data :=
       map (fun row =>
              firstn (Z.to_nat (rect_width r)) (skipn (Z.to_nat (rect_x r)) row))
           (firstn (Z.to_nat (rect_height r))
                   (skipn (Z.to_nat (rect_y r)) (data m))) |}.

(* ================================================================= *)
(** ** Image Aligner: [alignImageWidths], [alignImageHeights] *)

(** The first loop of [alignImageWidths]: [minCols] after the last image. *)
Definition min_cols (images : list Mat) : Z :=
  fold_left
    (fun minCols image => if cols image <? minCols then cols image else minCols)
    images INT_MAX.

Definition alignImageWidths (images : list Mat) : list Mat :=
  let minCols := min_cols images in
  map (fun image =>
         if cols image >? minCols
         then roi image (mkRect 0 0 minCols (rows image))
         else image)
      images.

(** The first loop of [alignImageHeights]: [minRows] after the last image. *)
Definition min_rows (images : list Mat) : Z :=
  fold_left
    (fun minRows image => if rows image <? minRows then rows image else minRows)
    images INT_MAX.

Definition alignImageHeights (images : list Mat) : list Mat :=
  let minRows := min_rows images in
  map (fun image =>
         if rows image >? minRows
         then roi image (mkRect 0 0 (cols image) minRows)
         else image)
      images.

(* ================================================================= *)
(** ** Channel Profiler: the CSV loop of [processRPMImages] *)

(** The loop in exact arithmetic: the samples and the bounds are
    rationals, no operation rounds or overflows, and a division by zero
    is an error.  What the loop writes as numbers of the machine is the
    matter of [Machine.profile] below. *)

(** [channelChoice], after [main] has accepted it: one of ['R'], ['G'],
    ['B']. *)
Inductive Channel : Type := ChR | ChG | ChB.

(** A division of the source; [None] when the divisor is zero. *)
Definition fdiv (a b : Q) : option Q :=
  if Qeq_bool b 0 then None else Some (a / b)%Q.

(** Lines 209-223: what one pixel adds to [totalColor]. *)
Definition pixelRatio (channelChoice : Channel) (pixel : Vec3f) : option Q :=
  let '(blue, green, red) := pixel in
  let luminance := (red + green + blue)%Q in
  let selectedColor :=
    match channelChoice with
    | ChR => red
    | ChG => green
    | ChB => blue
    end in
  if Qlt_le_dec 0 luminance then fdiv selectedColor luminance else Some 0%Q.

(** The values of a loop variable that runs from [0] up to [n - 1]. *)
Definition range (n : Z) : list Z := map Z.of_nat (seq 0 (Z.to_nat n)).

(** Lines 206-224: the loop over the rows [ys] of column [x], with the
    running [totalColor]. *)
Fixpoint sumColumn (channelChoice : Channel) (image : Mat) (x : Z)
    (ys : list Z) (totalColor : Q) : option Q :=
  match ys with
  | [] => Some totalColor
  | y :: ys' =>
      pixel <- at_ image y x ;;
      r <- pixelRatio channelChoice pixel ;;
      sumColumn channelChoice image x ys' (totalColor + r)%Q
  end.

(** Lines 202-229: the loop over the images of the group for column [x],
    with the running [averageColorGroup]; the second component is the
    list of the values written to the row, in the order written. *)
Fixpoint overImages (channelChoice : Channel) (rows_ : Z) (x : Z)
    (images : list Mat) (averageColorGroup : Q) : option (Q * list Q) :=
  match images with
  | [] => Some (averageColorGroup, [])
  | image :: rest =>
      totalColor <- sumColumn channelChoice image x (range rows_) 0%Q ;;
      averageColor <- fdiv totalColor (inject_Z rows_) ;;
      r <- overImages channelChoice rows_ x rest
             (averageColorGroup + averageColor)%Q ;;
      Some (fst r, averageColor :: snd r)
  end.

(** One data row of the CSV file: the distance, one value per image, and
    the average over the images. *)
Record Row : Type := mkRow {
  distance : Q;
  replicates : list Q;
  average : Q
}.

(** Lines 199-233, one iteration of the loop over the columns. *)
Definition profileColumn (channelChoice : Channel) (images : list Mat)
    (rows_ : Z) (distanceUpper pixelWidth : Q) (x : Z) : option Row :=
  r <- overImages channelChoice rows_ x images 0%Q ;;
  avg <- fdiv (fst r) (inject_Z (Z.of_nat (length images))) ;;
  Some {| distance := (distanceUpper - inject_Z x * pixelWidth)%Q;
          replicates := snd r;
          average := avg |}.

(** [xs] mapped through a step that can fail, in order. *)
Fixpoint mapM {A B : Type} (f : A -> option B) (xs : list A)
    : option (list B) :=
  match xs with
  | [] => Some []
  | x :: xs' => b <- f x ;; bs <- mapM f xs' ;; Some (b :: bs)
  end.

(** Lines 195-233: the rows written to the CSV file after its header. *)
Definition profile (channelChoice : Channel) (images : list Mat)
    (distanceUpper distanceLower : Q) : option (list Row) :=
  image0 <- nth_error images 0 ;;
  let cols_ := cols image0 in
  let rows_ := rows image0 in
  pixelWidth <- fdiv (distanceUpper - distanceLower) (inject_Z cols_) ;;
  mapM (profileColumn channelChoice images rows_ distanceUpper pixelWidth)
       (range cols_).

(* ================================================================= *)
(** ** Channel Profiler, with the arithmetic of the machine *)

(** The profiling loop once more, this time with the numbers that the
    program computes: [float] is IEEE 754 binary32 and [double] is
    binary64, every operation rounds to nearest with ties to even, and
    every operation of the source is rounded on its own to the format of
    its type (no wider intermediate format, no fused multiply-add).  The
    numbers are those of [SpecFloat]: signed zeros, infinities, one NaN,
    and finite numbers [m * 2 ^ e]. *)
Module Machine.

Import SpecFloat.

Definition float : Type := spec_float.
Definition double : Type := spec_float.

(** [0.0f] and [0.0], and the [int] 0 once converted. *)
Definition zero : spec_float := S754_zero false.

(** The operations on [float]. *)
Definition fadd : float -> float -> float := SFadd 24 128.
Definition fdiv : float -> float -> float := SFdiv 24 128.

(** The operations on [double]. *)
Definition dadd : double -> double -> double := SFadd 53 1024.
Definition dsub : double -> double -> double := SFsub 53 1024.
Definition dmul : double -> double -> double := SFmul 53 1024.
Definition ddiv : double -> double -> double := SFdiv 53 1024.

(** [a > b] and [a == b]; both are false when a NaN is compared. *)
Definition gt (a b : spec_float) : bool := SFltb b a.
Definition eqb (a b : spec_float) : bool := SFeqb a b.

(** The conversion of an [int] or a [size_t] to [double]; it is exact
    for every [int]. *)
Definition of_int (z : Z) : double := binary_normalize 53 1024 z 0 false.

(** The conversion of a [float] to [double], which is exact. *)
Definition to_double (x : float) : double :=
  match x with
  | S754_finite s m e => binary_normalize 53 1024 (cond_Zopp s (Z.pos m)) e false
  | _ => x
  end.

(** [cv::Vec3f]: the three [float] samples of a pixel, in the order of
    the channels. *)
Definition Vec3f : Type := (float * float * float)%type.

(** [cv::Mat] with the samples that the profiling loop reads. *)
Record Mat : Type := mkMat {
  rows : Z;
  cols : Z;
  data : list (list Vec3f)
}.

Definition wf_Mat (m : Mat) : Prop :=
  0 <= rows m <= INT_MAX /\ 0 <= cols m <= INT_MAX /\
  length (data m) = Z.to_nat (rows m) /\
  Forall (fun row => length row = Z.to_nat (cols m)) (data m).

(** [image.at<cv::Vec3f>(y, x)]; [None] outside the image. *)
Definition at_ (m : Mat) (y x : Z) : option Vec3f :=
  if (0 <=? y) && (y <? rows m) && (0 <=? x) && (x <? cols m)
  then row <- nth_error (data m) (Z.to_nat y) ;; nth_error row (Z.to_nat x)
  else None.

(** Lines 209-223: what one pixel adds to [totalColor], before it is
    converted to [double]. *)
Definition pixelRatio (channelChoice : Channel) (pixel : Vec3f) : float :=
  let '(blue, green, red) := pixel in
  let luminance := fadd (fadd red green) blue in
  let selectedColor :=
    match channelChoice with
    | ChR => red
    | ChG => green
    | ChB => blue
    end in
  if gt luminance zero then fdiv selectedColor luminance else zero.

(** Lines 206-224: the loop over the rows [ys] of column [x], with the
    running [totalColor]. *)
Fixpoint sumColumn (channelChoice : Channel) (image : Mat) (x : Z)
    (ys : list Z) (totalColor : double) : option double :=
  match ys with
  | [] => Some totalColor
  | y :: ys' =>
      pixel <- at_ image y x ;;
      sumColumn channelChoice image x ys'
        (dadd totalColor (to_double (pixelRatio channelChoice pixel)))
  end.

(** Lines 202-229: the loop over the images of the group for column [x],
    with the running [averageColorGroup] and the values written. *)
Fixpoint overImages (channelChoice : Channel) (rows_ : Z) (x : Z)
    (images : list Mat) (averageColorGroup : double)
    : option (double * list double) :=
  match images with
  | [] => Some (averageColorGroup, [])
  | image :: rest =>
      totalColor <- sumColumn channelChoice image x (range rows_) zero ;;
      let averageColor := ddiv totalColor (of_int rows_) in
      r <- overImages channelChoice rows_ x rest
             (dadd averageColorGroup averageColor) ;;
      Some (fst r, averageColor :: snd r)
  end.

(** One data row of the CSV file, as the numbers handed to
    [operator<<]. *)
Record Row : Type := mkRow {
  distance : double;
  replicates : list double;
  average : double
}.

(** Lines 199-233, one iteration of the loop over the columns. *)
Definition profileColumn (channelChoice : Channel) (images : list Mat)
    (rows_ : Z) (distanceUpper pixelWidth : double) (x : Z) : option Row :=
  r <- overImages channelChoice rows_ x images zero ;;
  Some {| distance := dsub distanceUpper (dmul (of_int x) pixelWidth);
          replicates := snd r;
          average := ddiv (fst r) (of_int (Z.of_nat (length images))) |}.

(** Lines 195-233: the rows written to the CSV file after its header. *)
Definition profile (channelChoice : Channel) (images : list Mat)
    (distanceUpper distanceLower : double) : option (list Row) :=
  image0 <- nth_error images 0 ;;
  let cols_ := cols image0 in
  let rows_ := rows image0 in
  let pixelWidth := ddiv (dsub distanceUpper distanceLower) (of_int cols_) in
  mapM (profileColumn channelChoice images rows_ distanceUpper pixelWidth)
       (range cols_).

(** *** Vocabulary *)

(** The three images of a group have the same size [W] x [H], which is
    not empty. *)
Definition aligned (images : list Mat) (W H : Z) : Prop :=
  0 < W /\ 0 < H /\ length images = 3%nat /\
  Forall (fun m => wf_Mat m /\ cols m = W /\ rows m = H) images.

(** The pixels of column [x] of an image, top to bottom. *)
Definition column (m : Mat) (x : Z) : list Vec3f :=
  flat_map (fun row => match nth_error row (Z.to_nat x) with
                       | Some p => [p]
                       | None => []
                       end)
           (data m).

(** The sum of a list of [double]s, added one after the other to 0. *)
Definition total (l : list double) : double := fold_left dadd l zero.

(** The arithmetic mean of a list of [double]s, as the machine computes
    it: the sum over the number of elements. *)
Definition mean (l : list double) : double :=
  ddiv (total l) (of_int (Z.of_nat (length l))).

(** The number is finite: neither an infinity nor a NaN. *)
Definition finite (x : spec_float) : bool :=
  match x with
  | S754_zero _ | S754_finite _ _ _ => true
  | _ => false
  end.

(** The rational that a finite number stands for. *)
Definition value (x : spec_float) : option Q :=
  match x with
  | S754_zero _ => Some 0%Q
  | S754_finite s m e =>
      Some (inject_Z (cond_Zopp s (Z.pos m)) * Qpower 2 e)%Q
  | _ => None
  end.

(** The pixel with the rationals that its samples stand for. *)
Definition exact (p : Vec3f) : option (Q * Q * Q) :=
  let '(c0, c1, c2) := p in
  v0 <- value c0 ;; v1 <- value c1 ;; v2 <- value c2 ;; Some (v0, v1, v2).

(** The [float] nearest to an integer. *)
Definition sample (z : Z) : float := binary_normalize 24 128 z 0 false.

(** The [double] nearest to the quotient of two integers that are
    [double]s themselves. *)
Definition pixelWidth (distanceUpper distanceLower : double) (W : Z)
    : double :=
  ddiv (dsub distanceUpper distanceLower) (of_int W).

(** The white pixel of the specification, and what the program makes of
    its ratio 1/3: the [float] nearest to 1/3. *)
Definition white : Vec3f := (sample 1, sample 1, sample 1).
Definition third : double :=
  to_double (fdiv (sample 1) (fadd (fadd (sample 1) (sample 1)) (sample 1))).

(** An image of one colour. *)
Definition plain (h w : Z) (p : Vec3f) : Mat :=
  mkMat h w (repeat (repeat p (Z.to_nat w)) (Z.to_nat h)).

End Machine.

(* ================================================================= *)
(** ** The outside world and what the program does to it *)

(** The collaborators of the program.  [imread] gives an empty [cv::Mat]
    for a file that cannot be decoded. *)
Record World : Type := mkWorld {
  directory_files : string -> list string;
  imread : string -> Mat;
  GaussianBlur : Mat -> Z -> Mat;
  imwrite : string -> Mat -> bool;
  ofstream_open : string -> bool;
  timestamp : string
}.

Inductive Event : Type :=
| OpenLog (path : string)
| Cout (m : Message)
| Cerr (m : Message)
| CreateDirectories (path : string)
| ImWrite (path : string) (image : Mat) (success : bool)
| CsvFile (path : string) (header : string) (body : list Row).

Definition backslash : ascii := ascii_of_nat 92.
Definition slash : ascii := ascii_of_nat 47.
Definition newline : string := String (ascii_of_nat 10) EmptyString.

(* ================================================================= *)
(** ** Run Orchestrator: [processRPMImages] and [main] *)

(** Lines 98-115: the images and the names pushed to [images] and
    [replicateNames], and the messages, in the order of [filenames].
    The kernel size [2 * blurRadius + 1] is that of the source for a
    radius below [2 ^ 30]; from there on the [int] of the source
    overflows, which the model does not follow. *)
Fixpoint loadImages (w : World) (filenames : list string)
    (folderPath : string) (rpm : Z) (identifier : string) (blurRadius : Z)
    : list Mat * list string * list Event :=
  match filenames with
  | [] => ([], [], [])
  | filename :: rest =>
      let '(images, replicateNames, log) :=
        loadImages w rest folderPath rpm identifier blurRadius in
      if Str.found
           (Str.find filename (identifier ++ "_" ++ Str.to_string rpm ++ "_R"))
      then
        let image := imread w (folderPath ++ "/" ++ filename) in
        if empty image
        then (images, replicateNames,
              Cout (LoadingImage filename) :: Cerr (CouldNotLoad filename)
                :: log)
        else
          let image' :=
            if blurRadius >? 0
            then GaussianBlur w image (2 * blurRadius + 1)
            else image in
          (image' :: images, filename :: replicateNames,
           Cout (LoadingImage filename)
             :: Cout (OriginalDimensions (rows image) (cols image)) :: log)
      else (images, replicateNames, log)
  end.

(** Lines 145-151: the name under which [images[i]] is saved. *)
Definition alignedFilename (alignedImagesPath identifier : string) (rpm : Z)
    (i : Z) (image : Mat) : string :=
  Str.replace backslash slash
    (alignedImagesPath ++ "/" ++ identifier ++ "_" ++ Str.to_string rpm
       ++ "_R" ++ Str.to_string (i + 1) ++ "_" ++ Str.to_string (cols image)
       ++ "x" ++ Str.to_string (rows image) ++ "_aligned.tif").

(** Lines 130-166: the loop that saves the aligned images, from index
    [i] on. *)
Fixpoint saveImages (w : World) (alignedImagesPath identifier : string)
    (rpm : Z) (images : list Mat) (i : Z) : list Event :=
  match images with
  | [] => []
  | image :: rest =>
      let outputFilename :=
        alignedFilename alignedImagesPath identifier rpm i image in
      let success := imwrite w outputFilename image in
      ([Cout (OriginalImageInfo (Z.to_nat i));
        Cout (SavingAligned outputFilename);
        Cout (TypeBeforeSaving (Z.to_nat i));
        ImWrite outputFilename image success]
       ++ (if success then [] else [Cerr (FailedToSave outputFilename)])
       ++ saveImages w alignedImagesPath identifier rpm rest (i + 1))%list
  end.

(** Lines 169-172. *)
Fixpoint reportDimensions (images : list Mat) (i : Z) : list Event :=
  match images with
  | [] => []
  | image :: rest =>
      Cout (AlignedDimensions (i + 1) (rows image) (cols image))
        :: reportDimensions rest (i + 1)
  end.

Definition channelLetter (channelChoice : Channel) : string :=
  match channelChoice with
  | ChR => "R"
  | ChG => "G"
  | ChB => "B"
  end.

Definition channelName (channelChoice : Channel) : string :=
  match channelChoice with
  | ChR => "Redness"
  | ChG => "Greenness"
  | ChB => "Blueness"
  end.

(** Lines 192-193. *)
Definition csvHeader (channelChoice : Channel) : string :=
  "Distance (cm)," ++ channelName channelChoice ++ " R1,"
    ++ channelName channelChoice ++ " R2," ++ channelName channelChoice
    ++ " R3,Average " ++ channelName channelChoice ++ newline.

(** [processRPMImages]; [None] when the profiling loop would read outside
    an image or divide by zero.  [std::filesystem::create_directories] is
    taken to succeed: when it throws, the run ends there with an
    exception that nothing catches, which the model does not follow. *)
Definition processRPMImages (w : World) (filenames : list string)
    (folderPath : string) (rpm : Z) (outputFolder identifier : string)
    (distanceUpper distanceLower : Q) (channelChoice : Channel)
    (blurRadius : Z) : option (list Event) :=
  let '(images, replicateNames, loadLog) :=
    loadImages w filenames folderPath rpm identifier blurRadius in
  let start := (Cout (ProcessingRPM rpm) :: loadLog)%list in
  if negb (length images =? 3)%nat
  then Some (start ++ [Cerr (UnexpectedNumber rpm (length images))])%list
  else
    let images := alignImageHeights (alignImageWidths images) in
    let alignedImagesPath := outputFolder ++ "/aligned_images" in
    let saved :=
      (CreateDirectories alignedImagesPath
         :: saveImages w alignedImagesPath identifier rpm images 0
         ++ reportDimensions images 0)%list in
    let csvFilePath :=
      outputFolder ++ "/" ++ identifier ++ "_" ++ Str.to_string rpm ++ "_"
        ++ channelLetter channelChoice ++ "ness.csv" in
    if negb (ofstream_open w csvFilePath)
    then Some (start ++ saved ++ [Cerr (CouldNotCreateCsv csvFilePath)])%list
    else
      body <- profile channelChoice images distanceUpper distanceLower ;;
      Some (start ++ saved
              ++ [Cout (WritingCsv csvFilePath);
                  CsvFile csvFilePath (csvHeader channelChoice) body;
                  Cout (ProcessedRPM rpm csvFilePath)])%list.

(** The configuration that [main] has gathered when the prompts are over.
    By then the prompt loops have checked that the lower bound is below
    the upper bound, that the channel is one of the three letters and that
    the blur radius is not negative. *)
Record Config : Type := mkConfig {
  cfg_identifier : string;
  cfg_distanceUpper : Q;
  cfg_distanceLower : Q;
  cfg_channelChoice : Channel;
  cfg_blurRadius : Z;
  cfg_folderPath : string;
  cfg_outputFolder : string
}.

(** Lines 386-389: the groups one after the other. *)
Fixpoint processAll (w : World) (cfg : Config) (filenames : list string)
    (uniqueRPMs : list Z) : option (list Event) :=
  match uniqueRPMs with
  | [] => Some []
  | rpm :: rest =>
      evs <- processRPMImages w filenames (cfg_folderPath cfg) rpm
               (cfg_outputFolder cfg) (cfg_identifier cfg)
               (cfg_distanceUpper cfg) (cfg_distanceLower cfg)
               (cfg_channelChoice cfg) (cfg_blurRadius cfg) ;;
      more <- processAll w cfg filenames rest ;;
      Some (evs ++ more)%list
  end.

(** How a run ends: [main] returns, [std::stoi] throws an exception that
    nothing catches, or the behaviour is undefined. *)
Inductive Outcome : Type :=
| Returned (code : Z)
| Uncaught
| Undefined.

(** [main], from the point where the configuration is complete. *)
Definition main (w : World) (cfg : Config) : Outcome * list Event :=
  let log :=
    OpenLog ("logs/" ++ cfg_identifier cfg ++ "_log_" ++ timestamp w ++ ".txt")
  in
  let filenames := directory_files w (cfg_folderPath cfg) in
  match extractUniqueRPMs filenames (cfg_identifier cfg) with
  | None => (Uncaught, [log])
  | Some uniqueRPMs =>
      let (valid, errors) :=
        validateReplicates filenames uniqueRPMs (cfg_identifier cfg) in
      if negb valid then (Returned (-1), log :: map Cerr errors)
      else
        match processAll w cfg filenames uniqueRPMs with
        | Some evs => (Returned 0, log :: evs)
        | None => (Undefined, [log])
        end
  end.

(* ================================================================= *)
(** ** The CSV file as text *)

Section CsvText.

(** [operator<<] of [std::ofstream] for a [double]. *)
Variable show_double : Q -> string.

(** Lines 200, 228 and 232: the text of one row. *)
Definition rowText (r : Row) : string :=
  show_double (distance r)
    ++ String.concat EmptyString
         (map (fun v => "," ++ show_double v) (replicates r))
    ++ "," ++ show_double (average r) ++ newline.

Definition csvText (header : string) (body : list Row) : string :=
  header ++ String.concat EmptyString (map rowText body).

(** The CSV files of a run: path and content, in the order written. *)
Fixpoint csvOutputs (evs : list Event) : list (string * string) :=
  match evs with
  | [] => []
  | CsvFile path header body :: rest =>
      (path, csvText header body) :: csvOutputs rest
  | _ :: rest => csvOutputs rest
  end.

End CsvText.

(* ================================================================= *)
(** ** Vocabulary of the specification *)

(** [sub] occurs in [s]. *)
Definition occurs (sub s : string) : Prop :=
  exists pre post, s = pre ++ sub ++ post.

Definition digits (s : string) : Prop :=
  s <> EmptyString /\ Str.all_digits s = true.

(** [filename] has, at offset [n], the text [<identifier>_<ds>_R<digits>]
    with [ds] a run of digits. *)
Definition matches_at (identifier ds filename : string) (n : nat) : Prop :=
  exists pre rs post,
    filename = pre ++ identifier ++ "_" ++ ds ++ "_R" ++ rs ++ post /\
    String.length pre = n /\ digits ds /\ digits rs.

(** [filename] contains a substring of the shape
    [<identifier>_<k>_R<digits>], [k] being the value of the digits. *)
Definition pattern_occurs (identifier : string) (k : Z) (filename : string)
    : Prop :=
  exists ds n, matches_at identifier ds filename n /\ Str.decimal ds = k.

(** The leftmost such substring of [filename] has the digits [ds]. *)
Definition first_match (identifier ds filename : string) : Prop :=
  exists n,
    matches_at identifier ds filename n /\
    forall n' ds', (n' < n)%nat -> ~ matches_at identifier ds' filename n'.

(** The identifier has none of the characters that the ECMAScript grammar
    of [std::regex] treats specially, so that it stands for itself in the
    pattern. *)
Definition regex_literal (identifier : string) : bool :=
  let special := list_ascii_of_string "^$\.*+?()[]{}|" in
  forallb (fun c => negb (existsb (Ascii.eqb c) special))
          (list_ascii_of_string identifier).

(** Every key that the classifier reads from [filenames] fits an [int], so
    that [std::stoi] does not throw. *)
Definition keys_fit (identifier : string) (filenames : list string) : bool :=
  forallb (fun filename =>
             match regex_search identifier filename with
             | Some ds => Str.decimal ds <=? INT_MAX
             | None => true
             end)
          filenames.

(** The file is one that the validator counts and the loader reads for
    the key [rpm]. *)
Definition selected (identifier : string) (rpm : Z) (filename : string)
    : bool :=
  Str.found (Str.find filename (identifier ++ "_" ++ Str.to_string rpm ++ "_R")).

(** The file is selected for the key [rpm] and [imread] decodes it. *)
Definition loads (w : World) (folderPath identifier : string) (rpm : Z)
    (filename : string) : bool :=
  selected identifier rpm filename
  && negb (empty (imread w (folderPath ++ "/" ++ filename))).

(** The image that the loader keeps for a file: decoded, and blurred when
    a blur is asked for. *)
Definition loadedImage (w : World) (folderPath : string) (blurRadius : Z)
    (filename : string) : Mat :=
  let image := imread w (folderPath ++ "/" ++ filename) in
  if blurRadius >? 0 then GaussianBlur w image (2 * blurRadius + 1) else image.

(** The top-left [W] x [H] part of an image. *)
Definition crop (W H : Z) (m : Mat) : Mat := roi m (mkRect 0 0 W H).

(** The loop that both aligners start with, for one dimension [dim] of
    the images. *)
Definition least (dim : Mat -> Z) (images : list Mat) (start : Z) : Z :=
  fold_left (fun acc image => if dim image <? acc then dim image else acc)
            images start.

(** The images of a group with their indices, counted from [i]. *)
Fixpoint numbered (images : list Mat) (i : Z) : list (Z * Mat) :=
  match images with
  | [] => []
  | image :: rest => (i, image) :: numbered rest (i + 1)
  end.

(** Two worlds give a run the same inputs: the same listing, the same
    decoded and blurred images, the same luck in creating the CSV files.
    They may differ in the clock and in what happens when an aligned image
    is saved. *)
Definition same_inputs (w1 w2 : World) : Prop :=
  (forall path, directory_files w1 path = directory_files w2 path) /\
  (forall path, imread w1 path = imread w2 path) /\
  (forall m ksize, GaussianBlur w1 m ksize = GaussianBlur w2 m ksize) /\
  (forall path, ofstream_open w1 path = ofstream_open w2 path).

(** The keys of the groups that the run starts to process, in order. *)
Fixpoint processingOrder (evs : list Event) : list Z :=
  match evs with
  | [] => []
  | Cout (ProcessingRPM rpm) :: rest => rpm :: processingOrder rest
  | _ :: rest => processingOrder rest
  end.

(** The events that leave something behind in the output folder. *)
Definition is_artifact (e : Event) : bool :=
  match e with
  | CreateDirectories _ | ImWrite _ _ _ | CsvFile _ _ _ => true
  | _ => false
  end.

Definition artifacts (evs : list Event) : list Event := filter is_artifact evs.

(** The images saved by a run, in the order saved. *)
Fixpoint savedImages (evs : list Event) : list (string * Mat) :=
  match evs with
  | [] => []
  | ImWrite path image _ :: rest => (path, image) :: savedImages rest
  | _ :: rest => savedImages rest
  end.

(** The files for which the loader calls [imread], in order. *)
Fixpoint attempted (evs : list Event) : list string :=
  match evs with
  | [] => []
  | Cout (LoadingImage filename) :: rest => filename :: attempted rest
  | _ :: rest => attempted rest
  end.

(** [v] is the least element of [l]. *)
Definition is_min (v : Z) (l : list Z) : Prop :=
  In v l /\ Forall (fun u => v <= u) l.

(** The three images of a group have the same size [W] x [H], which is
    not empty. *)
Definition aligned (images : list Mat) (W H : Z) : Prop :=
  0 < W /\ 0 < H /\ length images = 3%nat /\
  Forall (fun m => wf_Mat m /\ cols m = W /\ rows m = H) images.

(** The pixels of column [x] of an image, top to bottom. *)
Definition column (m : Mat) (x : Z) : list Vec3f :=
  flat_map (fun row => match nth_error row (Z.to_nat x) with
                       | Some p => [p]
                       | None => []
                       end)
           (data m).

Definition luminanceOf (p : Vec3f) : Q :=
  let '(c0, c1, c2) := p in (c0 + c1 + c2)%Q.

Definition selectedOf (channelChoice : Channel) (p : Vec3f) : Q :=
  let '(c0, c1, c2) := p in
  match channelChoice with
  | ChB => c0
  | ChG => c1
  | ChR => c2
  end.

(** The per-pixel ratio of the specification. *)
Definition ratio (channelChoice : Channel) (p : Vec3f) : Q :=
  if Qlt_le_dec 0 (luminanceOf p)
  then (selectedOf channelChoice p / luminanceOf p)%Q
  else 0%Q.

Definition Qsum (l : list Q) : Q := fold_right Qplus 0%Q l.

(** The arithmetic mean of a list. *)
Definition mean (l : list Q) : Q :=
  (Qsum l / inject_Z (Z.of_nat (length l)))%Q.


(** The value written for one image and column [x]: the total of the
    ratios of the column over the number [H] of rows. *)
Definition columnValue (channelChoice : Channel) (H : Z) (x : Z) (m : Mat)
    (v : Q) : Prop :=
  (v == Qsum (map (ratio channelChoice) (column m x)) / inject_Z H)%Q.

(** What the row of column [x] holds. *)
Definition rowOf (channelChoice : Channel) (images : list Mat) (H : Z)
    (distanceUpper pixelWidth : Q) (x : Z) (row : Row) : Prop :=
  distance row = (distanceUpper - inject_Z x * pixelWidth)%Q /\
  Forall2 (columnValue channelChoice H x) images (replicates row) /\
  (average row
   == Qsum (replicates row) / inject_Z (Z.of_nat (length images)))%Q.

(** A run of digits ends where [r] starts. *)
Definition stops (r : string) : Prop :=
  match r with
  | EmptyString => True
  | String c _ => Str.is_digit c = false
  end.

(** The collaborators keep their contracts: [imread] gives well-formed
    images and the blur keeps the size of its input. *)
Definition World_ok (w : World) : Prop :=
  (forall path, wf_Mat (imread w path)) /\
  (forall m ksize,
     wf_Mat m ->
     wf_Mat (GaussianBlur w m ksize) /\
     rows (GaussianBlur w m ksize) = rows m /\
     cols (GaussianBlur w m ksize) = cols m).

(* ================================================================= *)
(** ** Sample inputs *)

Module Sample.

Definition white : Vec3f := (1%Q, 1%Q, 1%Q).

(** An image of one colour. *)
Definition plain (h w : Z) (p : Vec3f) : Mat :=
  mkMat h w (repeat (repeat p (Z.to_nat w)) (Z.to_nat h)).

(** An image whose pixel at row [y], column [x] has blue [x + 1], green
    [y] and red [tag]. *)
Definition ramp (h w : Z) (tag : Z) : Mat :=
  mkMat h w
    (map (fun y => map (fun x => (inject_Z (x + 1), inject_Z y, inject_Z tag))
                       (range w))
         (range h)).


(** Three images of the sizes 100 x 50, 120 x 60 and 90 x 55 (width x
    height). *)
Definition unequalGroup : list Mat :=
  [ramp 50 100 1; ramp 60 120 2; ramp 55 90 3].

(** A folder with one complete group, listed with replicate 3 first. *)
Definition files : list string :=
  ["W_1_R3.tif"; "notes.txt"; "W_1_R1.tif"; "W_1_R2.tif"].

Definition decode (path : string) : Mat :=
  if String.eqb path "in/W_1_R3.tif" then ramp 2 3 30
  else if String.eqb path "in/W_1_R1.tif" then ramp 3 2 10
  else if String.eqb path "in/W_1_R2.tif" then ramp 2 2 20
  else mkMat 0 0 [].

Definition world (stamp : string) (saves : bool) : World :=
  {| directory_files := fun _ => files;
     imread := decode;
     GaussianBlur := fun m _ => m;
     imwrite := fun _ _ => saves;
     ofstream_open := fun _ => true;
     timestamp := stamp |}.

Definition config : Config :=
  {| cfg_identifier := "W";
     cfg_distanceUpper := 10%Q;
     cfg_distanceLower := 0%Q;
     cfg_channelChoice := ChB;
     cfg_blurRadius := 0;
     cfg_folderPath := "in";
     cfg_outputFolder := "out" |}.

(** The same folder when the second file read cannot be decoded. *)
Definition brokenWorld : World :=
  {| directory_files := fun _ => files;
     imread := fun path =>
                 if String.eqb path "in/W_1_R1.tif" then mkMat 0 0 []
                 else decode path;
     GaussianBlur := fun m _ => m;
     imwrite := fun _ _ => true;
     ofstream_open := fun _ => true;
     timestamp := "20240101_000000" |}.

(** Two complete groups; the second file of group 1 cannot be decoded. *)
Definition twoGroups : list string :=
  ["W_1_R1.tif"; "W_1_R2.tif"; "W_1_R3.tif";
   "W_2_R1.tif"; "W_2_R2.tif"; "W_2_R3.tif"].

Definition lossyWorld : World :=
  {| directory_files := fun _ => twoGroups;
     imread := fun path =>
                 if String.eqb path "in/W_1_R2.tif" then mkMat 0 0 []
                 else ramp 2 2 7;
     GaussianBlur := fun m _ => m;
     imwrite := fun _ _ => true;
     ofstream_open := fun _ => true;
     timestamp := "20240101_000000" |}.

(** A folder in which the group 2 has only two files. *)
Definition shortFiles : list string :=
  ["W_1_R1.tif"; "W_1_R2.tif"; "W_1_R3.tif"; "W_2_R1.tif"; "W_2_R2.tif"].

Definition shortWorld : World :=
  {| directory_files := fun _ => shortFiles;
     imread := fun _ => ramp 2 2 1;
     GaussianBlur := fun m _ => m;
     imwrite := fun _ _ => true;
     ofstream_open := fun _ => true;
     timestamp := "20240101_000000" |}.

(** A decimal rendering of the integer part, enough to tell rows
    apart. *)
Definition showFloor (q : Q) : string :=
  Str.to_string (Qnum q / Z.pos (Qden q)).

End Sample.

(* ================================================================= *)
(** ** The prompts of [main] *)

(** What [main] prints while it gathers the configuration. *)
Inductive Prompt : Type :=
| AskIdentifier
| AskUpper
| AskLower
| AskChannel
| AskBlur
| AskInputFolder
| AskOutputFolder
| NotANumber
| LowerNotBelow (upper : Q)
| NotAChannel
| NegativeRadius
| NotAnInteger.

(** Lines 303-312.  [attempts] lists what the successive extractions
    [std::cin >> distanceUpper] give: a value, or [None] when the
    extraction fails.  The result is the value with which the loop ends
    and what it has printed; [None] when the attempts run out while the
    loop is still asking. *)
Fixpoint readUpper (attempts : list (option Q)) : option (Q * list Prompt) :=
  match attempts with
  | [] => None
  | Some distanceUpper :: _ => Some (distanceUpper, [AskUpper])
  | None :: rest =>
      r <- readUpper rest ;;
      Some (fst r, AskUpper :: NotANumber :: snd r)
  end.

(** Lines 318-331. *)
Fixpoint readLower (distanceUpper : Q) (attempts : list (option Q))
    : option (Q * list Prompt) :=
  match attempts with
  | [] => None
  | Some distanceLower :: rest =>
      if Qle_bool distanceUpper distanceLower
      then
        r <- readLower distanceUpper rest ;;
        Some (fst r, AskLower :: LowerNotBelow distanceUpper :: snd r)
      else Some (distanceLower, [AskLower])
  | None :: rest =>
      r <- readLower distanceUpper rest ;;
      Some (fst r, AskLower :: NotANumber :: snd r)
  end.

(** [std::toupper] on the letters of ASCII. *)
Definition toupper (c : ascii) : ascii :=
  let n := N_of_ascii c in
  if ((97 <=? n) && (n <=? 122))%N then ascii_of_N (n - 32) else c.

(** Lines 336-347.  [typed] lists the characters that the successive
    extractions [std::cin >> channelChoice] give. *)
Fixpoint readChannel (typed : list ascii) : option (Channel * list Prompt) :=
  match typed with
  | [] => None
  | c :: rest =>
      let channelChoice := toupper c in
      if Ascii.eqb channelChoice "R" then Some (ChR, [AskChannel])
      else if Ascii.eqb channelChoice "G" then Some (ChG, [AskChannel])
      else if Ascii.eqb channelChoice "B" then Some (ChB, [AskChannel])
      else
        r <- readChannel rest ;;
        Some (fst r, AskChannel :: NotAChannel :: snd r)
  end.

(** Lines 352-365. *)
Fixpoint readBlur (attempts : list (option Z)) : option (Z * list Prompt) :=
  match attempts with
  | [] => None
  | Some blurRadius :: rest =>
      if blurRadius >=? 0 then Some (blurRadius, [AskBlur])
      else
        r <- readBlur rest ;;
        Some (fst r, AskBlur :: NegativeRadius :: snd r)
  | None :: rest =>
      r <- readBlur rest ;;
      Some (fst r, AskBlur :: NotAnInteger :: snd r)
  end.

(** What the extractions from [std::cin] give, one list for each loop in
    the order of its attempts, and one string for each of the three
    [std::cin >> ...] that are not in a loop.  All of them read the same
    stream, so that what one extraction leaves behind is what the next
    one reads: the entries are what the extractions give, which need
    not be what the user meant to type at that prompt. *)
Record Answers : Type := mkAnswers {
  ans_identifier : string;
  ans_upper : list (option Q);
  ans_lower : list (option Q);
  ans_channel : list ascii;
  ans_blur : list (option Z);
  ans_folderPath : string;
  ans_outputFolder : string
}.

(** Lines 290-372: the configuration with which [main] goes on, and what
    it has printed to get it, from what the extractions give. *)
Definition gatherConfig (a : Answers) : option (Config * list Prompt) :=
  upper <- readUpper (ans_upper a) ;;
  lower <- readLower (fst upper) (ans_lower a) ;;
  channel <- readChannel (ans_channel a) ;;
  blur <- readBlur (ans_blur a) ;;
  Some ({| cfg_identifier := ans_identifier a;
           cfg_distanceUpper := fst upper;
           cfg_distanceLower := fst lower;
           cfg_channelChoice := fst channel;
           cfg_blurRadius := fst blur;
           cfg_folderPath := ans_folderPath a;
           cfg_outputFolder := ans_outputFolder a |},
        (AskIdentifier :: snd upper ++ snd lower ++ snd channel ++ snd blur
           ++ [AskInputFolder; AskOutputFolder])%list).

(** The whole of [main]: the prompts, then the run.  The log is opened
    after the identifier has been read and before the other prompts. *)
Definition program (w : World) (a : Answers)
    : option (list Prompt * (Outcome * list Event)) :=
  r <- gatherConfig a ;;
  Some (snd r, main w (fst r)).

(* ================================================================= *)
(** ** The log: [DualStreamBuffer] *)

Module Tee.

(** A [std::streambuf] that the program writes to: the characters put
    into it so far. *)
Definition Sink : Type := string.

(** The two pointers of a [DualStreamBuffer]; [None] is [nullptr]. *)
Record DualStreamBuffer : Type := mkBuffer {
  console : option Sink;
  file : option Sink
}.

(** The constructor. *)
Definition fresh : DualStreamBuffer := {| console := None; file := None |}.

Definition init (b : DualStreamBuffer) (c f : Sink) : DualStreamBuffer :=
  {| console := Some c; file := Some f |}.

Definition EOF : Z := -1.

(** [sink->sputc(c)]: the character with the code [c] is put at the end. *)
Definition sputc (sink : Sink) (c : Z) : Sink :=
  sink ++ String (ascii_of_N (Z.to_N (c mod 256))) EmptyString.

(** [overflow]: the buffer afterwards and the value returned; [None] when
    a null pointer is dereferenced. *)
Definition overflow (b : DualStreamBuffer) (c : Z)
    : option (DualStreamBuffer * Z) :=
  if negb (c =? EOF)
  then
    co <- console b ;;
    fi <- file b ;;
    Some ({| console := Some (sputc co c); file := Some (sputc fi c) |}, c)
  else Some (b, c).

(** The characters of [s] written one after the other; the buffer has no
    put area, so that each of them goes through [overflow]. *)
Fixpoint write (b : DualStreamBuffer) (s : string) : option DualStreamBuffer :=
  match s with
  | EmptyString => Some b
  | String ch s' =>
      r <- overflow b (Z.of_N (N_of_ascii ch)) ;;
      write (fst r) s'
  end.

End Tee.

(** [initializeLogging] installs the buffer in [std::cout] only: what
    goes to [std::cout] after the log is opened reaches the log file,
    what goes to [std::cerr] does not. *)
Fixpoint logFile (evs : list Event) : list Message :=
  match evs with
  | [] => []
  | Cout m :: rest => m :: logFile rest
  | _ :: rest => logFile rest
  end.

(** What the console shows of a run. *)
Fixpoint consoleText (evs : list Event) : list Message :=
  match evs with
  | [] => []
  | Cout m :: rest => m :: consoleText rest
  | Cerr m :: rest => m :: consoleText rest
  | _ :: rest => consoleText rest
  end.

(* ================================================================= *)
(** ** More vocabulary *)

(** The two aligners, in the order in which [processRPMImages] calls
    them. *)
Definition align (images : list Mat) : list Mat :=
  alignImageHeights (alignImageWidths images).

(** The number of times [c] occurs in [s]. *)
Fixpoint countChar (c : ascii) (s : string) : nat :=
  match s with
  | EmptyString => 0
  | String d s' => (if Ascii.eqb d c then 1 else 0) + countChar c s'
  end.

Definition comma : ascii := ascii_of_nat 44.
Definition linefeed : ascii := ascii_of_nat 10.

(** The rendering of a number has neither a comma nor a line feed. *)
Definition plainNumbers (show_double : Q -> string) : Prop :=
  forall q, countChar comma (show_double q) = 0%nat /\
            countChar linefeed (show_double q) = 0%nat.

(** The failures to save an aligned image that a run reports. *)
Fixpoint failedSaves (evs : list Event) : list string :=
  match evs with
  | [] => []
  | Cerr (FailedToSave path) :: rest => path :: failedSaves rest
  | _ :: rest => failedSaves rest
  end.

(** The world with another blur filter. *)
Definition withBlur (w : World) (blur : Mat -> Z -> Mat) : World :=
  {| directory_files := directory_files w;
     imread := imread w;
     GaussianBlur := blur;
     imwrite := imwrite w;
     ofstream_open := ofstream_open w;
     timestamp := timestamp w |}.

(** The world with another listing of the folders. *)
Definition withFiles (w : World) (files : string -> list string) : World :=
  {| directory_files := files;
     imread := imread w;
     GaussianBlur := GaussianBlur w;
     imwrite := imwrite w;
     ofstream_open := ofstream_open w;
     timestamp := timestamp w |}.

(** The aligned images that could not be saved, by what [imwrite]
    returned. *)
Fixpoint failedWrites (evs : list Event) : list string :=
  match evs with
  | [] => []
  | ImWrite path _ false :: rest => path :: failedWrites rest
  | _ :: rest => failedWrites rest
  end.

(** The messages that start with [Error:], which the run writes to
    [std::cerr]. *)
Definition is_error (m : Message) : bool :=
  match m with
  | NotThreeReplicates _ | CouldNotLoad _ | UnexpectedNumber _ _
  | FailedToSave _ | CouldNotCreateCsv _ => true
  | _ => false
  end.

(** The message went to the stream of its kind: an error to [std::cerr],
    any other to [std::cout]. *)
Definition routed (e : Event) : bool :=
  match e with
  | Cout m => negb (is_error m)
  | Cerr m => is_error m
  | _ => true
  end.

(** The lines of the CSV files of a run, headers included, in the order
    written. *)
Fixpoint csvLines (show_double : Q -> string) (evs : list Event)
    : list string :=
  match evs with
  | [] => []
  | CsvFile _ header body :: rest =>
      (header :: map (rowText show_double) body)
        ++ csvLines show_double rest
  | _ :: rest => csvLines show_double rest
  end.

(** The line has five fields and ends where it should. *)
Definition fiveFields (line : string) : Prop :=
  countChar comma line = 4%nat /\ countChar linefeed line = 1%nat.

(** An answer that the loop of the lower bound turns down: no number, or
    a number that is not below the upper bound. *)
Definition turnedDown (distanceUpper : Q) (attempt : option Q) : Prop :=
  match attempt with
  | Some distanceLower => (distanceUpper <= distanceLower)%Q
  | None => True
  end.

(* ================================================================= *)
(** ** More sample inputs *)

Module Cases.

(** Three images of the sizes 3 x 2, 2 x 3 and 2 x 2 (width x height). *)
Definition mixedGroup : list Mat :=
  [Sample.ramp 2 3 30; Sample.ramp 3 2 10; Sample.ramp 2 2 20].

(** The listing of [Sample.files] in another order. *)
Definition shuffled : list string :=
  ["W_1_R2.tif"; "W_1_R3.tif"; "W_1_R1.tif"; "notes.txt"].

(** A folder without any file of the run. *)
Definition strangers : list string := ["notes.txt"; "W_x_R1.tif"; "V_1_R1.tif"].

Definition strangerWorld : World :=
  {| directory_files := fun _ => strangers;
     imread := fun _ => mkMat 0 0 [];
     GaussianBlur := fun m _ => m;
     imwrite := fun _ _ => true;
     ofstream_open := fun _ => true;
     timestamp := "20240101_000000" |}.

(** The folder of [Sample.files] after a run for the channel R that wrote
    its CSV file into it. *)
Definition rerunWorld : World :=
  {| directory_files := fun _ => ("W_1_Rness.csv" :: Sample.files)%list;
     imread := Sample.decode;
     GaussianBlur := fun m _ => m;
     imwrite := fun _ _ => true;
     ofstream_open := fun _ => true;
     timestamp := "20240102_000000" |}.

Definition redConfig : Config :=
  {| cfg_identifier := "W";
     cfg_distanceUpper := 10%Q;
     cfg_distanceLower := 0%Q;
     cfg_channelChoice := ChR;
     cfg_blurRadius := 0;
     cfg_folderPath := "in";
     cfg_outputFolder := "in" |}.

(** A folder with a key that does not fit an [int]. *)
Definition hugeWorld : World :=
  {| directory_files := fun _ => ["W_1_R1.tif"; "W_99999999999_R1.tif"];
     imread := Sample.decode;
     GaussianBlur := fun m _ => m;
     imwrite := fun _ _ => true;
     ofstream_open := fun _ => true;
     timestamp := "20240104_000000" |}.

(** Three white images of the machine, one row high and [w] columns
    wide. *)
Definition whiteGroupF (w : Z) : list Machine.Mat :=
  [Machine.plain 1 w Machine.white; Machine.plain 1 w Machine.white;
   Machine.plain 1 w Machine.white].

(** A pixel whose samples add up to more than a [float] holds. *)
Definition bright : Machine.Vec3f :=
  (Machine.sample (2 ^ 127), Machine.sample (2 ^ 127),
   Machine.sample (2 ^ 127)).

(** A pixel whose large samples cancel. *)
Definition cancelling : Machine.Vec3f :=
  (Machine.sample 100000000, Machine.sample 1, Machine.sample (-100000000)).

(** Three images of one pixel [p]. *)
Definition pixelGroup (p : Machine.Vec3f) : list Machine.Mat :=
  [Machine.plain 1 1 p; Machine.plain 1 1 p; Machine.plain 1 1 p].

(** The largest [double]. *)
Definition DBL_MAX : Machine.double := SpecFloat.SFmax_float 53 1024.

(** A blur that would leave nothing of an image. *)
Definition wipe (m : Mat) (ksize : Z) : Mat := mkMat 0 0 [].

(** Answers with a mistake at every prompt loop. *)
Definition answers : Answers :=
  {| ans_identifier := "W";
     ans_upper := [None; Some 10%Q];
     ans_lower := [Some 12%Q; None; Some 10%Q; Some 2%Q; Some 1%Q];
     ans_channel := ["x"%char; "g"%char];
     ans_blur := [Some (-1); None; Some 0];
     ans_folderPath := "in";
     ans_outputFolder := "out" |}.

End Cases.

(* ================================================================= *)
(** * Lemmas *)

(** ** Strings *)

Module StrFacts.

(** Two ways to cut the same text at the same offset agree. *)
Lemma append_split (p q a b : string) :
  p ++ a = q ++ b -> String.length p = String.length q -> p = q /\ a = b.
Proof.
  revert q. induction p as [|x p IH]; intros [|y q]; simpl; intros E L;
    try discriminate.
  - now split.
  - injection E as -> E. injection L as L.
    destruct (IH _ E L) as [-> ->]. now split.
Qed.

Lemma prefix_iff (p s : string) :
  String.prefix p s = true <-> exists r, s = p ++ r.
Proof.
  revert s. induction p as [|a p IH]; intros s; simpl.
  - destruct s; split; intros _; try reflexivity; eexists; reflexivity.
  - destruct s as [|b s]; simpl.
    + split; [discriminate | intros [r E]; discriminate].
    + destruct (ascii_dec a b) as [->|N].
      * rewrite IH. split; intros [r E]; exists r.
        -- now rewrite E.
        -- now injection E.
      * split; [discriminate|]. intros [r E]. injection E as E _.
        now elim N.
Qed.

Lemma strip_prefix_iff (p s r : string) :
  Str.strip_prefix p s = Some r <-> s = p ++ r.
Proof.
  revert s. induction p as [|a p IH]; intros s; simpl.
  - split; [now intros [= ->] | now intros ->].
  - destruct s as [|b s].
    + split; discriminate.
    + destruct (Ascii.eqb_spec a b) as [->|N].
      * rewrite IH. split; [now intros -> | now intros [= ->]].
      * split; [discriminate|]. intros [= E _]. now elim N.
Qed.

Lemma find_from_some (s sub : string) (pos n : nat) :
  Str.find_from s sub pos = Some n ->
  exists pre post, s = pre ++ sub ++ post /\ n = (pos + String.length pre)%nat.
Proof.
  revert pos. induction s as [|c s IH]; intros pos; cbn [Str.find_from].
  - destruct (String.prefix sub EmptyString) eqn:P; [|discriminate].
    intros [= <-]. apply prefix_iff in P as [r E].
    exists EmptyString, r. split; [exact E | simpl; lia].
  - destruct (String.prefix sub (String c s)) eqn:P.
    + intros [= <-]. apply prefix_iff in P as [r E].
      exists EmptyString, r. split; [exact E | simpl; lia].
    + intros F. destruct (IH _ F) as (pre & post & -> & ->).
      exists (String c pre), post. split; [reflexivity | simpl; lia].
Qed.

Lemma find_from_none (s sub : string) (pos : nat) :
  Str.find_from s sub pos = None -> ~ occurs sub s.
Proof.
  revert pos. induction s as [|c s IH]; intros pos; cbn [Str.find_from].
  - destruct (String.prefix sub EmptyString) eqn:P; [discriminate|].
    intros _ (pre & post & E). destruct pre; [|discriminate].
    assert (String.prefix sub EmptyString = true) by (apply prefix_iff; eauto).
    congruence.
  - destruct (String.prefix sub (String c s)) eqn:P; [discriminate|].
    intros F (pre & post & E). destruct pre as [|x pre].
    + assert (String.prefix sub (String c s) = true)
        by (apply prefix_iff; eauto).
      congruence.
    + injection E as _ E. apply (IH _ F). now exists pre, post.
Qed.

(** [s.find(sub) != npos] says that [sub] occurs in [s]. *)
Lemma found_iff (s sub : string) :
  Str.found (Str.find s sub) = true <-> occurs sub s.
Proof.
  unfold Str.find. destruct (Str.find_from s sub 0) as [n|] eqn:F; simpl.
  - split; [intros _ | reflexivity].
    destruct (find_from_some _ _ _ _ F) as (pre & post & E & _).
    now exists pre, post.
  - split; [discriminate|]. intros O.
    now elim (find_from_none _ _ _ F).
Qed.

End StrFacts.

(** ** The pattern of the classifier *)

Module Pattern.

Import StrFacts.

Lemma span_digits_split (s ds r : string) :
  Str.span_digits s = (ds, r) ->
  s = ds ++ r /\ Str.all_digits ds = true /\ stops r.
Proof.
  revert ds r. induction s as [|c s IH]; intros ds r; simpl.
  - intros [= <- <-]. now repeat split.
  - destruct (Str.is_digit c) eqn:D.
    + destruct (Str.span_digits s) as [ds' r'] eqn:S. intros [= <- <-].
      destruct (IH _ _ eq_refl) as (-> & A & St).
      simpl. rewrite D, A. now repeat split.
    + intros [= <- <-]. simpl. now repeat split.
Qed.

Lemma span_digits_app (ds r : string) :
  Str.all_digits ds = true -> stops r -> Str.span_digits (ds ++ r) = (ds, r).
Proof.
  induction ds as [|c ds IH]; simpl; intros A St.
  - destruct r as [|c r]; [reflexivity|]. simpl in *. now rewrite St.
  - apply andb_prop in A as [D A]. now rewrite D, IH.
Qed.

Lemma digits_head (rs post : string) :
  digits rs -> exists c rest, rs ++ post = String c rest /\ Str.is_digit c = true.
Proof.
  intros [N A]. destruct rs as [|c rs]; [now elim N|].
  simpl in A. apply andb_prop in A as [D _].
  exists c, (rs ++ post). now split.
Qed.

(** The matcher at the head of [s] agrees with the shape of the
    pattern. *)
Lemma match_here_iff (identifier s ds : string) :
  match_here identifier s = Some ds <->
  exists rs post,
    s = identifier ++ "_" ++ ds ++ "_R" ++ rs ++ post /\
    digits ds /\ digits rs.
Proof.
  unfold match_here. split.
  - destruct (Str.strip_prefix identifier s) as [r1|] eqn:E1;
      [|discriminate]. cbn [bind].
    destruct (Str.strip_prefix "_" r1) as [r2|] eqn:E2; [|discriminate].
    cbn [bind].
    destruct (Str.span_digits r2) as [ds' r3] eqn:E3.
    destruct ds' as [|d ds']; [discriminate|].
    destruct (Str.strip_prefix "_R" r3) as [r4|] eqn:E4; [|discriminate].
    cbn [bind]. destruct r4 as [|c rest]; [discriminate|].
    destruct (Str.is_digit c) eqn:D; [|discriminate]. intros [= <-].
    apply strip_prefix_iff in E1, E2, E4.
    apply span_digits_split in E3 as (E3 & A & _).
    exists (String c EmptyString), rest. subst. repeat split; try discriminate.
    + exact A.
    + simpl. now rewrite D.
  - intros (rs & post & -> & [Nd Ad] & Dr).
    assert (E1 : Str.strip_prefix identifier
                   (identifier ++ "_" ++ ds ++ "_R" ++ rs ++ post)
                 = Some ("_" ++ ds ++ "_R" ++ rs ++ post))
      by now apply strip_prefix_iff.
    rewrite E1. cbn [bind].
    assert (E2 : Str.strip_prefix "_" ("_" ++ ds ++ "_R" ++ rs ++ post)
                 = Some (ds ++ "_R" ++ rs ++ post))
      by now apply strip_prefix_iff.
    rewrite E2. cbn [bind].
    rewrite (span_digits_app ds ("_R" ++ rs ++ post) Ad)
      by reflexivity.
    destruct ds as [|d ds]; [now elim Nd|].
    assert (E4 : Str.strip_prefix "_R" ("_R" ++ rs ++ post)
                 = Some (rs ++ post))
      by now apply strip_prefix_iff.
    rewrite E4. cbn [bind].
    destruct (digits_head rs post Dr) as (c & rest & -> & D).
    now rewrite D.
Qed.

Lemma matches_at_iff (identifier ds filename : string) (n : nat) :
  matches_at identifier ds filename n <->
  exists pre rest,
    filename = pre ++ rest /\ String.length pre = n /\
    match_here identifier rest = Some ds.
Proof.
  unfold matches_at. split.
  - intros (pre & rs & post & -> & L & Dd & Dr).
    exists pre, (identifier ++ "_" ++ ds ++ "_R" ++ rs ++ post).
    repeat split; [exact L|]. apply match_here_iff. now exists rs, post.
  - intros (pre & rest & -> & L & M).
    apply match_here_iff in M as (rs & post & -> & Dd & Dr).
    now exists pre, rs, post.
Qed.

Lemma regex_search_none (identifier s : string) :
  regex_search identifier s = None ->
  forall pre rest, s = pre ++ rest -> match_here identifier rest = None.
Proof.
  induction s as [|c s IH]; cbn [regex_search];
    destruct (match_here identifier _) eqn:M; try discriminate.
  - intros _ [|x pre] rest E; [|discriminate]. simpl in E. now subst.
  - intros R [|x pre] rest E.
    + simpl in E. now subst.
    + injection E as _ E. now apply (IH R pre).
Qed.

Lemma regex_search_some (identifier s ds : string) :
  regex_search identifier s = Some ds ->
  exists pre rest,
    s = pre ++ rest /\ match_here identifier rest = Some ds /\
    forall pre' rest',
      s = pre' ++ rest' -> (String.length pre' < String.length pre)%nat ->
      match_here identifier rest' = None.
Proof.
  induction s as [|c s IH]; cbn [regex_search];
    destruct (match_here identifier _) eqn:M; try discriminate.
  - intros [= ->]. exists EmptyString, EmptyString. repeat split; [exact M|].
    simpl. intros; lia.
  - intros [= ->]. exists EmptyString, (String c s). repeat split; [exact M|].
    simpl. intros; lia.
  - intros R. destruct (IH R) as (pre & rest & -> & Mr & Least).
    exists (String c pre), rest. repeat split; [exact Mr|].
    intros [|x pre'] rest' E L.
    + simpl in E. now subst.
    + injection E as _ E. apply (Least pre' rest' E). simpl in L. lia.
Qed.

(** [regex_search] finds the leftmost place at which the pattern
    matches, and reports the digits of the group there. *)
Lemma regex_search_first_match (identifier s ds : string) :
  regex_search identifier s = Some ds <-> first_match identifier ds s.
Proof.
  split.
  - intros R. destruct (regex_search_some _ _ _ R)
      as (pre & rest & -> & M & Least).
    exists (String.length pre). split.
    + apply matches_at_iff. now exists pre, rest.
    + intros n' ds' L (pre' & rest' & E & L' & M')%matches_at_iff.
      rewrite (Least pre' rest' E) in M' by lia. discriminate.
  - intros (n & (pre & rest & -> & L & M)%matches_at_iff & Least).
    destruct (regex_search identifier (pre ++ rest)) as [ds'|] eqn:R.
    + destruct (regex_search_some _ _ _ R)
        as (pre' & rest' & E & M' & Least').
      destruct (Nat.lt_trichotomy (String.length pre') n) as [Lt|[Eq|Gt]].
      * elim (Least (String.length pre') ds' Lt).
        apply matches_at_iff. now exists pre', rest'.
      * destruct (append_split pre pre' rest rest' E) as [_ <-];
          [congruence|]. congruence.
      * rewrite (Least' pre rest eq_refl) in M by lia. discriminate.
    + rewrite (regex_search_none _ _ R pre rest eq_refl) in M.
      discriminate.
Qed.

Lemma first_match_occurs (identifier ds filename : string) :
  first_match identifier ds filename ->
  pattern_occurs identifier (Str.decimal ds) filename.
Proof. intros (n & M & _). now exists ds, n. Qed.

End Pattern.

(** ** Filename Classifier *)

Module Classifier.

Lemma stoi_some (ds : string) (k : Z) :
  stoi ds = Some k <-> Str.decimal ds = k /\ k <= INT_MAX.
Proof.
  unfold stoi. destruct (Z.leb_spec (Str.decimal ds) INT_MAX).
  - split; [intros [= <-]; now split | now intros [-> _]].
  - split; [discriminate | intros [<- L]; lia].
Qed.

Lemma set_insert_In (k x : Z) (s : list Z) :
  In x (set_insert k s) <-> x = k \/ In x s.
Proof.
  induction s as [|h t IH]; simpl.
  - intuition.
  - destruct (Z.ltb_spec k h); [simpl; intuition|].
    destruct (Z.eqb_spec k h); simpl; [subst; intuition|].
    rewrite IH. intuition.
Qed.

Lemma set_insert_sorted (k : Z) (s : list Z) :
  StronglySorted Z.lt s -> StronglySorted Z.lt (set_insert k s).
Proof.
  induction 1 as [|h t St IH Fa]; simpl.
  - repeat constructor.
  - destruct (Z.ltb_spec k h).
    + constructor; [now constructor|].
      constructor; [exact H|].
      eapply Forall_impl; [|exact Fa]. simpl. intros; lia.
    + destruct (Z.eqb_spec k h); [now constructor|].
      constructor; [exact IH|].
      apply Forall_forall. intros x [->|I]%set_insert_In; [lia|].
      rewrite Forall_forall in Fa. now apply Fa.
Qed.

(** What the loop adds to the set: the keys of the first matches. *)
Lemma extract_loop_keys (identifier : string) (filenames : list string) :
  forall acc keys,
    extract_loop filenames identifier acc = Some keys ->
    (forall k,
       In k keys <->
       In k acc \/
       exists f ds, In f filenames /\ regex_search identifier f = Some ds /\
                    Str.decimal ds = k) /\
    (StronglySorted Z.lt acc -> StronglySorted Z.lt keys).
Proof.
  induction filenames as [|f rest IH]; intros acc keys; simpl.
  - intros [= <-]. split; [|tauto].
    intros k. split; [tauto|]. intros [I|(f & ds & [] & _)]. exact I.
  - destruct (regex_search identifier f) as [ds|] eqn:R.
    + destruct (stoi ds) as [k0|] eqn:S; [|discriminate]. cbn [bind].
      intros E. destruct (IH _ _ E) as [Mem Sorted].
      apply stoi_some in S as [Dk _]. split.
      * intros k. rewrite Mem, set_insert_In. split.
        -- intros [[->|I]|(g & ds' & I & R' & D)].
           ++ right. exists f, ds. now repeat split; [left|..].
           ++ now left.
           ++ right. exists g, ds'. now repeat split; [right|..].
        -- intros [I|(g & ds' & [<-|I] & R' & D)].
           ++ left. now right.
           ++ left. left. congruence.
           ++ right. now exists g, ds'.
      * intros St. now apply Sorted, set_insert_sorted.
    + intros E. destruct (IH _ _ E) as [Mem Sorted]. split; [|exact Sorted].
      intros k. rewrite Mem. split.
      * intros [I|(g & ds' & I & R' & D)]; [now left|].
        right. exists g, ds'. now repeat split; [right|..].
      * intros [I|(g & ds' & [<-|I] & R' & D)]; [now left|congruence|].
        right. now exists g, ds'.
Qed.

Lemma extract_loop_total (identifier : string) (filenames : list string) :
  keys_fit identifier filenames = true ->
  forall acc, exists keys, extract_loop filenames identifier acc = Some keys.
Proof.
  induction filenames as [|f rest IH]; simpl; intros Fit acc.
  - now exists acc.
  - apply andb_prop in Fit as [Ff Fit].
    destruct (regex_search identifier f) as [ds|]; [|now apply IH].
    unfold stoi. rewrite Ff. cbn [bind]. now apply IH.
Qed.

End Classifier.

(** ** Group Validator *)

Module Validator.

(** The counter of the validator is the number of selected files. *)
Lemma count_replicates_length (identifier : string) (rpm : Z)
    (filenames : list string) (count : Z) :
  count_replicates filenames identifier rpm count
  = count + Z.of_nat (length (filter (selected identifier rpm) filenames)).
Proof.
  revert count. induction filenames as [|f rest IH]; intros count; simpl.
  - lia.
  - unfold selected at 1.
    destruct (Str.found _); rewrite IH; simpl length; lia.
Qed.

Lemma validate_true (identifier : string) (filenames : list string)
    (uniqueRPMs : list Z) (errors : list Message) :
  validateReplicates filenames uniqueRPMs identifier = (true, errors) ->
  errors = [] /\
  forall k, In k uniqueRPMs ->
            length (filter (selected identifier k) filenames) = 3%nat.
Proof.
  induction uniqueRPMs as [|rpm rest IH]; simpl.
  - intros [= <-]. split; [reflexivity | intros k []].
  - rewrite count_replicates_length.
    destruct (Z.eqb_spec (0 + Z.of_nat (length
                (filter (selected identifier rpm) filenames))) 3) as [E|N];
      simpl; [|discriminate].
    intros V. destruct (IH V) as [-> All]. split; [reflexivity|].
    intros k [<-|I]; [lia | now apply All].
Qed.

Lemma validate_false (identifier : string) (filenames : list string)
    (uniqueRPMs : list Z) (k : Z) :
  In k uniqueRPMs ->
  length (filter (selected identifier k) filenames) <> 3%nat ->
  exists k',
    In k' uniqueRPMs /\
    length (filter (selected identifier k') filenames) <> 3%nat /\
    validateReplicates filenames uniqueRPMs identifier
    = (false, [NotThreeReplicates k']).
Proof.
  induction uniqueRPMs as [|rpm rest IH]; simpl; [intros []|].
  intros I N. rewrite count_replicates_length.
  destruct (Z.eqb_spec (0 + Z.of_nat (length
              (filter (selected identifier rpm) filenames))) 3) as [E|NE];
    simpl.
  - destruct I as [<-|I]; [lia|].
    destruct (IH I N) as (k' & I' & N' & V).
    exists k'. now repeat split; [right|..].
  - exists rpm. repeat split; [now left | lia].
Qed.

End Validator.

(** ** Image Aligner *)

Module Aligner.

Section Least.

(** One dimension of an image: [rows] or [cols]. *)
Variable dim : Mat -> Z.

Lemma least_below (images : list Mat) :
  forall start,
    least dim images start <= start /\
    Forall (fun m => least dim images start <= dim m) images /\
    (least dim images start = start \/ In (least dim images start) (map dim images)).
Proof.
  unfold least. induction images as [|m rest IH]; intros start; simpl.
  - repeat split; [lia | constructor | now left].
  - destruct (IH (if dim m <? start then dim m else start))
      as (Le & All & Where).
    destruct (Z.ltb_spec (dim m) start); repeat split; try lia.
    + constructor; [lia | exact All].
    + destruct Where as [->|I]; right; [now left | now right].
    + constructor; [lia | exact All].
    + destruct Where as [->|I]; [now left | right; now right].
Qed.

(** Started from [INT_MAX], the loop ends with the least dimension of
    a group that is not empty. *)
Lemma least_is_min (images : list Mat) :
  images <> [] ->
  Forall (fun m => dim m <= INT_MAX) images ->
  is_min (least dim images INT_MAX) (map dim images).
Proof.
  intros NE Bound. destruct (least_below images INT_MAX) as (Le & All & W).
  split.
  - destruct W as [E|I]; [|exact I].
    destruct images as [|m rest]; [now elim NE|].
    left. inversion Bound as [|? ? Bm _]; subst.
    inversion All as [|? ? Am _]; subst. lia.
  - apply Forall_map. exact All.
Qed.

End Least.

Lemma is_min_unique (a b : Z) (l : list Z) : is_min a l -> is_min b l -> a = b.
Proof.
  intros [Ia Fa] [Ib Fb]. rewrite Forall_forall in Fa, Fb.
  specialize (Fa _ Ib). specialize (Fb _ Ia). lia.
Qed.

Lemma crop_data (W H : Z) (m : Mat) :
  data (crop W H m)
  = map (firstn (Z.to_nat W)) (firstn (Z.to_nat H) (data m)).
Proof. reflexivity. Qed.

Lemma Mat_eq (a b : Mat) :
  rows a = rows b -> cols a = cols b -> data a = data b -> a = b.
Proof. destruct a, b; simpl; now intros -> -> ->. Qed.

Lemma map_firstn_all {A : Type} (n : nat) (l : list (list A)) :
  Forall (fun row => length row = n) l -> map (firstn n) l = l.
Proof.
  induction 1 as [|row rest Lrow _ IH]; simpl; [reflexivity|].
  now rewrite IH, <- Lrow, firstn_all.
Qed.

(** Cropping a well-formed image to its own size changes nothing. *)
Lemma crop_full (m : Mat) : wf_Mat m -> crop (cols m) (rows m) m = m.
Proof.
  intros (_ & _ & Lr & Lc). apply Mat_eq; try reflexivity.
  rewrite crop_data, <- Lr, firstn_all. now apply map_firstn_all.
Qed.

(** Cropping the height after the width is one crop. *)
Lemma crop_crop (W H R : Z) (m : Mat) :
  0 <= H <= R -> crop W H (crop W R m) = crop W H m.
Proof.
  intros B. apply Mat_eq; try reflexivity.
  rewrite !crop_data, firstn_map, firstn_firstn, map_map.
  rewrite Nat.min_l by lia.
  apply map_ext. intros row. rewrite firstn_firstn. now rewrite Nat.min_id.
Qed.

Lemma crop_wf (W H : Z) (m : Mat) :
  wf_Mat m -> 0 <= W <= cols m -> 0 <= H <= rows m -> wf_Mat (crop W H m).
Proof.
  intros (Br & Bc & Lr & Lc) BW BH. unfold wf_Mat. simpl.
  repeat split; try lia.
  - rewrite length_map, length_firstn. lia.
  - apply Forall_map. apply Forall_forall. intros row I.
    rewrite Forall_forall in Lc.
    assert (In row (data m)) as I'.
    { rewrite <- (firstn_skipn (Z.to_nat H) (data m)).
      apply in_or_app. now left. }
    rewrite length_firstn, (Lc _ I'). lia.
Qed.

(** Inside the crop, the pixels are those of the source. *)
Lemma crop_at (W H : Z) (m : Mat) (y x : Z) :
  W <= cols m -> H <= rows m -> 0 <= y < H -> 0 <= x < W ->
  at_ (crop W H m) y x = at_ m y x.
Proof.
  intros BW BH By Bx. unfold at_. simpl rows. simpl cols.
  replace ((0 <=? y) && (y <? H) && (0 <=? x) && (x <? W)) with true
    by (symmetry; rewrite !andb_true_iff; repeat split; lia).
  replace ((0 <=? y) && (y <? rows m) && (0 <=? x) && (x <? cols m)) with true
    by (symmetry; rewrite !andb_true_iff; repeat split; lia).
  rewrite crop_data, nth_error_map, nth_error_firstn.
  replace (Z.to_nat y <? Z.to_nat H)%nat with true
    by (symmetry; apply Nat.ltb_lt; lia).
  destruct (nth_error (data m) (Z.to_nat y)) as [row|]; [|reflexivity].
  simpl. rewrite nth_error_firstn.
  now replace (Z.to_nat x <? Z.to_nat W)%nat with true
    by (symmetry; apply Nat.ltb_lt; lia).
Qed.

Lemma min_cols_least (images : list Mat) :
  min_cols images = least cols images INT_MAX.
Proof. reflexivity. Qed.

Lemma min_rows_least (images : list Mat) :
  min_rows images = least rows images INT_MAX.
Proof. reflexivity. Qed.

(** [alignImageWidths] crops every image to the least width. *)
Lemma alignImageWidths_crop (images : list Mat) (W : Z) :
  Forall wf_Mat images -> is_min W (map cols images) ->
  alignImageWidths images = map (fun m => crop W (rows m) m) images.
Proof.
  intros Wf Min. unfold alignImageWidths.
  assert (min_cols images = W) as ->.
  { apply (is_min_unique _ _ (map cols images)); [|exact Min].
    rewrite min_cols_least. apply least_is_min.
    - destruct images; [destruct Min as [[] _] | discriminate].
    - eapply Forall_impl; [|exact Wf]. intros m (_ & B & _). lia. }
  destruct Min as [_ All]. rewrite Forall_map in All.
  apply map_ext_Forall.
  rewrite Forall_forall in *. intros m I.
  specialize (All m I). specialize (Wf m I).
  destruct (Z.gtb_spec (cols m) W); [reflexivity|].
  replace W with (cols m) by lia. symmetry. now apply crop_full.
Qed.

(** [alignImageHeights] crops every image to the least height. *)
Lemma alignImageHeights_crop (images : list Mat) (H : Z) :
  Forall wf_Mat images -> is_min H (map rows images) ->
  alignImageHeights images = map (fun m => crop (cols m) H m) images.
Proof.
  intros Wf Min. unfold alignImageHeights.
  assert (min_rows images = H) as ->.
  { apply (is_min_unique _ _ (map rows images)); [|exact Min].
    rewrite min_rows_least. apply least_is_min.
    - destruct images; [destruct Min as [[] _] | discriminate].
    - eapply Forall_impl; [|exact Wf]. intros m (B & _). lia. }
  destruct Min as [_ All]. rewrite Forall_map in All.
  apply map_ext_Forall.
  rewrite Forall_forall in *. intros m I.
  specialize (All m I). specialize (Wf m I).
  destruct (Z.gtb_spec (rows m) H); [reflexivity|].
  replace H with (rows m) by lia. symmetry. now apply crop_full.
Qed.

(** The two steps together are one crop to the least width and the
    least height. *)
Lemma align_crop (images : list Mat) (W H : Z) :
  Forall wf_Mat images ->
  is_min W (map cols images) -> is_min H (map rows images) ->
  alignImageHeights (alignImageWidths images) = map (crop W H) images.
Proof.
  intros Wf MinW MinH.
  rewrite (alignImageWidths_crop images W Wf MinW).
  assert (BW : Forall (fun m => 0 <= W <= cols m) images).
  { destruct MinW as [In_ All]. rewrite Forall_map in All.
    apply in_map_iff in In_ as (m0 & <- & I0).
    rewrite Forall_forall in *. intros m I.
    destruct (Wf m0 I0) as (_ & B & _). specialize (All m I). lia. }
  assert (BH : Forall (fun m => 0 <= H <= rows m) images).
  { destruct MinH as [In_ All]. rewrite Forall_map in All.
    apply in_map_iff in In_ as (m0 & <- & I0).
    rewrite Forall_forall in *. intros m I.
    destruct (Wf m0 I0) as (B & _). specialize (All m I). lia. }
  rewrite (alignImageHeights_crop _ H).
  - rewrite map_map. apply map_ext_Forall.
    rewrite Forall_forall in *. intros m I.
    change (cols (crop W (rows m) m)) with W.
    apply crop_crop. apply (BH m I).
  - apply Forall_map. rewrite Forall_forall in *. intros m I.
    apply crop_wf; [now apply Wf | now apply BW |].
    destruct (Wf m I) as (B & _). lia.
  - now rewrite map_map.
Qed.

End Aligner.

(** ** Channel Profiler *)

Module Profiler.

Local Open Scope Q_scope.

Lemma fdiv_some (a b : Q) : ~ b == 0 -> fdiv a b = Some (a / b).
Proof.
  intros N. unfold fdiv. destruct (Qeq_bool b 0) eqn:E; [|reflexivity].
  now apply Qeq_bool_eq in E.
Qed.


Lemma inject_Z_nonzero (z : Z) : z <> 0%Z -> ~ inject_Z z == 0.
Proof.
  intros N E. apply N. unfold Qeq in E. simpl in E. lia.
Qed.

Lemma luminance_order (c0 c1 c2 : Q) : (c2 + c1 + c0 == c0 + c1 + c2)%Q.
Proof. ring. Qed.

(** What a pixel adds to the column total is the ratio of the
    specification, and computing it divides by no zero. *)
Lemma pixelRatio_ratio (channelChoice : Channel) (p : Vec3f) :
  exists r, pixelRatio channelChoice p = Some r /\ r == ratio channelChoice p.
Proof.
  destruct p as [[c0 c1] c2]. unfold pixelRatio, ratio. simpl.
  pose proof (luminance_order c0 c1 c2) as E.
  destruct (Qlt_le_dec 0 (c2 + c1 + c0)) as [P|N];
    destruct (Qlt_le_dec 0 (c0 + c1 + c2)) as [P'|N'].
  - rewrite fdiv_some.
    + eexists; split; [reflexivity|]. rewrite E.
      destruct channelChoice; reflexivity.
    + intros Z. rewrite Z in P. now apply Qlt_irrefl in P.
  - rewrite E in P. elim (Qlt_not_le _ _ P N').
  - rewrite <- E in P'. elim (Qlt_not_le _ _ P' N).
  - now exists 0%Q.
Qed.


Lemma sumColumn_pixels (channelChoice : Channel) (image : Mat) (x : Z)
    (ys : list Z) (ps : list Vec3f) :
  Forall2 (fun y p => at_ image y x = Some p) ys ps ->
  forall acc,
  exists t, sumColumn channelChoice image x ys acc = Some t /\
            t == acc + Qsum (map (ratio channelChoice) ps).
Proof.
  induction 1 as [|y p ys ps At _ IH]; intros acc; simpl.
  - exists acc. split; [reflexivity | ring].
  - rewrite At. cbn [bind].
    destruct (pixelRatio_ratio channelChoice p) as (r & -> & Er).
    cbn [bind]. destruct (IH (acc + r)%Q) as (t & -> & Et).
    exists t. split; [reflexivity|]. rewrite Et, Er. ring.
Qed.

Lemma at_inside (image : Mat) (y x : nat) (row : list Vec3f) (p : Vec3f) :
  (y < Z.to_nat (rows image))%nat -> (x < Z.to_nat (cols image))%nat ->
  nth_error (data image) y = Some row -> nth_error row x = Some p ->
  at_ image (Z.of_nat y) (Z.of_nat x) = Some p.
Proof.
  intros By Bx Ry Px. unfold at_.
  replace ((0 <=? Z.of_nat y) && (Z.of_nat y <? rows image)
           && (0 <=? Z.of_nat x) && (Z.of_nat x <? cols image)) with true
    by (symmetry; rewrite !andb_true_iff; repeat split; lia).
  rewrite !Nat2Z.id, Ry. exact Px.
Qed.

Lemma column_rows (image : Mat) (x : nat) (l : list (list Vec3f)) :
  (x < Z.to_nat (cols image))%nat ->
  Forall (fun row => length row = Z.to_nat (cols image)) l ->
  forall k,
    (k + length l <= Z.to_nat (rows image))%nat ->
    (forall j, (j < length l)%nat ->
               nth_error l j = nth_error (data image) (k + j)) ->
    Forall2 (fun y p => at_ image y (Z.of_nat x) = Some p)
            (map Z.of_nat (seq k (length l)))
            (flat_map (fun row => match nth_error row x with
                                  | Some p => [p]
                                  | None => []
                                  end) l).
Proof.
  intros Bx. induction 1 as [|row rest Lrow _ IH]; intros k Bk Same; simpl.
  - constructor.
  - destruct (nth_error row x) as [p|] eqn:Px.
    + simpl. constructor.
      * apply (at_inside image k x row p);
          [simpl in Bk; lia | exact Bx | | exact Px].
        specialize (Same 0%nat). rewrite Nat.add_0_r in Same.
        rewrite <- Same; [reflexivity | simpl; lia].
      * apply IH; [simpl in Bk; lia|]. intros j Bj.
        specialize (Same (S j)). rewrite Nat.add_succ_r in Same.
        cbn [Nat.add]. rewrite <- Same; [reflexivity | simpl; lia].
    + apply nth_error_None in Px. lia.
Qed.

(** The rows of column [x], read through [at], are its pixels. *)
Lemma column_pixels (image : Mat) (x : Z) :
  wf_Mat image -> (0 <= x < cols image)%Z ->
  Forall2 (fun y p => at_ image y x = Some p)
          (range (rows image)) (column image x).
Proof.
  intros (Br & Bc & Lr & Lc) Bx. unfold range, column.
  assert (Bn : (Z.to_nat x < Z.to_nat (cols image))%nat) by lia.
  pose proof (column_rows image (Z.to_nat x) (data image) Bn Lc 0%nat) as F.
  rewrite Z2Nat.id, Lr in F by lia. apply F; [lia | reflexivity].
Qed.


Lemma overImages_values (channelChoice : Channel) (H x : Z)
    (images : list Mat) :
  (0 < H)%Z ->
  Forall (fun m => wf_Mat m /\ rows m = H /\ (0 <= x < cols m)%Z) images ->
  forall acc,
  exists g vs,
    overImages channelChoice H x images acc = Some (g, vs) /\
    Forall2 (columnValue channelChoice H x) images vs /\
    g == acc + Qsum vs.
Proof.
  intros PH. induction 1 as [|m rest (Wf & Hm & Bx) _ IH]; intros acc; simpl.
  - exists acc, []. repeat split; [constructor | simpl; ring].
  - pose proof (column_pixels m x Wf Bx) as Px. rewrite Hm in Px.
    destruct (sumColumn_pixels channelChoice m x _ _ Px 0%Q) as (t & -> & Et).
    cbn [bind]. rewrite fdiv_some by (apply inject_Z_nonzero; lia).
    cbn [bind].
    destruct (IH (acc + t / inject_Z H)%Q) as (g & vs & -> & Vs & Eg).
    cbn [bind]. exists g, ((t / inject_Z H)%Q :: vs).
    repeat split.
    + constructor; [|exact Vs]. unfold columnValue. rewrite Et.
      now rewrite Qplus_0_l.
    + simpl. rewrite Eg. ring.
Qed.

Lemma profileColumn_row (channelChoice : Channel) (images : list Mat)
    (H : Z) (distanceUpper pixelWidth : Q) (x : Z) :
  (0 < H)%Z -> images <> [] ->
  Forall (fun m => wf_Mat m /\ rows m = H /\ (0 <= x < cols m)%Z) images ->
  exists row,
    profileColumn channelChoice images H distanceUpper pixelWidth x
    = Some row /\
    rowOf channelChoice images H distanceUpper pixelWidth x row.
Proof.
  intros PH NE All. unfold profileColumn.
  destruct (overImages_values channelChoice H x images PH All 0%Q)
    as (g & vs & -> & Vs & Eg).
  cbn [bind fst snd]. rewrite fdiv_some.
  - cbn [bind]. eexists. split; [reflexivity|].
    repeat split; simpl; [exact Vs|]. rewrite Eg. now rewrite Qplus_0_l.
  - apply inject_Z_nonzero. destruct images; [now elim NE | simpl; lia].
Qed.

Lemma mapM_Forall2 {A B : Type} (f : A -> option B) (P : A -> B -> Prop)
    (xs : list A) :
  Forall (fun x => exists b, f x = Some b /\ P x b) xs ->
  exists bs, mapM f xs = Some bs /\ Forall2 P xs bs.
Proof.
  induction 1 as [|x rest (b & Fx & Pb) _ (bs & Fr & Ps)]; simpl.
  - exists []. now split.
  - rewrite Fx, Fr. cbn [bind]. exists (b :: bs). split; [reflexivity|].
    now constructor.
Qed.

Lemma range_spec (n x : Z) : In x (range n) <-> (0 <= x < n)%Z.
Proof.
  unfold range. rewrite in_map_iff. split.
  - intros (i & <- & I%in_seq). lia.
  - intros B. exists (Z.to_nat x). split; [lia|]. apply in_seq. lia.
Qed.

Lemma range_nth (n x : Z) :
  (0 <= x < n)%Z -> nth_error (range n) (Z.to_nat x) = Some x.
Proof.
  intros B. unfold range. rewrite nth_error_map, nth_error_seq.
  replace (Z.to_nat x <? Z.to_nat n)%nat with true
    by (symmetry; apply Nat.ltb_lt; lia).
  simpl. f_equal. lia.
Qed.

Lemma range_length (n : Z) : length (range n) = Z.to_nat n.
Proof. unfold range. now rewrite length_map, length_seq. Qed.

Lemma Forall2_nth {A B : Type} (P : A -> B -> Prop) (l : list A)
    (l' : list B) :
  Forall2 P l l' ->
  forall i a, nth_error l i = Some a ->
              exists b, nth_error l' i = Some b /\ P a b.
Proof.
  induction 1 as [|a0 b0 l l' P0 _ IH]; intros [|i] a; simpl;
    try discriminate.
  - intros [= <-]. now exists b0.
  - apply IH.
Qed.

(** The profile of an aligned group: it is defined, and has one row per
    column. *)
Lemma profile_rows (channelChoice : Channel) (images : list Mat) (W H : Z)
    (distanceUpper distanceLower : Q) :
  aligned images W H ->
  exists body,
    profile channelChoice images distanceUpper distanceLower = Some body /\
    Forall2 (rowOf channelChoice images H distanceUpper
               ((distanceUpper - distanceLower) / inject_Z W)%Q)
            (range W) body.
Proof.
  intros (PW & PH & L3 & All). unfold profile.
  destruct images as [|image0 rest]; [discriminate|].
  cbn [nth_error bind].
  inversion All as [|? ? (Wf0 & C0 & R0) _]; subst.
  rewrite fdiv_some by (apply inject_Z_nonzero; lia). cbn [bind].
  apply mapM_Forall2. apply Forall_forall. intros x Bx%range_spec.
  apply profileColumn_row; [exact PH | discriminate |].
  eapply Forall_impl; [|exact All]. intros m (Wf & Cm & Rm).
  split; [exact Wf | split; [exact Rm | lia]].
Qed.

End Profiler.

(** ** Run Orchestrator *)

Module Orchestrator.

(** *** Views of a list of events *)

Lemma processingOrder_app (a b : list Event) :
  processingOrder (a ++ b) = (processingOrder a ++ processingOrder b)%list.
Proof.
  induction a as [|e a IH]; simpl; [reflexivity|].
  destruct e as [| [] | | | |]; simpl; now rewrite IH.
Qed.

Lemma artifacts_app (a b : list Event) :
  artifacts (a ++ b) = (artifacts a ++ artifacts b)%list.
Proof. apply filter_app. Qed.

Lemma savedImages_app (a b : list Event) :
  savedImages (a ++ b) = (savedImages a ++ savedImages b)%list.
Proof.
  induction a as [|e a IH]; simpl; [reflexivity|].
  destruct e; simpl; now rewrite IH.
Qed.

Lemma csvOutputs_app (show : Q -> string) (a b : list Event) :
  csvOutputs show (a ++ b) = (csvOutputs show a ++ csvOutputs show b)%list.
Proof.
  induction a as [|e a IH]; simpl; [reflexivity|].
  destruct e; simpl; now rewrite IH.
Qed.

(** *** The loader *)

Section Loader.

Variables (w : World) (folderPath identifier : string).
Variables (rpm blurRadius : Z).

Let load (filenames : list string) :=
  loadImages w filenames folderPath rpm identifier blurRadius.

(** The loader keeps, in the order of the listing, the selected files
    that decode. *)
Lemma loadImages_kept (filenames : list string) :
  snd (fst (load filenames))
  = filter (loads w folderPath identifier rpm) filenames /\
  fst (fst (load filenames))
  = map (loadedImage w folderPath blurRadius)
        (filter (loads w folderPath identifier rpm) filenames).
Proof.
  unfold load. induction filenames as [|f rest [IHn IHi]];
    [now split|].
  cbn [loadImages filter].
  destruct (loadImages w rest folderPath rpm identifier blurRadius)
    as [[images names] log].
  cbn [fst snd] in IHn, IHi.
  assert (L : loads w folderPath identifier rpm f
              = Str.found (Str.find f (identifier ++ "_"
                                         ++ Str.to_string rpm ++ "_R"))
                && negb (empty (imread w (folderPath ++ "/" ++ f))))
    by reflexivity.
  rewrite L. destruct (Str.found _); cbn [andb]; [|now split].
  destruct (empty (imread w (folderPath ++ "/" ++ f))) eqn:E;
    cbn [negb fst snd map]; [now split|].
  split; [now rewrite IHn | now rewrite IHi].
Qed.

(** It calls [imread] for exactly the selected files. *)
Lemma loadImages_attempted (filenames : list string) :
  attempted (snd (load filenames))
  = filter (selected identifier rpm) filenames.
Proof.
  unfold load. induction filenames as [|f rest IH]; [reflexivity|].
  cbn [loadImages filter].
  destruct (loadImages w rest folderPath rpm identifier blurRadius)
    as [[images names] log].
  cbn [snd] in IH. unfold selected at 1.
  destruct (Str.found _); [|exact IH].
  destruct (empty _); cbn [snd attempted]; now rewrite IH.
Qed.

(** Its messages name every selected file that does not decode. *)
Lemma loadImages_failures (filenames : list string) (f : string) :
  In (Cerr (CouldNotLoad f)) (snd (load filenames)) <->
  In f filenames /\ selected identifier rpm f = true /\
  empty (imread w (folderPath ++ "/" ++ f)) = true.
Proof.
  unfold load. induction filenames as [|g rest IH].
  - simpl. tauto.
  - cbn [loadImages].
    destruct (loadImages w rest folderPath rpm identifier blurRadius)
      as [[images names] log].
    cbn [snd] in IH. fold (selected identifier rpm g).
    destruct (selected identifier rpm g) eqn:S.
    + destruct (empty (imread w (folderPath ++ "/" ++ g))) eqn:E;
        cbn [snd]; simpl In; rewrite IH; split.
      * intros [[=]|[[= <-]|(I & S' & E')]]; [now repeat split; [left|..]|].
        now repeat split; [right|..].
      * intros ([<-|I] & S' & E'); [right; now left|].
        right. right. now repeat split.
      * intros [[=]|[[=]|(I & S' & E')]]. now repeat split; [right|..].
      * intros ([<-|I] & S' & E'); [congruence|].
        right. right. now repeat split.
    + cbn [snd]. rewrite IH. split.
      * intros (I & S' & E'). now repeat split; [right|..].
      * intros ([<-|I] & S' & E'); [congruence | now repeat split].
Qed.

(** It leaves nothing in the output folder and starts no group. *)
Lemma loadImages_quiet (filenames : list string) :
  artifacts (snd (load filenames)) = [] /\
  processingOrder (snd (load filenames)) = [] /\
  savedImages (snd (load filenames)) = [] /\
  forall show, csvOutputs show (snd (load filenames)) = [].
Proof.
  unfold load. induction filenames as [|f rest (IHa & IHp & IHs & IHc)];
    [now repeat split|].
  cbn [loadImages].
  destruct (loadImages w rest folderPath rpm identifier blurRadius)
    as [[images names] log].
  cbn [snd] in *. destruct (Str.found _); [|now repeat split].
  destruct (empty _); cbn [snd]; now repeat split.
Qed.

(** The images that it keeps are well formed and not empty. *)
Lemma loadImages_wf (filenames : list string) :
  World_ok w ->
  Forall (fun m => wf_Mat m /\ 0 < rows m /\ 0 < cols m)
         (fst (fst (load filenames))).
Proof.
  intros [Read Blur]. destruct (loadImages_kept filenames) as [_ ->].
  apply Forall_map, Forall_forall. intros f [_ L]%filter_In.
  unfold loads in L. apply andb_prop in L as [_ NE].
  unfold loadedImage.
  set (image := imread w (folderPath ++ "/" ++ f)) in *.
  assert (wf_Mat image /\ 0 < rows image /\ 0 < cols image) as (Wf & R & C).
  { pose proof (Read (folderPath ++ "/" ++ f)) as Wf. fold image in Wf.
    split; [exact Wf|]. destruct Wf as (Br & Bc & _).
    unfold empty in NE. apply negb_true_iff, orb_false_elim in NE.
    destruct NE as [R%Z.eqb_neq C%Z.eqb_neq]. lia. }
  destruct (blurRadius >? 0); [|exact (conj Wf (conj R C))].
  destruct (Blur image (2 * blurRadius + 1) Wf) as (Wf' & -> & ->).
  exact (conj Wf' (conj R C)).
Qed.

End Loader.

(** *** One group *)

Section Group.

Variables (w : World) (filenames : list string).
Variables (folderPath outputFolder identifier : string) (rpm : Z).
Variables (distanceUpper distanceLower : Q).
Variables (channelChoice : Channel) (blurRadius : Z).

Let loaded := loadImages w filenames folderPath rpm identifier blurRadius.
Let group := alignImageHeights (alignImageWidths (fst (fst loaded))).
Let alignedImagesPath := outputFolder ++ "/aligned_images".
Let csvFilePath :=
  outputFolder ++ "/" ++ identifier ++ "_" ++ Str.to_string rpm ++ "_"
    ++ channelLetter channelChoice ++ "ness.csv".
Let start := (Cout (ProcessingRPM rpm) :: snd loaded)%list.
Let saved :=
  (CreateDirectories alignedImagesPath
     :: saveImages w alignedImagesPath identifier rpm group 0
     ++ reportDimensions group 0)%list.
Let process :=
  processRPMImages w filenames folderPath rpm outputFolder identifier
    distanceUpper distanceLower channelChoice blurRadius.

(** [processRPMImages] with the result of the loader named. *)
Lemma process_unfold :
  process
  = if negb (length (fst (fst loaded)) =? 3)%nat
    then Some (start
                 ++ [Cerr (UnexpectedNumber rpm (length (fst (fst loaded))))])%list
    else if negb (ofstream_open w csvFilePath)
    then Some (start ++ saved ++ [Cerr (CouldNotCreateCsv csvFilePath)])%list
    else
      body <- profile channelChoice group distanceUpper distanceLower ;;
      Some (start ++ saved
              ++ [Cout (WritingCsv csvFilePath);
                  CsvFile csvFilePath (csvHeader channelChoice) body;
                  Cout (ProcessedRPM rpm csvFilePath)])%list.
Proof.
  unfold process, processRPMImages, start, saved, group, csvFilePath,
    alignedImagesPath, loaded.
  now destruct (loadImages w filenames folderPath rpm identifier blurRadius)
    as [[images names] log].
Qed.

Lemma saveImages_views (dir : string) (images : list Mat) :
  forall i,
    processingOrder (saveImages w dir identifier rpm images i) = [] /\
    (forall show,
       csvOutputs show (saveImages w dir identifier rpm images i) = []) /\
    savedImages (saveImages w dir identifier rpm images i)
    = map (fun jm => (alignedFilename dir identifier rpm (fst jm) (snd jm),
                      snd jm))
          (numbered images i).
Proof.
  induction images as [|image rest IH]; intros i; [now repeat split|].
  destruct (IH (i + 1)) as (IHp & IHc & IHs).
  cbn [saveImages numbered map fst snd].
  destruct (imwrite w _ image); cbn; rewrite ?IHp, ?IHs;
    repeat split; try reflexivity; intros show; now rewrite IHc.
Qed.

Lemma reportDimensions_views (images : list Mat) :
  forall i,
    processingOrder (reportDimensions images i) = [] /\
    artifacts (reportDimensions images i) = [] /\
    savedImages (reportDimensions images i) = [] /\
    (forall show, csvOutputs show (reportDimensions images i) = []).
Proof.
  induction images as [|image rest IH]; intros i; [now repeat split|].
  destruct (IH (i + 1)) as (IHp & IHa & IHs & IHc).
  cbn. now repeat split.
Qed.

Lemma start_views :
  processingOrder start = [rpm] /\ artifacts start = [] /\
  savedImages start = [] /\ (forall show, csvOutputs show start = []).
Proof.
  destruct (loadImages_quiet w folderPath identifier rpm blurRadius
              filenames) as (A & P & S & C).
  unfold start, loaded. cbn. rewrite P. now repeat split.
Qed.

Lemma saved_views :
  processingOrder saved = [] /\
  (forall show, csvOutputs show saved = []) /\
  savedImages saved
  = map (fun jm => (alignedFilename alignedImagesPath identifier rpm
                      (fst jm) (snd jm), snd jm))
        (numbered group 0).
Proof.
  destruct (saveImages_views alignedImagesPath group 0) as (P & C & S).
  destruct (reportDimensions_views group 0) as (P' & _ & S' & C').
  unfold saved. cbn.
  rewrite processingOrder_app, savedImages_app, P, P', S, S'.
  split; [reflexivity|]. split; [|apply app_nil_r].
  intros show. now rewrite csvOutputs_app, C, C'.
Qed.

(** Every group that is started is started once. *)
Lemma process_order (evs : list Event) :
  process = Some evs -> processingOrder evs = [rpm].
Proof.
  rewrite process_unfold.
  destruct start_views as (Ps & _). destruct saved_views as (Pv & _).
  clearbody start saved.
  destruct (negb (length (fst (fst loaded)) =? 3)%nat).
  - intros [= <-]. now rewrite processingOrder_app, Ps.
  - destruct (negb (ofstream_open w csvFilePath)).
    + intros [= <-]. now rewrite !processingOrder_app, Ps, Pv.
    + destruct (profile _ _ _ _) as [body|]; [|discriminate].
      intros [= <-]. now rewrite !processingOrder_app, Ps, Pv.
Qed.

(** A group without its three images is reported and left alone. *)
Lemma process_skip :
  length (fst (fst loaded)) <> 3%nat ->
  process
  = Some (start
            ++ [Cerr (UnexpectedNumber rpm (length (fst (fst loaded))))])%list.
Proof.
  intros N. rewrite process_unfold.
  now destruct (Nat.eqb_spec (length (fst (fst loaded))) 3).
Qed.

End Group.

(** Three loaded images, once aligned, are an aligned group: each is the
    crop of its source to the least width and the least height. *)
Lemma align_aligned (images : list Mat) :
  length images = 3%nat ->
  Forall (fun m => wf_Mat m /\ 0 < rows m /\ 0 < cols m) images ->
  exists W H,
    is_min W (map cols images) /\ is_min H (map rows images) /\
    alignImageHeights (alignImageWidths images) = map (crop W H) images /\
    aligned (map (crop W H) images) W H.
Proof.
  intros L3 All.
  assert (Wf : Forall wf_Mat images)
    by (eapply Forall_impl; [|exact All]; now intros m (Wf & _)).
  assert (NE : images <> []) by (destruct images; [discriminate | easy]).
  assert (MinW : is_min (min_cols images) (map cols images)).
  { rewrite Aligner.min_cols_least. apply Aligner.least_is_min; [exact NE|].
    eapply Forall_impl; [|exact Wf]. intros m (_ & B & _). lia. }
  assert (MinH : is_min (min_rows images) (map rows images)).
  { rewrite Aligner.min_rows_least. apply Aligner.least_is_min; [exact NE|].
    eapply Forall_impl; [|exact Wf]. intros m (B & _). lia. }
  exists (min_cols images), (min_rows images).
  split; [exact MinW|]. split; [exact MinH|].
  split; [now apply Aligner.align_crop|].
  destruct MinW as [InW LeW], MinH as [InH LeH].
  rewrite Forall_map in LeW, LeH. rewrite Forall_forall in *.
  apply in_map_iff in InW as (mw & Ew & Iw).
  apply in_map_iff in InH as (mh & Eh & Ih).
  pose proof (All mw Iw) as (_ & _ & Pw). pose proof (All mh Ih) as (_ & Ph & _).
  unfold aligned. rewrite length_map.
  split; [lia|]. split; [lia|]. split; [exact L3|].
  apply Forall_map, Forall_forall. intros m I.
  split; [|now split].
  specialize (LeW m I). specialize (LeH m I).
  apply Aligner.crop_wf; [now apply Wf | lia | lia].
Qed.

(** *** One group, with collaborators that keep their contracts *)

Section GroupTotal.

Variables (w : World) (filenames : list string).
Variables (folderPath outputFolder identifier : string) (rpm : Z).
Variables (distanceUpper distanceLower : Q).
Variables (channelChoice : Channel) (blurRadius : Z).
Hypothesis Ok : World_ok w.

Let images :=
  fst (fst (loadImages w filenames folderPath rpm identifier blurRadius)).

(** The profile of a loaded group is defined. *)
Lemma group_profile :
  length images = 3%nat ->
  exists W H body,
    is_min W (map cols images) /\ is_min H (map rows images) /\
    alignImageHeights (alignImageWidths images) = map (crop W H) images /\
    aligned (map (crop W H) images) W H /\
    profile channelChoice (map (crop W H) images)
      distanceUpper distanceLower = Some body /\
    Forall2 (rowOf channelChoice (map (crop W H) images) H
               distanceUpper
               ((distanceUpper - distanceLower) / inject_Z W)%Q)
            (range W) body.
Proof.
  intros L3.
  destruct (align_aligned images L3) as (W & H & MinW & MinH & E & Al).
  { apply loadImages_wf, Ok. }
  destruct (Profiler.profile_rows channelChoice _ W H distanceUpper
              distanceLower Al) as (body & P & Rows).
  now exists W, H, body.
Qed.

(** [processRPMImages] never reads outside an image and never divides
    by zero. *)
Lemma process_total :
  exists evs,
    processRPMImages w filenames folderPath rpm outputFolder identifier
      distanceUpper distanceLower channelChoice blurRadius = Some evs.
Proof.
  pose proof (process_unfold w filenames folderPath outputFolder identifier
                rpm distanceUpper distanceLower channelChoice blurRadius)
    as E.
  cbv zeta in E. rewrite E. fold images.
  destruct (Nat.eqb_spec (length images) 3) as [L3|N]; cbn [negb];
    [|eexists; reflexivity].
  destruct (negb (ofstream_open w _)); [eexists; reflexivity|].
  destruct (group_profile L3) as (W & H & body & _ & _ & -> & _ & -> & _).
  cbn [bind]. eexists; reflexivity.
Qed.

End GroupTotal.

(** *** All groups *)

Section Groups.

Variables (w : World) (cfg : Config) (filenames : list string).

Lemma processAll_app (a b : list Z) :
  processAll w cfg filenames (a ++ b)
  = ea <- processAll w cfg filenames a ;;
    eb <- processAll w cfg filenames b ;;
    Some (ea ++ eb)%list.
Proof.
  induction a as [|k a IH]; cbn [processAll app].
  - destruct (processAll w cfg filenames b); reflexivity.
  - destruct (processRPMImages _ _ _ _ _ _ _ _ _ _) as [ek|];
      [|reflexivity].
    cbn [bind]. rewrite IH.
    destruct (processAll w cfg filenames a) as [ea|]; [|reflexivity].
    cbn [bind].
    destruct (processAll w cfg filenames b) as [eb|]; [|reflexivity].
    cbn [bind]. now rewrite app_assoc.
Qed.

(** The groups are started in the order of the keys. *)
Lemma processAll_order (keys : list Z) :
  forall evs,
    processAll w cfg filenames keys = Some evs ->
    processingOrder evs = keys.
Proof.
  induction keys as [|k rest IH]; cbn [processAll]; intros evs.
  - now intros [= <-].
  - destruct (processRPMImages _ _ _ _ _ _ _ _ _ _) as [ek|] eqn:Pk;
      [|discriminate].
    cbn [bind].
    destruct (processAll w cfg filenames rest) as [er|]; [|discriminate].
    intros [= <-]. rewrite processingOrder_app.
    rewrite (process_order _ _ _ _ _ _ _ _ _ _ _ Pk), (IH er eq_refl).
    reflexivity.
Qed.

Lemma processAll_total (keys : list Z) :
  World_ok w -> exists evs, processAll w cfg filenames keys = Some evs.
Proof.
  intros Ok. induction keys as [|k rest (er & IH)]; cbn [processAll].
  - now exists [].
  - destruct (process_total w filenames (cfg_folderPath cfg)
                (cfg_outputFolder cfg) (cfg_identifier cfg) k
                (cfg_distanceUpper cfg) (cfg_distanceLower cfg)
                (cfg_channelChoice cfg) (cfg_blurRadius cfg) Ok)
      as (ek & ->).
    rewrite IH. cbn [bind]. eexists; reflexivity.
Qed.

End Groups.

(** *** Two runs on the same inputs *)

Section TwoWorlds.

Variables (w1 w2 : World) (show : Q -> string).
Hypothesis Same : same_inputs w1 w2.

Lemma loadImages_same (filenames : list string) (folderPath : string)
    (rpm : Z) (identifier : string) (blurRadius : Z) :
  loadImages w1 filenames folderPath rpm identifier blurRadius
  = loadImages w2 filenames folderPath rpm identifier blurRadius.
Proof.
  destruct Same as (_ & Read & Blur & _).
  induction filenames as [|f rest IH]; [reflexivity|].
  cbn [loadImages]. now rewrite IH, Read, Blur.
Qed.

(** The CSV file of a group does not depend on the clock or on the
    fate of the aligned images. *)
Lemma process_csv_same (filenames : list string)
    (folderPath : string) (rpm : Z) (outputFolder identifier : string)
    (distanceUpper distanceLower : Q) (channelChoice : Channel)
    (blurRadius : Z) :
  option_map (csvOutputs show)
    (processRPMImages w1 filenames folderPath rpm outputFolder identifier
       distanceUpper distanceLower channelChoice blurRadius)
  = option_map (csvOutputs show)
      (processRPMImages w2 filenames folderPath rpm outputFolder identifier
         distanceUpper distanceLower channelChoice blurRadius).
Proof.
  pose proof (process_unfold w1 filenames folderPath outputFolder
                identifier rpm distanceUpper distanceLower channelChoice
                blurRadius) as E1.
  pose proof (process_unfold w2 filenames folderPath outputFolder
                identifier rpm distanceUpper distanceLower channelChoice
                blurRadius) as E2.
  cbv zeta in E1, E2. rewrite E1, E2. clear E1 E2.
  destruct (start_views w1 filenames folderPath identifier rpm blurRadius)
    as (_ & _ & _ & C1).
  destruct (start_views w2 filenames folderPath identifier rpm blurRadius)
    as (_ & _ & _ & C2).
  destruct (saved_views w1 filenames folderPath outputFolder identifier
              rpm blurRadius) as (_ & S1 & _).
  destruct (saved_views w2 filenames folderPath outputFolder identifier
              rpm blurRadius) as (_ & S2 & _).
  cbv zeta in C1, C2, S1, S2.
  rewrite <- (loadImages_same filenames folderPath rpm identifier
                blurRadius) in *.
  destruct Same as (_ & _ & _ & Open). rewrite <- Open.
  destruct (negb (_ =? 3)%nat); [reflexivity|].
  destruct (negb (ofstream_open w1 _)); cbn [option_map].
  - now rewrite !csvOutputs_app, C1, S1, S2.
  - destruct (profile _ _ _ _) as [body|]; [|reflexivity].
    cbn [bind option_map]. now rewrite !csvOutputs_app, C1, S1, S2.
Qed.

Lemma processAll_csv_same (cfg : Config) (filenames : list string)
    (keys : list Z) :
  option_map (csvOutputs show) (processAll w1 cfg filenames keys)
  = option_map (csvOutputs show) (processAll w2 cfg filenames keys).
Proof.
  induction keys as [|k rest IH]; [reflexivity|]. cbn [processAll].
  pose proof (process_csv_same filenames (cfg_folderPath cfg) k
                (cfg_outputFolder cfg) (cfg_identifier cfg)
                (cfg_distanceUpper cfg) (cfg_distanceLower cfg)
                (cfg_channelChoice cfg) (cfg_blurRadius cfg)) as Ek.
  destruct (processRPMImages w1 _ _ _ _ _ _ _ _ _) as [e1|];
    destruct (processRPMImages w2 _ _ _ _ _ _ _ _ _) as [e2|];
    try discriminate; [|reflexivity].
  cbn [bind].
  destruct (processAll w1 cfg filenames rest) as [r1|];
    destruct (processAll w2 cfg filenames rest) as [r2|];
    try discriminate; [|reflexivity].
  cbn [bind option_map] in *. rewrite !csvOutputs_app. congruence.
Qed.

End TwoWorlds.

End Orchestrator.

(** ** Means *)

Module Means.

Local Open Scope Q_scope.





End Means.

(* ================================================================= *)
(** ** Channel Profiler, with the arithmetic of the machine *)

Module MachineFacts.

Import SpecFloat.

Lemma pixel_inside (image : Machine.Mat) (y x : nat)
    (row : list Machine.Vec3f) (p : Machine.Vec3f) :
  (y < Z.to_nat (Machine.rows image))%nat ->
  (x < Z.to_nat (Machine.cols image))%nat ->
  nth_error (Machine.data image) y = Some row -> nth_error row x = Some p ->
  Machine.at_ image (Z.of_nat y) (Z.of_nat x) = Some p.
Proof.
  intros By Bx Ry Px. unfold Machine.at_.
  replace ((0 <=? Z.of_nat y) && (Z.of_nat y <? Machine.rows image)
           && (0 <=? Z.of_nat x) && (Z.of_nat x <? Machine.cols image))
    with true
    by (symmetry; rewrite !andb_true_iff; repeat split; lia).
  rewrite !Nat2Z.id, Ry. exact Px.
Qed.

Lemma rows_of_column (image : Machine.Mat) (x : nat)
    (l : list (list Machine.Vec3f)) :
  (x < Z.to_nat (Machine.cols image))%nat ->
  Forall (fun row => length row = Z.to_nat (Machine.cols image)) l ->
  forall k,
    (k + length l <= Z.to_nat (Machine.rows image))%nat ->
    (forall j, (j < length l)%nat ->
               nth_error l j = nth_error (Machine.data image) (k + j)) ->
    Forall2 (fun y p => Machine.at_ image y (Z.of_nat x) = Some p)
            (map Z.of_nat (seq k (length l)))
            (flat_map (fun row => match nth_error row x with
                                  | Some p => [p]
                                  | None => []
                                  end) l).
Proof.
  intros Bx. induction 1 as [|row rest Lrow _ IH]; intros k Bk Same; simpl.
  - constructor.
  - destruct (nth_error row x) as [p|] eqn:Px.
    + simpl. constructor.
      * apply (pixel_inside image k x row p);
          [simpl in Bk; lia | exact Bx | | exact Px].
        specialize (Same 0%nat). rewrite Nat.add_0_r in Same.
        rewrite <- Same; [reflexivity | simpl; lia].
      * apply IH; [simpl in Bk; lia|]. intros j Bj.
        specialize (Same (S j)). rewrite Nat.add_succ_r in Same.
        cbn [Nat.add]. rewrite <- Same; [reflexivity | simpl; lia].
    + apply nth_error_None in Px. lia.
Qed.

(** The rows of column [x], read through [at], are its pixels. *)
Lemma column_is_read (image : Machine.Mat) (x : Z) :
  Machine.wf_Mat image -> 0 <= x < Machine.cols image ->
  Forall2 (fun y p => Machine.at_ image y x = Some p)
          (range (Machine.rows image)) (Machine.column image x).
Proof.
  intros (Br & Bc & Lr & Lc) Bx. unfold range, Machine.column.
  assert (Bn : (Z.to_nat x < Z.to_nat (Machine.cols image))%nat) by lia.
  pose proof (rows_of_column image (Z.to_nat x) (Machine.data image) Bn Lc 0%nat)
    as F.
  rewrite Z2Nat.id, Lr in F by lia. apply F; [lia | reflexivity].
Qed.

Lemma column_height (image : Machine.Mat) (x : Z) :
  Machine.wf_Mat image -> 0 <= x < Machine.cols image ->
  length (Machine.column image x) = Z.to_nat (Machine.rows image).
Proof.
  intros Wf Bx. pose proof (column_is_read image x Wf Bx) as F.
  apply Forall2_length in F. rewrite <- F. apply Profiler.range_length.
Qed.

(** The loop over the rows adds the ratios of the pixels, top to bottom,
    to what it starts with. *)
Lemma sumColumn_adds (channelChoice : Channel) (image : Machine.Mat)
    (x : Z) (ys : list Z) (ps : list Machine.Vec3f) :
  Forall2 (fun y p => Machine.at_ image y x = Some p) ys ps ->
  forall acc,
    Machine.sumColumn channelChoice image x ys acc
    = Some (fold_left Machine.dadd
              (map (fun p => Machine.to_double
                               (Machine.pixelRatio channelChoice p)) ps)
              acc).
Proof.
  induction 1 as [|y p ys ps At _ IH]; intros acc; cbn [Machine.sumColumn].
  - reflexivity.
  - rewrite At. cbn [bind]. now rewrite IH.
Qed.

(** The value written for one image at column [x]. *)
Lemma sumColumn_mean (channelChoice : Channel) (image : Machine.Mat)
    (x : Z) :
  Machine.wf_Mat image -> 0 <= x < Machine.cols image ->
  exists t,
    Machine.sumColumn channelChoice image x (range (Machine.rows image))
      Machine.zero = Some t /\
    Machine.ddiv t (Machine.of_int (Machine.rows image))
    = Machine.mean
        (map (fun p => Machine.to_double (Machine.pixelRatio channelChoice p))
             (Machine.column image x)).
Proof.
  intros Wf Bx. eexists. split.
  - apply sumColumn_adds, column_is_read; assumption.
  - unfold Machine.mean, Machine.total.
    rewrite length_map, (column_height image x Wf Bx), Z2Nat.id;
      [reflexivity | apply Wf].
Qed.

Lemma overImages_means (channelChoice : Channel) (H x : Z)
    (images : list Machine.Mat) :
  Forall (fun m => Machine.wf_Mat m /\ Machine.rows m = H /\
                   0 <= x < Machine.cols m) images ->
  forall acc,
  exists vs,
    Machine.overImages channelChoice H x images acc
    = Some (fold_left Machine.dadd vs acc, vs) /\
    Forall2 (fun m v =>
               v = Machine.mean
                     (map (fun p => Machine.to_double
                                      (Machine.pixelRatio channelChoice p))
                          (Machine.column m x)))
            images vs.
Proof.
  induction 1 as [|m rest (Wf & Hm & Bx) _ IH]; intros acc;
    cbn [Machine.overImages].
  - exists []. split; [reflexivity | constructor].
  - destruct (sumColumn_mean channelChoice m x Wf Bx) as (t & S & M).
    rewrite Hm in S, M. rewrite S. cbn [bind].
    destruct (IH (Machine.dadd acc (Machine.ddiv t (Machine.of_int H))))
      as (vs & -> & Vs).
    cbn [bind fst snd].
    exists (Machine.ddiv t (Machine.of_int H) :: vs). split; [reflexivity|].
    constructor; [exact M | exact Vs].
Qed.

(** The profile of an aligned group: it is defined, with one row for
    each column, and the row of column [x] holds the distance, the mean
    of each image's column and the mean of these. *)
Lemma profile_holds (channelChoice : Channel) (images : list Machine.Mat)
    (W H : Z) (distanceUpper distanceLower : Machine.double) :
  Machine.aligned images W H ->
  exists body,
    Machine.profile channelChoice images distanceUpper distanceLower
    = Some body /\
    length body = Z.to_nat W /\
    forall x, 0 <= x < W ->
      exists row,
        nth_error body (Z.to_nat x) = Some row /\
        Machine.distance row
        = Machine.dsub distanceUpper
            (Machine.dmul (Machine.of_int x)
               (Machine.pixelWidth distanceUpper distanceLower W)) /\
        Forall2 (fun m v =>
                   v = Machine.mean
                         (map (fun p =>
                                 Machine.to_double
                                   (Machine.pixelRatio channelChoice p))
                              (Machine.column m x)))
                images (Machine.replicates row) /\
        Machine.average row = Machine.mean (Machine.replicates row).
Proof.
  intros (PW & PH & L3 & All). unfold Machine.profile.
  destruct images as [|image0 rest]; [discriminate|].
  cbn [nth_error bind].
  inversion All as [|? ? (Wf0 & C0 & R0) _]; subst.
  set (images := image0 :: rest) in *.
  set (step := Machine.profileColumn channelChoice images
                 (Machine.rows image0) distanceUpper _).
  assert (Rows : Forall
            (fun x => exists row,
               step x = Some row /\
               Machine.distance row
               = Machine.dsub distanceUpper
                   (Machine.dmul (Machine.of_int x)
                      (Machine.pixelWidth distanceUpper distanceLower
                         (Machine.cols image0))) /\
               Forall2 (fun m v =>
                          v = Machine.mean
                                (map (fun p =>
                                        Machine.to_double
                                          (Machine.pixelRatio channelChoice p))
                                     (Machine.column m x)))
                       images (Machine.replicates row) /\
               Machine.average row = Machine.mean (Machine.replicates row))
            (range (Machine.cols image0))).
  { apply Forall_forall. intros x Bx%Profiler.range_spec.
    unfold step, Machine.profileColumn.
    destruct (overImages_means channelChoice (Machine.rows image0) x images)
      with (acc := Machine.zero) as (vs & -> & Vs).
    - eapply Forall_impl; [|exact All]. intros m (Wf & Cm & Rm).
      split; [exact Wf | split; [exact Rm | lia]].
    - cbn [bind fst snd]. eexists. split; [reflexivity|].
      cbn [Machine.distance Machine.replicates Machine.average].
      split; [reflexivity|]. split; [exact Vs|].
      unfold Machine.mean, Machine.total.
      now rewrite <- (Forall2_length Vs). }
  destruct (Profiler.mapM_Forall2 step _ _ Rows) as (body & -> & Rb).
  exists body. split; [reflexivity|].
  split; [rewrite <- (Forall2_length Rb); apply Profiler.range_length|].
  intros x Bx.
  destruct (Profiler.Forall2_nth _ _ _ Rb (Z.to_nat x) x
              (Profiler.range_nth _ _ Bx)) as (row & N & R).
  exists row. split; [exact N | exact R].
Qed.

Lemma Forall2_map_eq {A B : Type} (f : A -> B) (l : list A) (l' : list B) :
  Forall2 (fun a b => b = f a) l l' -> l' = map f l.
Proof. induction 1 as [|a b l l' -> _ IH]; simpl; [|rewrite IH]; reflexivity. Qed.

Lemma aligned_perm (images images' : list Machine.Mat) (W H : Z) :
  Permutation images images' ->
  Machine.aligned images W H -> Machine.aligned images' W H.
Proof.
  intros Perm (PW & PH & L3 & All).
  split; [exact PW|]. split; [exact PH|]. split.
  - now rewrite <- (Permutation_length Perm).
  - rewrite Forall_forall in *. intros m I. apply All.
    now apply (Permutation_in m (Permutation_sym Perm)).
Qed.

(** Something times the [int] 0 is a zero, unless it is not finite. *)
Lemma dmul_0 (a : Machine.double) :
  Machine.finite a = true ->
  exists s, Machine.dmul (Machine.of_int 0) a = S754_zero s.
Proof. destruct a as [s|s| |s m e]; try discriminate; intros _; now eexists. Qed.

(** A finite number less a zero is that number. *)
Lemma dsub_0 (a : Machine.double) (s : bool) :
  Machine.finite a = true ->
  Machine.eqb (Machine.dsub a (S754_zero s)) a = true.
Proof.
  destruct a as [sa|sa| |sa m e]; try discriminate; intros _.
  - now destruct sa, s.
  - unfold Machine.eqb, SFeqb. cbn.
    rewrite Z.compare_refl, Pos.compare_cont_refl. now destruct sa.
Qed.

End MachineFacts.

(** * Properties of the specification *)

(** C1, amended.  In the profile of an aligned group of three images of
    width [W] and height [H], the value written for an image at column
    [x] is the arithmetic mean, as the machine computes it, of the
    per-pixel ratios of the column: the ratios ([float] quotients
    [selected / ((c2 + c1) + c0)] where that [float] sum is greater than
    0, and 0 elsewhere) are converted to [double] and added from the top
    row down, and the sum is divided by [H], the number of all the rows;
    the average of the row is the [double] sum of its three values, in
    the order of the images, divided by 3.  For a group of height 1
    whose pixels are all [(1, 1, 1)], every value and every average is
    the [float] nearest to 1/3. *)
Theorem profile_values_are_means
    (channelChoice : Channel) (images : list Machine.Mat) (W H : Z)
    (distanceUpper distanceLower : Machine.double)
    (Al : Machine.aligned images W H) :
  exists body,
    Machine.profile channelChoice images distanceUpper distanceLower
    = Some body /\
    length body = Z.to_nat W /\
    forall x, 0 <= x < W ->
      exists row,
        nth_error body (Z.to_nat x) = Some row /\
        length (Machine.replicates row) = 3%nat /\
        Forall2 (fun m v =>
                   v = Machine.mean
                         (map (fun p =>
                                 Machine.to_double
                                   (Machine.pixelRatio channelChoice p))
                              (Machine.column m x)) /\
                   length (Machine.column m x) = Z.to_nat H)
                images (Machine.replicates row) /\
        Machine.average row = Machine.mean (Machine.replicates row) /\
        (H = 1 ->
         Forall (fun m => Forall (fun p => p = Machine.white)
                                 (Machine.column m x)) images ->
         Forall (fun v => v = Machine.third) (Machine.replicates row) /\
         Machine.average row = Machine.third).
Proof.
  destruct (MachineFacts.profile_holds channelChoice images W H distanceUpper
              distanceLower Al) as (body & P & L & Rows).
  exists body. split; [exact P|]. split; [exact L|].
  intros x Bx. destruct (Rows x Bx) as (row & N & _ & Vs & Avg).
  destruct Al as (PW & PH & L3 & All).
  pose proof (Forall2_length Vs) as Lv.
  assert (Vs' : Forall2
                  (fun m v =>
                     v = Machine.mean
                           (map (fun p =>
                                   Machine.to_double
                                     (Machine.pixelRatio channelChoice p))
                                (Machine.column m x)) /\
                     length (Machine.column m x) = Z.to_nat H)
                  images (Machine.replicates row)).
  { clear - Vs All Bx. induction Vs as [|m v ms vs V _ IH]; constructor.
    - inversion All as [|? ? (Wf & C & R) _]; subst.
      split; [reflexivity|]. apply MachineFacts.column_height; [exact Wf | lia].
    - apply IH. now inversion All. }
  exists row. split; [exact N|]. split; [congruence|].
  split; [exact Vs'|]. split; [exact Avg|].
  intros H1 White.
  assert (Thirds : Forall (fun v => v = Machine.third)
                          (Machine.replicates row)).
  { clear - Vs' White H1. subst H.
    induction Vs' as [|m v ms vs (V & Lc) _ IH]; constructor.
    - inversion White as [|? ? Wm _]; subst.
      destruct (Machine.column m x) as [|p [|q ps]]; try discriminate Lc.
      apply Forall_inv in Wm. subst p.
      now destruct channelChoice; vm_compute.
    - apply IH. now inversion White. }
  split; [exact Thirds|]. rewrite Avg. rewrite L3 in Lv.
  destruct (Machine.replicates row) as [|v1 [|v2 [|v3 [|]]]];
    try discriminate Lv.
  pose proof (Forall_inv Thirds) as E1.
  pose proof (Forall_inv (Forall_inv_tail Thirds)) as E2.
  pose proof (Forall_inv (Forall_inv_tail (Forall_inv_tail Thirds))) as E3.
  cbv beta in E1, E2, E3. rewrite E1, E2, E3. now vm_compute.
Qed.


Ltac show_alignedF :=
  unfold Machine.aligned, Machine.wf_Mat; cbv - [Z.le Z.lt];
  repeat first [ split | lia | reflexivity | constructor ].

Lemma profile_values_are_means_witness :
  Machine.aligned (Cases.whiteGroupF 2) 2 1 /\
  exists body,
    Machine.profile ChG (Cases.whiteGroupF 2) (Machine.of_int 10)
      (Machine.of_int 0) = Some body /\
    length body = 2%nat /\
    exists row,
      nth_error body 1 = Some row /\
      Forall (fun v => v = Machine.third) (Machine.replicates row) /\
      Machine.average row = Machine.third.
Proof.
  assert (Al : Machine.aligned (Cases.whiteGroupF 2) 2 1) by show_alignedF.
  split; [exact Al|].
  destruct (profile_values_are_means ChG (Cases.whiteGroupF 2) 2 1
              (Machine.of_int 10) (Machine.of_int 0) Al)
    as (body & P & L & Rows).
  exists body. split; [exact P|]. split; [exact L|].
  destruct (Rows 1 ltac:(lia)) as (row & N & _ & _ & _ & Third).
  exists row. split; [exact N|]. apply Third; [reflexivity|].
  repeat constructor; reflexivity.
Defined.

(** C1 as stated fails.  For the white pixel of the claim the program
    writes the [float] nearest to 1/3, which is 11184811 / 33554432 and
    not 1/3.  For the pixel [bright], whose ratio is 1/3 as well, the
    [float] sum of the samples is infinite and the program writes 0; for
    the pixel [cancelling], whose ratio for G is 1, the [float] sum of
    the samples is 0 and the program writes 0. *)
Lemma written_values_are_not_exact_means :
  (exists row,
     Machine.profile ChG (Cases.whiteGroupF 1) (Machine.of_int 10)
       (Machine.of_int 0) = Some [row] /\
     Machine.replicates row = [Machine.third; Machine.third; Machine.third] /\
     Machine.average row = Machine.third /\
     exists q, Machine.value Machine.third = Some q /\
               (q == 11184811 # 33554432)%Q /\ ~ (q == 1 # 3)%Q) /\
  (exists row p,
     Machine.profile ChG (Cases.pixelGroup Cases.bright) (Machine.of_int 10)
       (Machine.of_int 0) = Some [row] /\
     Machine.replicates row = [Machine.zero; Machine.zero; Machine.zero] /\
     Machine.average row = Machine.zero /\
     Machine.exact Cases.bright = Some p /\ (ratio ChG p == 1 # 3)%Q) /\
  (exists row p,
     Machine.profile ChG (Cases.pixelGroup Cases.cancelling)
       (Machine.of_int 10) (Machine.of_int 0) = Some [row] /\
     Machine.replicates row = [Machine.zero; Machine.zero; Machine.zero] /\
     Machine.average row = Machine.zero /\
     Machine.exact Cases.cancelling = Some p /\ (ratio ChG p == 1)%Q).
Proof.
  split; [|split].
  - eexists. split; [vm_compute; reflexivity|].
    split; [reflexivity|]. split; [reflexivity|].
    eexists. split; [vm_compute; reflexivity|]. split; [reflexivity|].
    discriminate.
  - eexists. eexists. split; [vm_compute; reflexivity|].
    split; [reflexivity|]. split; [reflexivity|].
    split; [vm_compute; reflexivity|]. reflexivity.
  - eexists. eexists. split; [vm_compute; reflexivity|].
    split; [reflexivity|]. split; [reflexivity|].
    split; [vm_compute; reflexivity|]. reflexivity.
Qed.

(** C2, amended.  For an aligned group of width [W > 0], the distance
    written for column [x] is the [double]
    [distanceUpper - x * pixelWidth] with
    [pixelWidth = (distanceUpper - distanceLower) / W], each operation
    rounded on its own.  Column 0 gets a number equal to [distanceUpper]
    whenever [distanceUpper] and the pixel width are finite.  With the
    bounds 10 and 0 and five columns, column 0 gets 10 and column 4
    gets 2. *)
Theorem distance_of_column
    (channelChoice : Channel) (images : list Machine.Mat) (W H : Z)
    (distanceUpper distanceLower : Machine.double)
    (Al : Machine.aligned images W H) :
  exists body,
    Machine.profile channelChoice images distanceUpper distanceLower
    = Some body /\
    length body = Z.to_nat W /\
    forall x, 0 <= x < W ->
      exists row,
        nth_error body (Z.to_nat x) = Some row /\
        Machine.distance row
        = Machine.dsub distanceUpper
            (Machine.dmul (Machine.of_int x)
               (Machine.ddiv (Machine.dsub distanceUpper distanceLower)
                             (Machine.of_int W))) /\
        (x = 0 ->
         Machine.finite distanceUpper = true ->
         Machine.finite (Machine.pixelWidth distanceUpper distanceLower W)
         = true ->
         Machine.eqb (Machine.distance row) distanceUpper = true) /\
        (distanceUpper = Machine.of_int 10 ->
         distanceLower = Machine.of_int 0 -> W = 5 ->
         (x = 0 -> Machine.distance row = Machine.of_int 10) /\
         (x = 4 -> Machine.distance row = Machine.of_int 2)).
Proof.
  destruct (MachineFacts.profile_holds channelChoice images W H distanceUpper
              distanceLower Al) as (body & P & L & Rows).
  exists body. split; [exact P|]. split; [exact L|].
  intros x Bx. destruct (Rows x Bx) as (row & N & D & _).
  exists row. split; [exact N|]. split; [exact D|]. split.
  - intros -> FU FW. rewrite D.
    destruct (MachineFacts.dmul_0 _ FW) as (s & ->).
    now apply MachineFacts.dsub_0.
  - intros -> -> ->. rewrite D. split; intros ->; now vm_compute.
Qed.

Lemma distance_of_column_witness :
  Machine.aligned (Cases.whiteGroupF 5) 5 1 /\
  exists body,
    Machine.profile ChB (Cases.whiteGroupF 5) (Machine.of_int 10)
      (Machine.of_int 0) = Some body /\
    exists first last,
      nth_error body 0 = Some first /\ nth_error body 4 = Some last /\
      Machine.distance first = Machine.of_int 10 /\
      Machine.eqb (Machine.distance first) (Machine.of_int 10) = true /\
      Machine.distance last = Machine.of_int 2.
Proof.
  assert (Al : Machine.aligned (Cases.whiteGroupF 5) 5 1) by show_alignedF.
  split; [exact Al|].
  destruct (distance_of_column ChB (Cases.whiteGroupF 5) 5 1
              (Machine.of_int 10) (Machine.of_int 0) Al)
    as (body & P & _ & Rows).
  exists body. split; [exact P|].
  destruct (Rows 0 ltac:(lia)) as (first & N0 & _ & Eq0 & Ex0).
  destruct (Rows 4 ltac:(lia)) as (last & N4 & _ & _ & Ex4).
  exists first, last. split; [exact N0|]. split; [exact N4|].
  destruct (Ex0 eq_refl eq_refl eq_refl) as [V0 _].
  destruct (Ex4 eq_refl eq_refl eq_refl) as [_ V4].
  split; [now apply V0|]. split; [now apply Eq0 | now apply V4].
Defined.

(** C2 as stated fails.  With the bounds 10000000000000000 and
    9999999999999998, which are [double]s and which the prompt accepts,
    and five columns, the distances written are the upper bound three
    times and then the lower bound twice: the last column is not above
    [distanceLower].  With the largest [double] and its opposite as the
    bounds, the pixel width is infinite and column 0 gets a NaN, not
    [distanceUpper]. *)
Lemma last_distance_can_reach_the_lower_bound :
  (let distanceUpper := Machine.of_int 10000000000000000 in
   let distanceLower := Machine.of_int 9999999999999998 in
   (exists qU qL,
      Machine.value distanceUpper = Some qU /\
      Machine.value distanceLower = Some qL /\
      (qU == 10000000000000000)%Q /\ (qL == 9999999999999998)%Q /\
      readLower qU [Some qL] = Some (qL, [AskLower])) /\
   Machine.gt distanceUpper distanceLower = true /\
   exists body,
     Machine.profile ChB (Cases.whiteGroupF 5) distanceUpper distanceLower
     = Some body /\
     map Machine.distance body
     = [distanceUpper; distanceUpper; distanceUpper;
        distanceLower; distanceLower] /\
     exists last,
       nth_error body 4 = Some last /\
       Machine.distance last = distanceLower /\
       Machine.gt (Machine.distance last) distanceLower = false) /\
  (let distanceUpper := Cases.DBL_MAX in
   let distanceLower := SpecFloat.SFopp Cases.DBL_MAX in
   Machine.gt distanceUpper distanceLower = true /\
   Machine.finite distanceUpper = true /\
   Machine.finite distanceLower = true /\
   exists body first,
     Machine.profile ChB (Cases.whiteGroupF 5) distanceUpper distanceLower
     = Some body /\
     nth_error body 0 = Some first /\
     Machine.distance first = SpecFloat.S754_nan /\
     Machine.eqb (Machine.distance first) distanceUpper = false).
Proof.
  split; cbv zeta.
  - split.
    { eexists. eexists. split; [vm_compute; reflexivity|].
      split; [vm_compute; reflexivity|]. now repeat split. }
    split; [reflexivity|].
    eexists. split; [vm_compute; reflexivity|]. split; [reflexivity|].
    eexists. now repeat split.
  - split; [reflexivity|]. split; [reflexivity|]. split; [reflexivity|].
    eexists. eexists. split; [vm_compute; reflexivity|].
    now repeat split.
Qed.

(** C3.  For three images, the aligner gives three images that all have
    the least of the input widths and the least of the input heights, each
    being the top-left part of that size of its input: the same pixel at
    every row and column inside it.  Inputs of the widths 100, 120, 90 and
    the heights 50, 60, 55 give images of 90 x 50. *)
Theorem align_yields_top_left_crops
    (images : list Mat)
    (Three : length images = 3%nat)
    (Wf : Forall wf_Mat images) :
  exists W H,
    is_min W (map cols images) /\ is_min H (map rows images) /\
    length (alignImageHeights (alignImageWidths images)) = 3%nat /\
    Forall (fun m => cols m = W /\ rows m = H)
           (alignImageHeights (alignImageWidths images)) /\
    alignImageHeights (alignImageWidths images)
    = map (fun m => roi m (mkRect 0 0 W H)) images /\
    (forall i m m',
       nth_error images i = Some m ->
       nth_error (alignImageHeights (alignImageWidths images)) i = Some m' ->
       forall y x, 0 <= y < H -> 0 <= x < W -> at_ m' y x = at_ m y x) /\
    (map cols images = [100; 120; 90] -> map rows images = [50; 60; 55] ->
     W = 90 /\ H = 50).
Proof.
  assert (NE : images <> []) by (destruct images; [discriminate | easy]).
  assert (MinW : is_min (min_cols images) (map cols images)).
  { rewrite Aligner.min_cols_least. apply Aligner.least_is_min; [exact NE|].
    eapply Forall_impl; [|exact Wf]. intros m (_ & B & _). lia. }
  assert (MinH : is_min (min_rows images) (map rows images)).
  { rewrite Aligner.min_rows_least. apply Aligner.least_is_min; [exact NE|].
    eapply Forall_impl; [|exact Wf]. intros m (B & _). lia. }
  exists (min_cols images), (min_rows images).
  split; [exact MinW|]. split; [exact MinH|].
  rewrite (Aligner.align_crop images _ _ Wf MinW MinH).
  split; [now rewrite length_map|].
  split; [apply Forall_map, Forall_forall; now intros m _|].
  split; [reflexivity|]. split.
  - intros i m m' Ni. rewrite nth_error_map, Ni. intros [= <-] y x By Bx.
    apply nth_error_In in Ni.
    destruct MinW as [_ LeW], MinH as [_ LeH].
    rewrite Forall_map, Forall_forall in LeW, LeH.
    apply Aligner.crop_at; [now apply LeW | now apply LeH | exact By | exact Bx].
  - intros EW EH. split.
    + apply (Aligner.is_min_unique _ _ (map cols images) MinW).
      rewrite EW. split; [simpl; tauto | repeat constructor; lia].
    + apply (Aligner.is_min_unique _ _ (map rows images) MinH).
      rewrite EH. split; [simpl; tauto | repeat constructor; lia].
Qed.

Ltac show_wf :=
  unfold wf_Mat; cbv - [Z.le Z.lt];
  repeat first [ split | lia | reflexivity | constructor ].

Lemma align_yields_top_left_crops_witness :
  length Sample.unequalGroup = 3%nat /\ Forall wf_Mat Sample.unequalGroup /\
  Forall (fun m => cols m = 90 /\ rows m = 50)
         (alignImageHeights (alignImageWidths Sample.unequalGroup)).
Proof.
  assert (Wf : Forall wf_Mat Sample.unequalGroup)
    by (repeat constructor; show_wf).
  split; [reflexivity|]. split; [exact Wf|].
  destruct (align_yields_top_left_crops Sample.unequalGroup eq_refl Wf)
    as (W & H & _ & _ & _ & Dims & _ & _ & Ex).
  destruct (Ex eq_refl eq_refl) as [-> ->]. exact Dims.
Defined.

(** C4.  If the number of file names that contain
    [<identifier>_<key>_R] is not 3 for one of the extracted keys, [main]
    returns -1 after the message of the validator, and nothing else has
    happened: no group has been started, not even one with three files,
    and nothing has been written. *)
Theorem validation_failure_aborts_run
    (w : World) (cfg : Config) (keys : list Z) (k : Z)
    (Extracted :
       extractUniqueRPMs (directory_files w (cfg_folderPath cfg))
         (cfg_identifier cfg) = Some keys)
    (Key : In k keys)
    (Count :
       length (filter (selected (cfg_identifier cfg) k)
                      (directory_files w (cfg_folderPath cfg))) <> 3%nat) :
  (forall key f,
     selected (cfg_identifier cfg) key f = true <->
     occurs (cfg_identifier cfg ++ "_" ++ Str.to_string key ++ "_R") f) /\
  exists k',
    In k' keys /\
    length (filter (selected (cfg_identifier cfg) k')
                   (directory_files w (cfg_folderPath cfg))) <> 3%nat /\
    main w cfg
    = (Returned (-1),
       [OpenLog ("logs/" ++ cfg_identifier cfg ++ "_log_" ++ timestamp w
                   ++ ".txt");
        Cerr (NotThreeReplicates k')]) /\
    processingOrder (snd (main w cfg)) = [] /\
    attempted (snd (main w cfg)) = [] /\
    artifacts (snd (main w cfg)) = [].
Proof.
  destruct (Validator.validate_false (cfg_identifier cfg)
              (directory_files w (cfg_folderPath cfg)) keys k Key Count)
    as (k' & Key' & Count' & V).
  assert (M : main w cfg
              = (Returned (-1),
                 [OpenLog ("logs/" ++ cfg_identifier cfg ++ "_log_"
                             ++ timestamp w ++ ".txt");
                  Cerr (NotThreeReplicates k')])).
  { unfold main. rewrite Extracted, V. reflexivity. }
  split; [intros key f; apply StrFacts.found_iff|].
  exists k'. rewrite M. now repeat split.
Qed.

Lemma validation_failure_aborts_run_witness :
  extractUniqueRPMs (directory_files Sample.shortWorld "in") "W" = Some [1; 2] /\
  In 2 [1; 2] /\
  length (filter (selected "W" 2) (directory_files Sample.shortWorld "in"))
  <> 3%nat /\
  main Sample.shortWorld Sample.config
  = (Returned (-1),
     [OpenLog "logs/W_log_20240101_000000.txt"; Cerr (NotThreeReplicates 2)]).
Proof.
  assert (E : extractUniqueRPMs
                (directory_files Sample.shortWorld
                   (cfg_folderPath Sample.config))
                (cfg_identifier Sample.config) = Some [1; 2])
    by reflexivity.
  assert (I : In 2 [1; 2]) by (simpl; tauto).
  assert (C : length (filter (selected (cfg_identifier Sample.config) 2)
                        (directory_files Sample.shortWorld
                           (cfg_folderPath Sample.config))) <> 3%nat)
    by (vm_compute; discriminate).
  split; [exact E|]. split; [exact I|]. split; [exact C|].
  destruct (validation_failure_aborts_run Sample.shortWorld Sample.config
              [1; 2] 2 E I C) as (_ & k' & _ & _ & M & _).
  rewrite M. vm_compute in M. now injection M as <-.
Defined.

(** ** Whole runs *)

Module Run.

(** A run that passes the validator, with collaborators that keep their
    contracts, processes every group and returns 0. *)
Lemma main_valid (w : World) (cfg : Config) (keys : list Z)
    (errors : list Message) :
  World_ok w ->
  extractUniqueRPMs (directory_files w (cfg_folderPath cfg))
    (cfg_identifier cfg) = Some keys ->
  validateReplicates (directory_files w (cfg_folderPath cfg)) keys
    (cfg_identifier cfg) = (true, errors) ->
  exists evs,
    processAll w cfg (directory_files w (cfg_folderPath cfg)) keys = Some evs /\
    main w cfg
    = (Returned 0,
       OpenLog ("logs/" ++ cfg_identifier cfg ++ "_log_" ++ timestamp w
                  ++ ".txt") :: evs).
Proof.
  intros Ok E V.
  destruct (Orchestrator.processAll_total w cfg
              (directory_files w (cfg_folderPath cfg)) keys Ok) as (evs & P).
  exists evs. split; [exact P|]. unfold main. now rewrite E, V, P.
Qed.

(** A run that returns 0 has passed the validator and processed the
    extracted keys. *)
Lemma main_returned_0 (w : World) (cfg : Config) :
  fst (main w cfg) = Returned 0 ->
  exists keys evs,
    extractUniqueRPMs (directory_files w (cfg_folderPath cfg))
      (cfg_identifier cfg) = Some keys /\
    processAll w cfg (directory_files w (cfg_folderPath cfg)) keys = Some evs /\
    snd (main w cfg)
    = OpenLog ("logs/" ++ cfg_identifier cfg ++ "_log_" ++ timestamp w
                 ++ ".txt") :: evs.
Proof.
  unfold main.
  destruct (extractUniqueRPMs _ _) as [keys|]; [|discriminate].
  destruct (validateReplicates _ _ _) as [[|] errors]; cbn [negb];
    [|discriminate].
  destruct (processAll _ _ _ _) as [evs|] eqn:P; [|discriminate].
  intros _. exists keys, evs. split; [reflexivity|]. now split.
Qed.

End Run.

(** C5.  A group for which the loader has not kept exactly three images
    is skipped: [processRPMImages] reports the number found and returns
    before it aligns, saves or writes anything.  The run goes on: with
    that group in the list of keys the run leaves behind what it leaves
    behind without it, every group of the list is still started in its
    turn, and [main] returns 0. *)
Theorem incomplete_group_is_skipped
    (w : World) (cfg : Config) (before after : list Z) (k : Z)
    (Missing :
       length (fst (fst (loadImages w (directory_files w (cfg_folderPath cfg))
                           (cfg_folderPath cfg) k (cfg_identifier cfg)
                           (cfg_blurRadius cfg)))) <> 3%nat) :
  let filenames := directory_files w (cfg_folderPath cfg) in
  let loaded :=
    loadImages w filenames (cfg_folderPath cfg) k (cfg_identifier cfg)
      (cfg_blurRadius cfg) in
  let report :=
    (Cout (ProcessingRPM k) :: snd loaded
       ++ [Cerr (UnexpectedNumber k (length (fst (fst loaded))))])%list in
  processRPMImages w filenames (cfg_folderPath cfg) k (cfg_outputFolder cfg)
    (cfg_identifier cfg) (cfg_distanceUpper cfg) (cfg_distanceLower cfg)
    (cfg_channelChoice cfg) (cfg_blurRadius cfg) = Some report /\
  artifacts report = [] /\ savedImages report = [] /\
  (forall show, csvOutputs show report = []) /\
  option_map artifacts (processAll w cfg filenames (before ++ k :: after))
  = option_map artifacts (processAll w cfg filenames (before ++ after)) /\
  (forall show,
     option_map (csvOutputs show)
       (processAll w cfg filenames (before ++ k :: after))
     = option_map (csvOutputs show)
         (processAll w cfg filenames (before ++ after))) /\
  (World_ok w ->
   exists evs,
     processAll w cfg filenames (before ++ k :: after) = Some evs /\
     processingOrder evs = (before ++ k :: after)%list) /\
  (World_ok w ->
   forall errors,
     extractUniqueRPMs filenames (cfg_identifier cfg)
     = Some (before ++ k :: after)%list ->
     validateReplicates filenames (before ++ k :: after) (cfg_identifier cfg)
     = (true, errors) ->
     fst (main w cfg) = Returned 0 /\
     processingOrder (snd (main w cfg)) = (before ++ k :: after)%list).
Proof.
  intros filenames loaded report.
  pose proof (Orchestrator.process_skip w filenames (cfg_folderPath cfg)
                (cfg_outputFolder cfg) (cfg_identifier cfg) k
                (cfg_distanceUpper cfg) (cfg_distanceLower cfg)
                (cfg_channelChoice cfg) (cfg_blurRadius cfg)) as Skip.
  cbv zeta in Skip. specialize (Skip Missing). fold loaded in Skip.
  fold report in Skip.
  destruct (Orchestrator.start_views w filenames (cfg_folderPath cfg)
              (cfg_identifier cfg) k (cfg_blurRadius cfg))
    as (_ & A & S & C).
  cbv zeta in A, S, C. fold loaded in A, S, C.
  assert (RA : artifacts report = []).
  { unfold report. rewrite app_comm_cons, Orchestrator.artifacts_app, A.
    reflexivity. }
  assert (RS : savedImages report = []).
  { unfold report. rewrite app_comm_cons, Orchestrator.savedImages_app, S.
    reflexivity. }
  assert (RC : forall show, csvOutputs show report = []).
  { intros show. unfold report.
    rewrite app_comm_cons, Orchestrator.csvOutputs_app, C. reflexivity. }
  assert (Step : processAll w cfg filenames (k :: after)
                 = more <- processAll w cfg filenames after ;;
                   Some (report ++ more)%list).
  { cbn [processAll]. rewrite Skip. reflexivity. }
  split; [exact Skip|]. split; [exact RA|]. split; [exact RS|].
  split; [exact RC|]. split; [|split; [|split]].
  - rewrite !Orchestrator.processAll_app, Step.
    destruct (processAll w cfg filenames before) as [eb|]; [|reflexivity].
    destruct (processAll w cfg filenames after) as [ea|]; [|reflexivity].
    cbn [bind option_map]. now rewrite !Orchestrator.artifacts_app, RA.
  - intros show. rewrite !Orchestrator.processAll_app, Step.
    destruct (processAll w cfg filenames before) as [eb|]; [|reflexivity].
    destruct (processAll w cfg filenames after) as [ea|]; [|reflexivity].
    cbn [bind option_map]. now rewrite !Orchestrator.csvOutputs_app, RC.
  - intros Ok.
    destruct (Orchestrator.processAll_total w cfg filenames
                (before ++ k :: after) Ok) as (evs & P).
    exists evs. split; [exact P|].
    now apply (Orchestrator.processAll_order w cfg filenames).
  - intros Ok errors E V.
    destruct (Run.main_valid w cfg _ errors Ok E V) as (evs & P & M).
    rewrite M. split; [reflexivity|]. cbn [snd processingOrder].
    now apply (Orchestrator.processAll_order w cfg filenames).
Qed.

Lemma incomplete_group_is_skipped_witness :
  length (fst (fst (loadImages Sample.lossyWorld Sample.twoGroups "in" 1 "W" 0)))
  <> 3%nat /\
  World_ok Sample.lossyWorld /\
  fst (main Sample.lossyWorld Sample.config) = Returned 0 /\
  processingOrder (snd (main Sample.lossyWorld Sample.config)) = [1; 2] /\
  map fst (csvOutputs Sample.showFloor
             (snd (main Sample.lossyWorld Sample.config)))
  = ["out/W_2_Bness.csv"].
Proof.
  assert (Missing :
            length (fst (fst (loadImages Sample.lossyWorld
                                (directory_files Sample.lossyWorld
                                   (cfg_folderPath Sample.config))
                                (cfg_folderPath Sample.config) 1
                                (cfg_identifier Sample.config)
                                (cfg_blurRadius Sample.config)))) <> 3%nat)
    by (vm_compute; discriminate).
  assert (Ok : World_ok Sample.lossyWorld).
  { split.
    - intros path. cbn [imread Sample.lossyWorld].
      destruct (String.eqb path "in/W_1_R2.tif"); show_wf.
    - intros m ksize Wf. exact (conj Wf (conj eq_refl eq_refl)). }
  split; [exact Missing|]. split; [exact Ok|].
  destruct (incomplete_group_is_skipped Sample.lossyWorld Sample.config
              [] [2] 1 Missing) as (_ & _ & _ & _ & _ & _ & _ & Goes).
  destruct (Goes Ok [] eq_refl eq_refl) as [R Order].
  split; [exact R|]. split; [exact Order|]. reflexivity.
Defined.

(** C6, as the specification states it, fails: a file name can contain
    the pattern twice, and [std::regex_search] reports the first match
    only.  The name below contains [W_2_R1], which has the shape of the
    pattern with the key 2, yet the only key extracted is 1. *)
Lemma second_match_is_not_extracted :
  regex_literal "W" = true /\
  (exists f, In f ["W_1_R1W_2_R1"] /\ pattern_occurs "W" 2 f) /\
  extractUniqueRPMs ["W_1_R1W_2_R1"] "W" = Some [1] /\
  ~ In 2 [1].
Proof.
  split; [reflexivity|]. split; [|split].
  - exists "W_1_R1W_2_R1". split; [now left|].
    exists "2", 6%nat. split; [|reflexivity].
    exists "W_1_R1", "1", EmptyString. repeat split; discriminate.
  - reflexivity.
  - intros [E|[]]. discriminate.
Qed.

(** C6, amended.  For an identifier that the pattern takes literally and
    file names whose keys fit an [int], the classifier returns the key [k]
    if and only if, in at least one file name, the leftmost substring of
    the shape [<identifier>_<digits>_R<digits>] has digits of the value
    [k]; every key returned is the key of a substring of that shape;
    the keys come without duplicates in strictly ascending order, and a
    run that completes starts the groups in exactly that order. *)
Theorem extracted_keys_are_first_matches
    (filenames : list string) (identifier : string)
    (Literal : regex_literal identifier = true)
    (Fit : keys_fit identifier filenames = true) :
  exists keys,
    extractUniqueRPMs filenames identifier = Some keys /\
    (forall k,
       In k keys <->
       exists f ds,
         In f filenames /\ first_match identifier ds f /\ Str.decimal ds = k) /\
    (forall k,
       In k keys -> exists f, In f filenames /\ pattern_occurs identifier k f) /\
    StronglySorted Z.lt keys /\ NoDup keys /\
    (forall w cfg,
       directory_files w (cfg_folderPath cfg) = filenames ->
       cfg_identifier cfg = identifier ->
       fst (main w cfg) = Returned 0 ->
       processingOrder (snd (main w cfg)) = keys).
Proof.
  destruct (Classifier.extract_loop_total identifier filenames Fit [])
    as (keys & E).
  destruct (Classifier.extract_loop_keys identifier filenames [] keys E)
    as [Mem Sorted].
  assert (Mem' : forall k,
             In k keys <->
             exists f ds,
               In f filenames /\ first_match identifier ds f /\
               Str.decimal ds = k).
  { intros k. rewrite Mem. split.
    - intros [[]|(f & ds & I & R & D)]. exists f, ds.
      now rewrite <- Pattern.regex_search_first_match.
    - intros (f & ds & I & F & D). right. exists f, ds.
      now rewrite Pattern.regex_search_first_match. }
  assert (St : StronglySorted Z.lt keys) by (apply Sorted; constructor).
  exists keys. split; [exact E|]. split; [exact Mem'|].
  split; [|split; [exact St|split]].
  - intros k (f & ds & I & F & <-)%Mem'. exists f. split; [exact I|].
    now apply Pattern.first_match_occurs.
  - clear - St. induction St as [|k rest _ IH Lt]; constructor; [|exact IH].
    intros I. rewrite Forall_forall in Lt. specialize (Lt k I). lia.
  - intros w cfg Ef Ei R.
    destruct (Run.main_returned_0 w cfg R) as (keys' & evs & E' & P & ->).
    rewrite Ef in E', P. rewrite Ei in E'. unfold extractUniqueRPMs in E'.
    assert (keys' = keys) as -> by congruence.
    cbn [processingOrder].
    now apply (Orchestrator.processAll_order w cfg filenames).
Qed.

Lemma extracted_keys_are_first_matches_witness :
  regex_literal "W" = true /\
  keys_fit "W" ["W_30_R1.tif"; "W_5_R2.tif"; "x.txt"; "W_30_R2.tif"] = true /\
  exists keys,
    extractUniqueRPMs ["W_30_R1.tif"; "W_5_R2.tif"; "x.txt"; "W_30_R2.tif"] "W"
    = Some keys /\
    keys = [5; 30] /\ StronglySorted Z.lt keys.
Proof.
  split; [reflexivity|]. split; [reflexivity|].
  destruct (extracted_keys_are_first_matches
              ["W_30_R1.tif"; "W_5_R2.tif"; "x.txt"; "W_30_R2.tif"] "W"
              eq_refl eq_refl) as (keys & E & _ & _ & St & _).
  exists keys. split; [exact E|]. split; [|exact St].
  vm_compute in E. now injection E as <-.
Defined.



(** C8.  Two runs with the same configuration on the same inputs (the
    same listing, the same decoded and blurred images, the same success
    in creating the CSV files) end the same way and write the same CSV
    files with the same bytes, whatever the clock shows and whether or
    not the aligned images can be saved. *)
Theorem csv_output_is_deterministic
    (w1 w2 : World) (cfg : Config) (show_double : Q -> string)
    (Same : same_inputs w1 w2) :
  fst (main w1 cfg) = fst (main w2 cfg) /\
  csvOutputs show_double (snd (main w1 cfg))
  = csvOutputs show_double (snd (main w2 cfg)).
Proof.
  pose proof (Orchestrator.processAll_csv_same w1 w2 show_double Same cfg
                (directory_files w1 (cfg_folderPath cfg))) as P.
  destruct Same as (Files & _). unfold main. rewrite <- Files.
  destruct (extractUniqueRPMs _ _) as [keys|]; [|now split].
  destruct (validateReplicates _ _ _) as [[|] errors]; cbn [negb].
  - specialize (P keys).
    destruct (processAll w1 _ _ _) as [e1|];
      destruct (processAll w2 _ _ _) as [e2|]; try discriminate;
      [|now split].
    cbn [option_map] in P. injection P as P. now split.
  - split; [reflexivity|]. cbn [snd csvOutputs].
    induction errors as [|e errors IH]; [reflexivity | exact IH].
Qed.

Lemma csv_output_is_deterministic_witness :
  same_inputs (Sample.world "20240101_000000" true)
              (Sample.world "20250615_123456" false) /\
  snd (main (Sample.world "20240101_000000" true) Sample.config)
  <> snd (main (Sample.world "20250615_123456" false) Sample.config) /\
  csvOutputs Sample.showFloor
    (snd (main (Sample.world "20240101_000000" true) Sample.config))
  = csvOutputs Sample.showFloor
      (snd (main (Sample.world "20250615_123456" false) Sample.config)) /\
  length (csvOutputs Sample.showFloor
            (snd (main (Sample.world "20240101_000000" true) Sample.config)))
  = 1%nat.
Proof.
  assert (Same : same_inputs (Sample.world "20240101_000000" true)
                             (Sample.world "20250615_123456" false))
    by (repeat split).
  split; [exact Same|]. split; [vm_compute; discriminate|].
  split; [|reflexivity].
  apply (csv_output_is_deterministic _ _ Sample.config Sample.showFloor Same).
Defined.

(** C9.  The loader reads, for a key, the files that the validator
    counts for it.  In a run that has passed the validator, [imread] is
    called for exactly three files of every key, and the loader can end
    with another number of images than 3 only because one of these files
    did not decode. *)
Theorem loader_reads_what_validator_counts
    (w : World) (filenames : list string) (folderPath identifier : string)
    (keys : list Z) (k : Z) (blurRadius : Z) (errors : list Message)
    (Valid : validateReplicates filenames keys identifier = (true, errors))
    (Key : In k keys) :
  let loaded := loadImages w filenames folderPath k identifier blurRadius in
  (forall f,
     selected identifier k f = true <->
     occurs (identifier ++ "_" ++ Str.to_string k ++ "_R") f) /\
  attempted (snd loaded) = filter (selected identifier k) filenames /\
  count_replicates filenames identifier k 0
  = Z.of_nat (length (attempted (snd loaded))) /\
  length (attempted (snd loaded)) = 3%nat /\
  (length (fst (fst loaded)) <= 3)%nat /\
  (length (fst (fst loaded)) <> 3%nat ->
   exists f,
     In f (attempted (snd loaded)) /\
     empty (imread w (folderPath ++ "/" ++ f)) = true /\
     In (Cerr (CouldNotLoad f)) (snd loaded)).
Proof.
  intros loaded.
  pose proof (Orchestrator.loadImages_attempted w folderPath identifier k
                blurRadius filenames) as A.
  destruct (Orchestrator.loadImages_kept w folderPath identifier k blurRadius
              filenames) as [_ K].
  cbv beta zeta in A, K. fold loaded in A, K.
  destruct (Validator.validate_true identifier filenames keys errors Valid)
    as [_ Three].
  specialize (Three k Key).
  split; [intros f; apply StrFacts.found_iff|].
  split; [exact A|]. split.
  { rewrite Validator.count_replicates_length, A. lia. }
  split; [now rewrite A|].
  assert (Kept : forall l,
            filter (loads w folderPath identifier k) l
            = filter (fun f => negb (empty (imread w (folderPath ++ "/" ++ f))))
                     (filter (selected identifier k) l)).
  { induction l as [|f l IH]; [reflexivity|]. cbn [filter]. unfold loads at 1.
    destruct (selected identifier k f); cbn [andb filter]; [|exact IH].
    destruct (negb _); now rewrite IH. }
  rewrite K, length_map, Kept. split.
  - rewrite <- Three. apply filter_length_le.
  - intros N.
    destruct (existsb (fun f => empty (imread w (folderPath ++ "/" ++ f)))
                (filter (selected identifier k) filenames)) eqn:Ex.
    + apply existsb_exists in Ex as (f & I & E). exists f.
      rewrite A. split; [exact I|]. split; [exact E|].
      apply Orchestrator.loadImages_failures.
      apply filter_In in I as [I S]. now repeat split.
    + elim N. rewrite <- Three. f_equal.
      apply forallb_filter_id. rewrite forallb_forall. intros f I.
      apply negb_true_iff.
      destruct (empty (imread w (folderPath ++ "/" ++ f))) eqn:E;
        [|reflexivity].
      assert (existsb (fun f => empty (imread w (folderPath ++ "/" ++ f)))
                (filter (selected identifier k) filenames) = true)
        by (apply existsb_exists; now exists f).
      congruence.
Qed.

Lemma loader_reads_what_validator_counts_witness :
  validateReplicates Sample.files [1] "W" = (true, []) /\ In 1 [1] /\
  attempted (snd (loadImages Sample.brokenWorld Sample.files "in" 1 "W" 0))
  = ["W_1_R3.tif"; "W_1_R1.tif"; "W_1_R2.tif"] /\
  length (fst (fst (loadImages Sample.brokenWorld Sample.files "in" 1 "W" 0)))
  = 2%nat /\
  exists f,
    empty (imread Sample.brokenWorld ("in" ++ "/" ++ f)) = true /\
    In (Cerr (CouldNotLoad f))
       (snd (loadImages Sample.brokenWorld Sample.files "in" 1 "W" 0)).
Proof.
  assert (V : validateReplicates Sample.files [1] "W" = (true, []))
    by reflexivity.
  assert (I : In 1 [1]) by (simpl; tauto).
  split; [exact V|]. split; [exact I|].
  destruct (loader_reads_what_validator_counts Sample.brokenWorld Sample.files
              "in" "W" [1] 1 0 [] V I) as (_ & A & _ & _ & _ & Fails).
  split; [exact A|]. split; [reflexivity|].
  destruct Fails as (f & _ & E & L); [vm_compute; discriminate|].
  now exists f.
Defined.

(** C10.  The index in [R1], [R2], [R3] is the place of the image in the
    order of loading, which is the order of the listing: when the files of
    a group that load are [f1], [f2], [f3] in the listing, the aligned
    image of [f1] is saved under the name with [_R1_], that of [f2] with
    [_R2_], that of [f3] with [_R3_], and the three values of every CSV
    row are those of the images of [f1], [f2], [f3], in this order.  The
    digit after [_R] in the name of the source file plays no part. *)
Theorem replicate_index_is_load_position
    (w : World) (filenames : list string)
    (folderPath outputFolder identifier : string) (rpm : Z)
    (distanceUpper distanceLower : Q) (channelChoice : Channel)
    (blurRadius : Z)
    (Ok : World_ok w)
    (Three :
       length (filter (loads w folderPath identifier rpm) filenames) = 3%nat)
    (Open :
       ofstream_open w
         (outputFolder ++ "/" ++ identifier ++ "_" ++ Str.to_string rpm ++ "_"
            ++ channelLetter channelChoice ++ "ness.csv") = true) :
  exists f1 f2 f3 W H evs body,
    filter (loads w folderPath identifier rpm) filenames = [f1; f2; f3] /\
    let aligned_of f := crop W H (loadedImage w folderPath blurRadius f) in
    let name_of index (a : Mat) :=
      Str.replace backslash slash
        ((outputFolder ++ "/aligned_images") ++ "/" ++ identifier ++ "_"
           ++ Str.to_string rpm ++ "_R" ++ index ++ "_"
           ++ Str.to_string (cols a) ++ "x" ++ Str.to_string (rows a)
           ++ "_aligned.tif") in
    processRPMImages w filenames folderPath rpm outputFolder identifier
      distanceUpper distanceLower channelChoice blurRadius = Some evs /\
    savedImages evs
    = [(name_of "1" (aligned_of f1), aligned_of f1);
       (name_of "2" (aligned_of f2), aligned_of f2);
       (name_of "3" (aligned_of f3), aligned_of f3)] /\
    In (CsvFile
          (outputFolder ++ "/" ++ identifier ++ "_" ++ Str.to_string rpm ++ "_"
             ++ channelLetter channelChoice ++ "ness.csv")
          (csvHeader channelChoice) body) evs /\
    forall x, 0 <= x < W ->
      exists row v1 v2 v3,
        nth_error body (Z.to_nat x) = Some row /\
        replicates row = [v1; v2; v3] /\
        columnValue channelChoice H x (aligned_of f1) v1 /\
        columnValue channelChoice H x (aligned_of f2) v2 /\
        columnValue channelChoice H x (aligned_of f3) v3.
Proof.
  destruct (Orchestrator.loadImages_kept w folderPath identifier rpm blurRadius
              filenames) as [_ K].
  cbv beta zeta in K.
  assert (L3 : length (fst (fst (loadImages w filenames folderPath rpm
                                   identifier blurRadius))) = 3%nat)
    by now rewrite K, length_map.
  destruct (Orchestrator.group_profile w filenames folderPath identifier rpm
              distanceUpper distanceLower channelChoice blurRadius Ok L3)
    as (W & H & body & _ & _ & EA & Al & P & Rows).
  pose proof (Orchestrator.process_unfold w filenames folderPath outputFolder
                identifier rpm distanceUpper distanceLower channelChoice
                blurRadius) as U.
  destruct (Orchestrator.start_views w filenames folderPath identifier rpm
              blurRadius) as (_ & _ & S0 & _).
  destruct (Orchestrator.saved_views w filenames folderPath outputFolder
              identifier rpm blurRadius) as (_ & _ & S1).
  cbv zeta in U, S0, S1. rewrite L3, Open, EA, P in U. rewrite EA in S1.
  cbn [Nat.eqb negb bind] in U.
  rewrite K in *.
  destruct (filter (loads w folderPath identifier rpm) filenames)
    as [|f1 [|f2 [|f3 [|]]]]; try discriminate Three.
  exists f1, f2, f3, W, H. eexists. exists body.
  split; [reflexivity|]. cbv zeta. split; [exact U|]. split; [|split].
  - rewrite !Orchestrator.savedImages_app, S0, S1. reflexivity.
  - apply in_or_app. right. apply in_or_app. right. simpl. tauto.
  - intros x Bx.
    destruct (Profiler.Forall2_nth _ _ _ Rows (Z.to_nat x) x
                (Profiler.range_nth W x Bx)) as (row & N & _ & Vs & _).
    cbn [map] in Vs.
    inversion Vs as [|? v1 ? ? V1 Vs1 E1]; subst.
    inversion Vs1 as [|? v2 ? ? V2 Vs2 E2]; subst.
    inversion Vs2 as [|? v3 ? ? V3 Vs3 E3]; subst.
    inversion Vs3; subst.
    exists row, v1, v2, v3. now repeat split.
Qed.

Lemma replicate_index_is_load_position_witness :
  World_ok (Sample.world "20240101_000000" true) /\
  length (filter (loads (Sample.world "20240101_000000" true) "in" "W" 1)
                 Sample.files) = 3%nat /\
  ofstream_open (Sample.world "20240101_000000" true)
    ("out" ++ "/" ++ "W" ++ "_" ++ Str.to_string 1 ++ "_"
       ++ channelLetter ChB ++ "ness.csv") = true /\
  exists f1 f2 f3 evs,
    filter (loads (Sample.world "20240101_000000" true) "in" "W" 1)
           Sample.files = [f1; f2; f3] /\
    f1 = "W_1_R3.tif" /\
    processRPMImages (Sample.world "20240101_000000" true) Sample.files
      "in" 1 "out" "W" 10 0 ChB 0 = Some evs /\
    map fst (savedImages evs)
    = ["out/aligned_images/W_1_R1_2x2_aligned.tif";
       "out/aligned_images/W_1_R2_2x2_aligned.tif";
       "out/aligned_images/W_1_R3_2x2_aligned.tif"] /\
    hd_error (map snd (savedImages evs))
    = Some (crop 2 2 (imread (Sample.world "20240101_000000" true)
                        "in/W_1_R3.tif")).
Proof.
  assert (Ok : World_ok (Sample.world "20240101_000000" true)).
  { split.
    - intros path. cbn [imread Sample.world]. unfold Sample.decode.
      repeat match goal with
             | |- context [String.eqb path ?s] => destruct (String.eqb path s)
             end; show_wf.
    - intros m ksize Wf. exact (conj Wf (conj eq_refl eq_refl)). }
  split; [exact Ok|]. split; [reflexivity|]. split; [reflexivity|].
  destruct (replicate_index_is_load_position
              (Sample.world "20240101_000000" true) Sample.files
              "in" "out" "W" 1 10 0 ChB 0 Ok eq_refl eq_refl)
    as (f1 & f2 & f3 & W & H & evs & body & F & Pr & _).
  exists f1, f2, f3, evs. split; [exact F|].
  split; [vm_compute in F; now injection F as <- _ _|].
  split; [exact Pr|].
  vm_compute in Pr. injection Pr as <-. split; reflexivity.
Defined.

(* ================================================================= *)
(** * Further properties of the program *)

(** ** The aligner *)

Module AlignerMore.

(** A crop of a crop is the smaller crop. *)
Lemma crop_within (W H W' H' : Z) (m : Mat) :
  0 <= W <= W' -> 0 <= H <= H' -> crop W H (crop W' H' m) = crop W H m.
Proof.
  intros BW BH. apply Aligner.Mat_eq; try reflexivity.
  rewrite !Aligner.crop_data, firstn_map, firstn_firstn, map_map.
  rewrite Nat.min_l by lia.
  apply map_ext. intros row. rewrite firstn_firstn. now rewrite Nat.min_l by lia.
Qed.

Lemma is_min_cols (images : list Mat) :
  images <> [] -> Forall wf_Mat images ->
  is_min (min_cols images) (map cols images).
Proof.
  intros NE Wf. rewrite Aligner.min_cols_least.
  apply Aligner.least_is_min; [exact NE|].
  eapply Forall_impl; [|exact Wf]. intros m (_ & B & _). lia.
Qed.

Lemma is_min_rows (images : list Mat) :
  images <> [] -> Forall wf_Mat images ->
  is_min (min_rows images) (map rows images).
Proof.
  intros NE Wf. rewrite Aligner.min_rows_least.
  apply Aligner.least_is_min; [exact NE|].
  eapply Forall_impl; [|exact Wf]. intros m (B & _). lia.
Qed.

(** The least width and height of well-formed images are within every
    image of the group. *)
Lemma min_bounds (images : list Mat) :
  images <> [] -> Forall wf_Mat images ->
  Forall (fun m => 0 <= min_cols images <= cols m /\
                   0 <= min_rows images <= rows m) images.
Proof.
  intros NE Wf.
  destruct (is_min_cols images NE Wf) as [IW LW].
  destruct (is_min_rows images NE Wf) as [IH LH].
  rewrite Forall_map in LW, LH.
  apply in_map_iff in IW as (mw & Ew & Iw).
  apply in_map_iff in IH as (mh & Eh & Ih).
  rewrite Forall_forall in *. intros m I.
  destruct (Wf mw Iw) as (_ & Bw & _). destruct (Wf mh Ih) as (Bh & _).
  specialize (LW m I). specialize (LH m I). lia.
Qed.

(** What the aligner does to a group that is not empty. *)
Lemma align_map (images : list Mat) :
  images <> [] -> Forall wf_Mat images ->
  align images = map (crop (min_cols images) (min_rows images)) images.
Proof.
  intros NE Wf. unfold align.
  apply Aligner.align_crop; [exact Wf | now apply is_min_cols
                            | now apply is_min_rows].
Qed.

Lemma is_min_all (v : Z) (l : list Z) :
  l <> [] -> Forall (fun u => u = v) l -> is_min v l.
Proof.
  intros NE All. split.
  - destruct l as [|u l]; [now elim NE|].
    inversion All; subst. now left.
  - eapply Forall_impl; [|exact All]. intros u ->. lia.
Qed.

(** The images that the aligner returns are well formed and all of the
    least width and height. *)
Lemma align_wf (images : list Mat) :
  images <> [] -> Forall wf_Mat images ->
  Forall (fun m => wf_Mat m /\ cols m = min_cols images /\
                   rows m = min_rows images) (align images).
Proof.
  intros NE Wf. rewrite (align_map images NE Wf).
  pose proof (min_bounds images NE Wf) as B.
  apply Forall_map. rewrite Forall_forall in *. intros m I.
  destruct (B m I) as [BW BH].
  split; [|now split]. now apply Aligner.crop_wf; [apply Wf|..].
Qed.

End AlignerMore.

(** X1.  Aligning is idempotent: a group that comes out of the two
    aligners goes through them unchanged. *)
Theorem align_idempotent
    (images : list Mat)
    (Wf : Forall wf_Mat images) :
  alignImageHeights (alignImageWidths
                       (alignImageHeights (alignImageWidths images)))
  = alignImageHeights (alignImageWidths images).
Proof.
  fold (align images). fold (align (align images)).
  destruct images as [|m0 rest]; [reflexivity|].
  set (images := m0 :: rest) in *.
  assert (NE : images <> []) by discriminate.
  pose proof (AlignerMore.align_wf images NE Wf) as Out.
  pose proof (AlignerMore.min_bounds images NE Wf) as B.
  assert (NE' : align images <> []).
  { rewrite (AlignerMore.align_map images NE Wf). discriminate. }
  assert (Wf' : Forall wf_Mat (align images))
    by (eapply Forall_impl; [|exact Out]; now intros m (? & _)).
  assert (EW : min_cols (align images) = min_cols images).
  { apply (Aligner.is_min_unique _ _ (map cols (align images))).
    - now apply AlignerMore.is_min_cols.
    - apply AlignerMore.is_min_all.
      + destruct (align images); [now elim NE' | discriminate].
      + apply Forall_map. eapply Forall_impl; [|exact Out].
        now intros m (_ & C & _). }
  assert (EH : min_rows (align images) = min_rows images).
  { apply (Aligner.is_min_unique _ _ (map rows (align images))).
    - now apply AlignerMore.is_min_rows.
    - apply AlignerMore.is_min_all.
      + destruct (align images); [now elim NE' | discriminate].
      + apply Forall_map. eapply Forall_impl; [|exact Out].
        now intros m (_ & _ & R). }
  rewrite (AlignerMore.align_map (align images) NE' Wf'), EW, EH.
  rewrite (AlignerMore.align_map images NE Wf), map_map.
  apply map_ext_Forall. rewrite Forall_forall in *. intros m I.
  destruct (B m I) as [BW BH]. apply AlignerMore.crop_within; lia.
Qed.

Lemma align_idempotent_witness :
  Forall wf_Mat Cases.mixedGroup /\
  map (fun m => (cols m, rows m))
      (alignImageHeights (alignImageWidths
         (alignImageHeights (alignImageWidths Cases.mixedGroup))))
  = [(2, 2); (2, 2); (2, 2)].
Proof.
  assert (Wf : Forall wf_Mat Cases.mixedGroup) by (repeat constructor; show_wf).
  split; [exact Wf|]. rewrite (align_idempotent Cases.mixedGroup Wf).
  reflexivity.
Defined.

(** X2.  The two aligners commute: cropping the heights first and the
    widths second gives the group that [processRPMImages] computes with
    the widths first. *)
Theorem aligners_commute
    (images : list Mat)
    (Wf : Forall wf_Mat images) :
  alignImageWidths (alignImageHeights images)
  = alignImageHeights (alignImageWidths images).
Proof.
  destruct images as [|m0 rest]; [reflexivity|].
  set (images := m0 :: rest) in *.
  assert (NE : images <> []) by discriminate.
  pose proof (AlignerMore.is_min_cols images NE Wf) as MW.
  pose proof (AlignerMore.is_min_rows images NE Wf) as MH.
  pose proof (AlignerMore.min_bounds images NE Wf) as B.
  fold (align images). rewrite (AlignerMore.align_map images NE Wf).
  rewrite (Aligner.alignImageHeights_crop images _ Wf MH).
  rewrite (Aligner.alignImageWidths_crop _ (min_cols images)).
  - rewrite map_map. apply map_ext_Forall.
    rewrite Forall_forall in *. intros m I. destruct (B m I) as [BW BH].
    change (rows (crop (cols m) (min_rows images) m)) with (min_rows images).
    apply AlignerMore.crop_within; lia.
  - apply Forall_map. rewrite Forall_forall in *. intros m I.
    destruct (B m I) as [BW BH].
    apply Aligner.crop_wf; [now apply Wf | | lia].
    destruct (Wf m I) as (_ & Bc & _). lia.
  - now rewrite map_map.
Qed.

Lemma aligners_commute_witness :
  Forall wf_Mat Cases.mixedGroup /\
  alignImageWidths (alignImageHeights Cases.mixedGroup)
  = alignImageHeights (alignImageWidths Cases.mixedGroup).
Proof.
  assert (Wf : Forall wf_Mat Cases.mixedGroup) by (repeat constructor; show_wf).
  split; [exact Wf|]. exact (aligners_commute Cases.mixedGroup Wf).
Defined.

(** X3.  An image that already has the least width and the least height
    of its group comes out of the aligners as it went in; a group whose
    images all have the same size is returned unchanged. *)
Theorem smallest_image_is_untouched
    (images : list Mat)
    (Wf : Forall wf_Mat images) :
  (forall i m,
     nth_error images i = Some m ->
     cols m = min_cols images -> rows m = min_rows images ->
     nth_error (alignImageHeights (alignImageWidths images)) i = Some m) /\
  (forall W H,
     Forall (fun m => cols m = W /\ rows m = H) images ->
     alignImageHeights (alignImageWidths images) = images).
Proof.
  fold (align images).
  destruct images as [|m0 rest].
  { split; [intros [|i] m; discriminate | reflexivity]. }
  set (images := m0 :: rest) in *.
  assert (NE : images <> []) by discriminate.
  rewrite (AlignerMore.align_map images NE Wf). split.
  - intros i m N C R. rewrite nth_error_map, N. cbn [option_map].
    rewrite <- C, <- R. f_equal. apply Aligner.crop_full.
    rewrite Forall_forall in Wf. now apply Wf, (nth_error_In _ i).
  - intros W H Same.
    assert (EW : min_cols images = W).
    { apply (Aligner.is_min_unique _ _ (map cols images)).
      - now apply AlignerMore.is_min_cols.
      - apply AlignerMore.is_min_all; [discriminate|].
        apply Forall_map. eapply Forall_impl; [|exact Same].
        now intros m [C _]. }
    assert (EH : min_rows images = H).
    { apply (Aligner.is_min_unique _ _ (map rows images)).
      - now apply AlignerMore.is_min_rows.
      - apply AlignerMore.is_min_all; [discriminate|].
        apply Forall_map. eapply Forall_impl; [|exact Same].
        now intros m [_ R]. }
    rewrite EW, EH. rewrite <- (map_id images) at 2.
    apply map_ext_Forall. rewrite Forall_forall in *. intros m I.
    destruct (Same m I) as [<- <-]. now apply Aligner.crop_full, Wf.
Qed.

Lemma smallest_image_is_untouched_witness :
  Forall wf_Mat Cases.mixedGroup /\
  nth_error (alignImageHeights (alignImageWidths Cases.mixedGroup)) 2
  = Some (Sample.ramp 2 2 20).
Proof.
  assert (Wf : Forall wf_Mat Cases.mixedGroup) by (repeat constructor; show_wf).
  split; [exact Wf|].
  destruct (smallest_image_is_untouched Cases.mixedGroup Wf) as [One _].
  now apply One.
Defined.

(** X4.  The aligners keep the number of images and the invariant of
    [cv::Mat]; no image grows in either direction; and when no input is
    empty no output is. *)
Theorem align_keeps_images_sound
    (images : list Mat)
    (Wf : Forall wf_Mat images) :
  length (alignImageHeights (alignImageWidths images)) = length images /\
  Forall wf_Mat (alignImageHeights (alignImageWidths images)) /\
  Forall2 (fun m m' => cols m' <= cols m /\ rows m' <= rows m)
          images (alignImageHeights (alignImageWidths images)) /\
  (Forall (fun m => empty m = false) images ->
   Forall (fun m => empty m = false)
          (alignImageHeights (alignImageWidths images))).
Proof.
  fold (align images).
  destruct images as [|m0 rest].
  { repeat split; constructor. }
  set (images := m0 :: rest) in *.
  assert (NE : images <> []) by discriminate.
  pose proof (AlignerMore.align_wf images NE Wf) as Out.
  pose proof (AlignerMore.min_bounds images NE Wf) as B.
  pose proof (AlignerMore.is_min_cols images NE Wf) as [IW _].
  pose proof (AlignerMore.is_min_rows images NE Wf) as [IH _].
  split; [|split; [|split]].
  - rewrite (AlignerMore.align_map images NE Wf). apply length_map.
  - eapply Forall_impl; [|exact Out]. now intros m (? & _).
  - rewrite (AlignerMore.align_map images NE Wf).
    revert B. generalize (min_cols images) (min_rows images).
    clearbody images. intros W H B. clear - B.
    induction B as [|m ms [BW BH] _ IH]; cbn [map]; constructor.
    + unfold crop, roi. cbn [cols rows rect_width rect_height]. lia.
    + exact IH.
  - intros Full.
    apply in_map_iff in IW as (mw & Ew & Iw).
    apply in_map_iff in IH as (mh & Eh & Ih).
    rewrite Forall_forall in Full, Wf.
    pose proof (Full mw Iw) as Fw. pose proof (Full mh Ih) as Fh.
    destruct (Wf mw Iw) as (_ & Bw & _). destruct (Wf mh Ih) as (Bh & _).
    unfold empty in Fw, Fh.
    apply orb_false_elim in Fw as [_ Cw%Z.eqb_neq].
    apply orb_false_elim in Fh as [Rh%Z.eqb_neq _].
    eapply Forall_impl; [|exact Out]. intros m (_ & C & R).
    unfold empty. rewrite C, R.
    apply orb_false_intro; apply Z.eqb_neq; lia.
Qed.

Lemma align_keeps_images_sound_witness :
  Forall wf_Mat Cases.mixedGroup /\
  Forall wf_Mat (alignImageHeights (alignImageWidths Cases.mixedGroup)).
Proof.
  assert (Wf : Forall wf_Mat Cases.mixedGroup) by (repeat constructor; show_wf).
  split; [exact Wf|].
  now destruct (align_keeps_images_sound Cases.mixedGroup Wf) as (_ & Out & _).
Defined.

(** ** The profiler *)

(** X9.  The values of a row follow the images: the value written for an
    image at a column depends on that image alone, so that the profile
    of a permutation of an aligned group has, column by column, the same
    distance and the same three values in the permuted order.  (The
    average of the row is the sum of the three values in their order,
    and is not claimed to stay what it was.) *)
Theorem values_follow_the_images
    (channelChoice : Channel) (images images' : list Machine.Mat) (W H : Z)
    (distanceUpper distanceLower : Machine.double)
    (Al : Machine.aligned images W H)
    (Perm : Permutation images images') :
  exists body body',
    Machine.profile channelChoice images distanceUpper distanceLower
    = Some body /\
    Machine.profile channelChoice images' distanceUpper distanceLower
    = Some body' /\
    forall x, 0 <= x < W ->
      exists row row' value,
        nth_error body (Z.to_nat x) = Some row /\
        nth_error body' (Z.to_nat x) = Some row' /\
        Machine.distance row' = Machine.distance row /\
        Machine.replicates row = map value images /\
        Machine.replicates row' = map value images' /\
        Permutation (Machine.replicates row) (Machine.replicates row').
Proof.
  destruct (MachineFacts.profile_holds channelChoice images W H distanceUpper
              distanceLower Al) as (body & P & _ & Rows).
  destruct (MachineFacts.profile_holds channelChoice images' W H distanceUpper
              distanceLower (MachineFacts.aligned_perm _ _ _ _ Perm Al))
    as (body' & P' & _ & Rows').
  exists body, body'. split; [exact P|]. split; [exact P'|].
  intros x Bx.
  destruct (Rows x Bx) as (row & N & D & Vs & _).
  destruct (Rows' x Bx) as (row' & N' & D' & Vs' & _).
  apply MachineFacts.Forall2_map_eq in Vs, Vs'.
  exists row, row'. eexists.
  split; [exact N|]. split; [exact N'|]. split; [congruence|].
  split; [exact Vs|]. split; [exact Vs'|].
  rewrite Vs, Vs'. now apply Permutation_map.
Qed.

Lemma values_follow_the_images_witness :
  exists body body' row row',
    Machine.profile ChG
      [Machine.plain 1 1 Machine.white; Machine.plain 1 1 Cases.bright;
       Machine.plain 1 1 Cases.cancelling]
      (Machine.of_int 10) (Machine.of_int 0) = Some body /\
    Machine.profile ChG
      [Machine.plain 1 1 Cases.bright; Machine.plain 1 1 Cases.cancelling;
       Machine.plain 1 1 Machine.white]
      (Machine.of_int 10) (Machine.of_int 0) = Some body' /\
    nth_error body 0 = Some row /\ nth_error body' 0 = Some row' /\
    Permutation (Machine.replicates row) (Machine.replicates row').
Proof.
  assert (Al : Machine.aligned
                 [Machine.plain 1 1 Machine.white;
                  Machine.plain 1 1 Cases.bright;
                  Machine.plain 1 1 Cases.cancelling] 1 1)
    by show_alignedF.
  assert (Perm : Permutation
                   [Machine.plain 1 1 Machine.white;
                    Machine.plain 1 1 Cases.bright;
                    Machine.plain 1 1 Cases.cancelling]
                   [Machine.plain 1 1 Cases.bright;
                    Machine.plain 1 1 Cases.cancelling;
                    Machine.plain 1 1 Machine.white]).
  { apply Permutation_cons_append with (l := [_; _]). }
  destruct (values_follow_the_images ChG _ _ 1 1 (Machine.of_int 10)
              (Machine.of_int 0) Al Perm) as (body & body' & P & P' & Rows).
  destruct (Rows 0 ltac:(lia)) as (row & row' & value & N & N' & _ & _ & _ & Pm).
  exists body, body', row, row'. now repeat split.
Defined.

(** ** The classifier and the validator *)

Module ClassifierMore.

Lemma append_assoc (a b c : string) : (a ++ b) ++ c = a ++ b ++ c.
Proof. induction a as [|x a IH]; simpl; [reflexivity | now rewrite IH]. Qed.

Import StrFacts.

(** *** [std::to_string] and [std::stoi] *)

Lemma decimal_from_acc (d : Decimal.uint) (acc : positive) :
  Str.decimal_from (Z.pos acc) (NilEmpty.string_of_uint d)
  = Z.pos (Pos.of_uint_acc d acc).
Proof.
  revert acc. induction d as [|d IH|d IH|d IH|d IH|d IH|d IH|d IH|d IH|d IH|d IH];
    intros acc; cbn [NilEmpty.string_of_uint Str.decimal_from Pos.of_uint_acc];
    [reflexivity|..]; rewrite <- IH; f_equal;
    match goal with
    | |- context [Str.digit_value ?c] =>
        let v := eval vm_compute in (Str.digit_value c) in
        change (Str.digit_value c) with v
    end; lia.
Qed.

Lemma decimal_of_uint (d : Decimal.uint) :
  Str.decimal (NilEmpty.string_of_uint d) = Z.of_N (Pos.of_uint d).
Proof.
  unfold Str.decimal.
  induction d as [|d IH|d IH|d IH|d IH|d IH|d IH|d IH|d IH|d IH|d IH];
    cbn [NilEmpty.string_of_uint Str.decimal_from Pos.of_uint];
    [reflexivity | exact IH | ..]; apply decimal_from_acc.
Qed.

Lemma all_digits_of_uint (d : Decimal.uint) :
  Str.all_digits (NilEmpty.string_of_uint d) = true.
Proof.
  induction d as [|d IH|d IH|d IH|d IH|d IH|d IH|d IH|d IH|d IH|d IH];
    cbn [NilEmpty.string_of_uint Str.all_digits]; [reflexivity|..];
    rewrite IH; reflexivity.
Qed.

Lemma to_string_pos (p : positive) :
  Str.to_string (Z.pos p) = NilEmpty.string_of_uint (Pos.to_uint p).
Proof.
  unfold Str.to_string. cbn [Z.to_int NilZero.string_of_int].
  pose proof (DecimalPos.Unsigned.to_uint_nonnil p) as NN.
  unfold NilZero.string_of_uint. now destruct (Pos.to_uint p).
Qed.

(** Reading back the decimal text of a number that is not negative gives
    the number. *)
Lemma decimal_to_string (k : Z) : 0 <= k -> Str.decimal (Str.to_string k) = k.
Proof.
  intros P. destruct k as [|p|p]; [reflexivity | | lia].
  now rewrite to_string_pos, decimal_of_uint, DecimalPos.Unsigned.of_to.
Qed.

Lemma digits_to_string (k : Z) : 0 <= k -> digits (Str.to_string k).
Proof.
  intros P. destruct k as [|p|p]; [split; [discriminate | reflexivity] | | lia].
  rewrite to_string_pos. split; [|apply all_digits_of_uint].
  pose proof (DecimalPos.Unsigned.to_uint_nonnil p) as NN.
  destruct (Pos.to_uint p); [now elim NN | discriminate..].
Qed.

(** *** The search *)

Lemma regex_search_head (identifier s ds : string) :
  match_here identifier s = Some ds -> regex_search identifier s = Some ds.
Proof. intros M. destruct s; cbn [regex_search]; now rewrite M. Qed.

(** *** The loop of [extractUniqueRPMs] *)

Lemma extract_loop_none (identifier : string) (filenames : list string) :
  keys_fit identifier filenames = false ->
  forall acc, extract_loop filenames identifier acc = None.
Proof.
  induction filenames as [|f rest IH]; [discriminate|].
  cbn [keys_fit forallb extract_loop]. intros Fit acc.
  destruct (regex_search identifier f) as [ds|].
  - unfold stoi. destruct (Str.decimal ds <=? INT_MAX); [|reflexivity].
    cbn [bind]. now apply IH.
  - now apply IH.
Qed.

Lemma extract_none_iff (identifier : string) (filenames : list string) :
  extractUniqueRPMs filenames identifier = None <->
  keys_fit identifier filenames = false.
Proof.
  unfold extractUniqueRPMs. split.
  - intros E. destruct (keys_fit identifier filenames) eqn:Fit; [|reflexivity].
    destruct (Classifier.extract_loop_total identifier filenames Fit [])
      as (keys & K). congruence.
  - intros Fit. now apply extract_loop_none.
Qed.

Lemma keys_fit_false (identifier : string) (filenames : list string) :
  keys_fit identifier filenames = false <->
  exists f ds,
    In f filenames /\ regex_search identifier f = Some ds /\
    INT_MAX < Str.decimal ds.
Proof.
  unfold keys_fit. split.
  - intros F. induction filenames as [|f rest IH]; [discriminate|].
    cbn [forallb] in F. apply andb_false_iff in F as [F|F].
    + destruct (regex_search identifier f) as [ds|] eqn:R; [|discriminate].
      exists f, ds. apply Z.leb_gt in F. now repeat split; [left|..].
    + destruct (IH F) as (g & ds & I & R & L). exists g, ds.
      now repeat split; [right|..].
  - intros (f & ds & I & R & L).
    destruct (forallb _ filenames) eqn:F; [|reflexivity].
    rewrite forallb_forall in F. specialize (F f I). rewrite R in F.
    apply Z.leb_le in F. lia.
Qed.

(** Two strictly increasing lists with the same elements are the same
    list. *)
Lemma sorted_unique (l1 l2 : list Z) :
  StronglySorted Z.lt l1 -> StronglySorted Z.lt l2 ->
  (forall k, In k l1 <-> In k l2) -> l1 = l2.
Proof.
  intros S1. revert l2. induction S1 as [|a l1 S1 IH F1]; intros l2 S2 Same.
  - destruct l2 as [|b l2]; [reflexivity|].
    destruct (proj2 (Same b) (or_introl eq_refl)).
  - destruct S2 as [|b l2 S2 F2].
    { destruct (proj1 (Same a) (or_introl eq_refl)). }
    rewrite Forall_forall in F1, F2.
    assert (a = b) as <-.
    { destruct (proj1 (Same a) (or_introl eq_refl)) as [E|I]; [now symmetry|].
      destruct (proj2 (Same b) (or_introl eq_refl)) as [E|I']; [exact E|].
      specialize (F1 b I'). specialize (F2 a I). lia. }
    f_equal. apply IH; [exact S2|]. intros k. split; intros I.
    + destruct (proj1 (Same k) (or_intror I)) as [<-|I']; [|exact I'].
      specialize (F1 a I). lia.
    + destruct (proj2 (Same k) (or_intror I)) as [<-|I']; [|exact I'].
      specialize (F2 a I). lia.
Qed.

Lemma keys_fit_perm (identifier : string) (l l' : list string) :
  Permutation l l' -> keys_fit identifier l = keys_fit identifier l'.
Proof.
  unfold keys_fit. induction 1 as [|f l l' _ IH|f g l|l l' l'' _ IH1 _ IH2];
    cbn [forallb].
  - reflexivity.
  - now rewrite IH.
  - now rewrite !andb_assoc, (andb_comm (match regex_search identifier g with
                                         | Some ds => _ | None => _ end)).
  - now rewrite IH1.
Qed.

(** The keys do not depend on the order of the listing. *)
Lemma extract_perm (identifier : string) (l l' : list string) :
  Permutation l l' ->
  extractUniqueRPMs l identifier = extractUniqueRPMs l' identifier.
Proof.
  intros Pm. pose proof (keys_fit_perm identifier l l' Pm) as Fit.
  destruct (keys_fit identifier l) eqn:F.
  - symmetry in Fit. unfold extractUniqueRPMs.
    destruct (Classifier.extract_loop_total identifier l F []) as (k1 & E1).
    destruct (Classifier.extract_loop_total identifier l' Fit []) as (k2 & E2).
    rewrite E1, E2. f_equal.
    destruct (Classifier.extract_loop_keys identifier l [] k1 E1) as [M1 S1].
    destruct (Classifier.extract_loop_keys identifier l' [] k2 E2) as [M2 S2].
    apply sorted_unique; [apply S1; constructor | apply S2; constructor|].
    intros k. rewrite M1, M2. split.
    + intros [[]|(f & ds & I & R)]. right. exists f, ds.
      split; [now apply (Permutation_in _ Pm) | exact R].
    + intros [[]|(f & ds & I & R)]. right. exists f, ds.
      split; [now apply (Permutation_in _ (Permutation_sym Pm)) | exact R].
  - symmetry in Fit.
    now rewrite (proj2 (extract_none_iff identifier l) F),
      (proj2 (extract_none_iff identifier l') Fit).
Qed.

Lemma filter_length_perm {A : Type} (f : A -> bool) (l l' : list A) :
  Permutation l l' -> length (filter f l) = length (filter f l').
Proof.
  induction 1 as [|a l l' _ IH|a b l|l l' l'' _ IH1 _ IH2]; cbn [filter].
  - reflexivity.
  - destruct (f a); cbn [length]; now rewrite IH.
  - destruct (f a), (f b); reflexivity.
  - now rewrite IH1.
Qed.

(** The verdict of the validator does not depend on the order of the
    listing. *)
Lemma validate_perm (identifier : string) (keys : list Z)
    (l l' : list string) :
  Permutation l l' ->
  validateReplicates l keys identifier = validateReplicates l' keys identifier.
Proof.
  intros Pm. induction keys as [|k rest IH]; [reflexivity|].
  cbn [validateReplicates].
  rewrite !Validator.count_replicates_length,
    (filter_length_perm (selected identifier k) l l' Pm), IH.
  reflexivity.
Qed.

(** A verdict against the listing names a key without its three files. *)
Lemma validate_false_inv (identifier : string) (filenames : list string)
    (keys : list Z) (errors : list Message) :
  validateReplicates filenames keys identifier = (false, errors) ->
  exists k,
    In k keys /\
    length (filter (selected identifier k) filenames) <> 3%nat /\
    errors = [NotThreeReplicates k].
Proof.
  induction keys as [|k rest IH]; [discriminate|].
  cbn [validateReplicates]. rewrite Validator.count_replicates_length.
  destruct (Z.eqb_spec (0 + Z.of_nat (length
              (filter (selected identifier k) filenames))) 3) as [E|N];
    cbn [negb].
  - intros V. destruct (IH V) as (k' & I & C & Er).
    exists k'. now repeat split; [right|..].
  - intros [= <-]. exists k. repeat split; [now left | lia].
Qed.

Lemma extract_loop_nothing (identifier : string) (filenames : list string) :
  (forall f, In f filenames -> regex_search identifier f = None) ->
  forall acc, extract_loop filenames identifier acc = Some acc.
Proof.
  induction filenames as [|f rest IH]; intros No acc; [reflexivity|].
  cbn [extract_loop]. rewrite (No f (or_introl eq_refl)).
  apply IH. intros g I. apply No. now right.
Qed.

End ClassifierMore.

Lemma World_ok_withFiles (w : World) (files : string -> list string) :
  World_ok w -> World_ok (withFiles w files).
Proof. intros [Read Blur]. split; [exact Read | exact Blur]. Qed.

(** X10.  The order in which the folder is listed changes neither the
    keys that [extractUniqueRPMs] returns nor the verdict and message of
    [validateReplicates], and so not the exit status of [main]. *)
Theorem listing_order_is_irrelevant
    (filenames filenames' : list string) (identifier : string)
    (Perm : Permutation filenames filenames') :
  extractUniqueRPMs filenames' identifier
  = extractUniqueRPMs filenames identifier /\
  (forall keys,
     validateReplicates filenames' keys identifier
     = validateReplicates filenames keys identifier) /\
  (forall w cfg,
     World_ok w ->
     directory_files w (cfg_folderPath cfg) = filenames ->
     cfg_identifier cfg = identifier ->
     fst (main (withFiles w (fun _ => filenames')) cfg) = fst (main w cfg)).
Proof.
  pose proof (ClassifierMore.extract_perm identifier _ _ Perm) as E.
  assert (V : forall keys,
            validateReplicates filenames' keys identifier
            = validateReplicates filenames keys identifier).
  { intros keys. symmetry. now apply ClassifierMore.validate_perm. }
  split; [now symmetry|]. split; [exact V|].
  intros w cfg Ok Ef Ei. unfold main. cbn [directory_files withFiles].
  rewrite Ef, Ei, <- E.
  destruct (extractUniqueRPMs filenames identifier) as [keys|]; [|reflexivity].
  rewrite V.
  destruct (validateReplicates filenames keys identifier) as [[|] errors];
    cbn [negb]; [|reflexivity].
  destruct (Orchestrator.processAll_total w cfg filenames keys Ok) as (e & ->).
  destruct (Orchestrator.processAll_total (withFiles w (fun _ => filenames'))
              cfg filenames' keys (World_ok_withFiles w _ Ok)) as (e' & ->).
  reflexivity.
Qed.

Lemma listing_order_is_irrelevant_witness :
  Permutation Sample.files Cases.shuffled /\
  extractUniqueRPMs Cases.shuffled "W" = Some [1] /\
  validateReplicates Cases.shuffled [1] "W" = (true, []).
Proof.
  assert (Pm : Permutation Sample.files Cases.shuffled).
  { unfold Sample.files, Cases.shuffled.
    apply (perm_trans (l' := ["W_1_R3.tif"; "W_1_R1.tif"; "W_1_R2.tif";
                              "notes.txt"])).
    - apply perm_skip.
      apply (perm_trans (l' := ["W_1_R1.tif"; "notes.txt"; "W_1_R2.tif"]));
        [apply perm_swap | apply perm_skip, perm_swap].
    - apply (perm_trans (l' := ["W_1_R3.tif"; "W_1_R2.tif"; "W_1_R1.tif";
                                "notes.txt"])).
      + apply perm_skip, perm_swap.
      + apply perm_swap. }
  split; [exact Pm|].
  destruct (listing_order_is_irrelevant _ _ "W" Pm) as (E & V & _).
  rewrite E, V. split; reflexivity.
Defined.

(** X11.  Names round-trip through the classifier: for a key [k] that
    fits an [int], [std::stoi] reads back [k] from [std::to_string k];
    a file whose name starts with [<identifier>_<k>_R<digit>] is
    classified under the key [k] when the pattern takes the identifier
    literally; and a file name that holds that text anywhere is counted
    by the validator, and read by the loader, for [k]. *)
Theorem well_named_file_is_classified_and_counted
    (k : Z)
    (Fits : 0 <= k <= INT_MAX) :
  stoi (Str.to_string k) = Some k /\
  forall identifier d rest,
    Str.is_digit d = true ->
    (regex_literal identifier = true ->
     extractUniqueRPMs
       [identifier ++ "_" ++ Str.to_string k ++ "_R" ++ String d rest]
       identifier = Some [k]) /\
    forall before,
      selected identifier k
        (before ++ identifier ++ "_" ++ Str.to_string k ++ "_R"
           ++ String d rest) = true.
Proof.
  assert (S : stoi (Str.to_string k) = Some k).
  { apply Classifier.stoi_some.
    split; [apply ClassifierMore.decimal_to_string|]; lia. }
  split; [exact S|]. intros identifier d rest D. split.
  - intros _. unfold extractUniqueRPMs. cbn [extract_loop].
    rewrite (ClassifierMore.regex_search_head identifier _ (Str.to_string k)).
    + rewrite S. reflexivity.
    + apply Pattern.match_here_iff.
      exists (String d EmptyString), rest. split; [reflexivity|].
      split; [apply ClassifierMore.digits_to_string; lia|].
      split; [discriminate|]. cbn. now rewrite D.
  - intros before. apply StrFacts.found_iff.
    exists before, (String d rest). f_equal.
    now rewrite !ClassifierMore.append_assoc.
Qed.

Lemma well_named_file_is_classified_and_counted_witness :
  0 <= 120 <= INT_MAX /\ regex_literal "SF" = true /\
  extractUniqueRPMs ["SF_120_R2.tif"] "SF" = Some [120] /\
  selected "SF" 120 "day1-SF_120_R2.tif" = true.
Proof.
  assert (B : 0 <= 120 <= INT_MAX) by (unfold INT_MAX; lia).
  split; [exact B|]. split; [reflexivity|].
  destruct (well_named_file_is_classified_and_counted 120 B) as [_ Named].
  destruct (Named "SF" "2"%char ".tif" eq_refl) as [E S].
  split; [exact (E eq_refl) | exact (S "day1-")].
Defined.

(** X12.  A key that does not fit an [int] ends the run: for an
    identifier that the pattern takes literally, the classifier fails
    (the exception of [std::stoi]) exactly when, in some file name, the
    leftmost match of the pattern has digits of a value above [INT_MAX],
    and then [main] ends with that exception after it has opened the
    log, with nothing validated or processed. *)
Theorem oversized_key_ends_the_run
    (w : World) (cfg : Config)
    (Literal : regex_literal (cfg_identifier cfg) = true) :
  (extractUniqueRPMs (directory_files w (cfg_folderPath cfg))
     (cfg_identifier cfg) = None <->
   exists f ds,
     In f (directory_files w (cfg_folderPath cfg)) /\
     first_match (cfg_identifier cfg) ds f /\ INT_MAX < Str.decimal ds) /\
  (extractUniqueRPMs (directory_files w (cfg_folderPath cfg))
     (cfg_identifier cfg) = None ->
   main w cfg
   = (Uncaught,
      [OpenLog ("logs/" ++ cfg_identifier cfg ++ "_log_" ++ timestamp w
                  ++ ".txt")])).
Proof.
  split.
  - rewrite ClassifierMore.extract_none_iff, ClassifierMore.keys_fit_false.
    split; intros (f & ds & I & R & L); exists f, ds;
      (split; [exact I|]; split; [|exact L]);
      now apply Pattern.regex_search_first_match.
  - intros E. unfold main. now rewrite E.
Qed.

Lemma oversized_key_ends_the_run_witness :
  regex_literal (cfg_identifier Sample.config) = true /\
  first_match "W" "99999999999" "W_99999999999_R1.tif" /\
  main Cases.hugeWorld Sample.config
  = (Uncaught, [OpenLog "logs/W_log_20240104_000000.txt"]).
Proof.
  split; [reflexivity|].
  destruct (oversized_key_ends_the_run Cases.hugeWorld Sample.config eq_refl)
    as [_ Ends].
  split; [now apply Pattern.regex_search_first_match|].
  exact (Ends eq_refl).
Defined.

(** X13.  When the pattern takes the identifier literally and no file
    name of the folder matches it (an empty folder is one such case), the
    run has nothing to validate and nothing to process: [main] returns 0
    after it has opened the log. *)
Theorem nothing_to_do_returns_0
    (w : World) (cfg : Config)
    (Literal : regex_literal (cfg_identifier cfg) = true)
    (NoMatch :
       forall f, In f (directory_files w (cfg_folderPath cfg)) ->
                 regex_search (cfg_identifier cfg) f = None) :
  extractUniqueRPMs (directory_files w (cfg_folderPath cfg))
    (cfg_identifier cfg) = Some [] /\
  main w cfg
  = (Returned 0,
     [OpenLog ("logs/" ++ cfg_identifier cfg ++ "_log_" ++ timestamp w
                 ++ ".txt")]).
Proof.
  assert (E : extractUniqueRPMs (directory_files w (cfg_folderPath cfg))
                (cfg_identifier cfg) = Some []).
  { now apply ClassifierMore.extract_loop_nothing. }
  split; [exact E|]. unfold main. now rewrite E.
Qed.

Lemma nothing_to_do_returns_0_witness :
  regex_literal (cfg_identifier Sample.config) = true /\
  (forall f, In f Cases.strangers -> regex_search "W" f = None) /\
  main Cases.strangerWorld Sample.config
  = (Returned 0, [OpenLog "logs/W_log_20240101_000000.txt"]).
Proof.
  assert (No : forall f,
            In f (directory_files Cases.strangerWorld
                    (cfg_folderPath Sample.config)) ->
            regex_search (cfg_identifier Sample.config) f = None).
  { intros f [<-|[<-|[<-|[]]]]; reflexivity. }
  split; [reflexivity|]. split; [exact No|].
  now destruct (nothing_to_do_returns_0 Cases.strangerWorld Sample.config
                  eq_refl No).
Defined.

(** X14.  Once the keys are extracted, [main] returns -1 exactly when
    some key does not have exactly three file names that contain
    [<identifier>_<key>_R]; and a run that returns 0 had exactly three
    such names for every key. *)
Theorem minus_1_tells_a_key_without_three_files
    (w : World) (cfg : Config) (keys : list Z)
    (Extracted :
       extractUniqueRPMs (directory_files w (cfg_folderPath cfg))
         (cfg_identifier cfg) = Some keys) :
  (fst (main w cfg) = Returned (-1) <->
   exists k, In k keys /\
             length (filter (selected (cfg_identifier cfg) k)
                            (directory_files w (cfg_folderPath cfg))) <> 3%nat) /\
  (fst (main w cfg) = Returned 0 ->
   forall k, In k keys ->
             length (filter (selected (cfg_identifier cfg) k)
                            (directory_files w (cfg_folderPath cfg))) = 3%nat).
Proof.
  unfold main. rewrite Extracted.
  destruct (validateReplicates (directory_files w (cfg_folderPath cfg)) keys
              (cfg_identifier cfg)) as [[|] errors] eqn:V; cbn [negb].
  - destruct (Validator.validate_true _ _ _ _ V) as [_ Three].
    split; [split|].
    + destruct (processAll _ _ _ _); discriminate.
    + intros (k & I & N). elim N. now apply Three.
    + intros _. exact Three.
  - destruct (ClassifierMore.validate_false_inv _ _ _ _ V) as (k & I & N & _).
    split; [split|].
    + intros _. now exists k.
    + reflexivity.
    + discriminate.
Qed.

Lemma minus_1_tells_a_key_without_three_files_witness :
  extractUniqueRPMs (directory_files Sample.shortWorld "in") "W"
  = Some [1; 2] /\
  length (filter (selected "W" 2) Sample.shortFiles) = 2%nat /\
  fst (main Sample.shortWorld Sample.config) = Returned (-1).
Proof.
  assert (E : extractUniqueRPMs
                (directory_files Sample.shortWorld
                   (cfg_folderPath Sample.config))
                (cfg_identifier Sample.config) = Some [1; 2])
    by reflexivity.
  split; [exact E|]. split; [reflexivity|].
  destruct (minus_1_tells_a_key_without_three_files Sample.shortWorld
              Sample.config [1; 2] E) as [[_ Minus] _].
  apply Minus. exists 2. split; [right; now left | discriminate].
Defined.

(** X15.  A CSV file for the channel R is taken for a replicate: its
    name [<identifier>_<key>_Rness.csv] contains [<identifier>_<key>_R].
    When a folder whose key [k] had its three files is listed again with
    that CSV file in it, the validator counts four files for [k] and
    [main] returns -1. *)
Theorem red_csv_breaks_the_next_run
    (w : World) (cfg : Config) (filenames : list string) (keys : list Z)
    (k : Z)
    (Red : cfg_channelChoice cfg = ChR)
    (Complete :
       length (filter (selected (cfg_identifier cfg) k) filenames) = 3%nat)
    (Listed :
       Permutation (directory_files w (cfg_folderPath cfg))
         ((cfg_identifier cfg ++ "_" ++ Str.to_string k ++ "_"
             ++ channelLetter (cfg_channelChoice cfg) ++ "ness.csv")
            :: filenames))
    (Extracted :
       extractUniqueRPMs (directory_files w (cfg_folderPath cfg))
         (cfg_identifier cfg) = Some keys)
    (Key : In k keys) :
  selected (cfg_identifier cfg) k
    (cfg_identifier cfg ++ "_" ++ Str.to_string k ++ "_"
       ++ channelLetter (cfg_channelChoice cfg) ++ "ness.csv") = true /\
  length (filter (selected (cfg_identifier cfg) k)
                 (directory_files w (cfg_folderPath cfg))) = 4%nat /\
  fst (main w cfg) = Returned (-1).
Proof.
  assert (S : selected (cfg_identifier cfg) k
                (cfg_identifier cfg ++ "_" ++ Str.to_string k ++ "_"
                   ++ channelLetter (cfg_channelChoice cfg) ++ "ness.csv")
              = true).
  { rewrite Red. apply StrFacts.found_iff.
    exists EmptyString, "ness.csv". cbn [channelLetter].
    change (EmptyString ++ ?x) with x.
    rewrite !ClassifierMore.append_assoc. reflexivity. }
  assert (Four : length (filter (selected (cfg_identifier cfg) k)
                           (directory_files w (cfg_folderPath cfg))) = 4%nat).
  { rewrite (ClassifierMore.filter_length_perm _ _ _ Listed).
    cbn [filter]. rewrite S. cbn [length]. now rewrite Complete. }
  split; [exact S|]. split; [exact Four|].
  destruct (Validator.validate_false (cfg_identifier cfg)
              (directory_files w (cfg_folderPath cfg)) keys k Key)
    as (k' & _ & _ & V); [lia|].
  unfold main. now rewrite Extracted, V.
Qed.

Lemma red_csv_breaks_the_next_run_witness :
  cfg_channelChoice Cases.redConfig = ChR /\
  length (filter (selected "W" 1) Sample.files) = 3%nat /\
  fst (main Cases.rerunWorld Cases.redConfig) = Returned (-1).
Proof.
  split; [reflexivity|]. split; [reflexivity|].
  destruct (red_csv_breaks_the_next_run Cases.rerunWorld Cases.redConfig
              Sample.files [1] 1 eq_refl eq_refl (Permutation_refl _)
              eq_refl (or_introl eq_refl)) as (_ & _ & R).
  exact R.
Defined.

(** ** More on the orchestrator *)

Module OrchestratorMore.

Lemma failedSaves_app (a b : list Event) :
  failedSaves (a ++ b) = (failedSaves a ++ failedSaves b)%list.
Proof.
  induction a as [|e a IH]; [reflexivity|].
  destruct e as [| |m| | |]; try destruct m; simpl; rewrite ?IH; reflexivity.
Qed.

Lemma failedWrites_app (a b : list Event) :
  failedWrites (a ++ b) = (failedWrites a ++ failedWrites b)%list.
Proof.
  induction a as [|e a IH]; [reflexivity|].
  destruct e as [| | | |path image [|]|]; simpl; rewrite ?IH; reflexivity.
Qed.

(** When every message went to the stream of its kind, the log file has
    what the console shows, less the errors. *)
Lemma routed_log (evs : list Event) :
  forallb routed evs = true ->
  logFile evs = filter (fun m => negb (is_error m)) (consoleText evs).
Proof.
  induction evs as [|e evs IH]; [reflexivity|].
  cbn [forallb]. intros [R Rs]%andb_prop. specialize (IH Rs).
  destruct e as [|m|m| | |]; cbn [logFile consoleText filter routed] in *;
    try exact IH.
  - rewrite R. now f_equal.
  - now rewrite R.
Qed.

Lemma csvLines_app (show : Q -> string) (a b : list Event) :
  csvLines show (a ++ b) = (csvLines show a ++ csvLines show b)%list.
Proof.
  induction a as [|e a IH]; [reflexivity|].
  destruct e; simpl; rewrite ?IH, ?app_assoc; reflexivity.
Qed.

Lemma countChar_app (c : ascii) (a b : string) :
  countChar c (a ++ b) = (countChar c a + countChar c b)%nat.
Proof.
  induction a as [|d a IH]; [reflexivity|]. simpl. rewrite IH. lia.
Qed.

Lemma concat_cons (x : string) (xs : list string) :
  String.concat EmptyString (x :: xs) = x ++ String.concat EmptyString xs.
Proof.
  destruct xs as [|y ys]; simpl; [|reflexivity].
  induction x as [|c x IH]; simpl; [reflexivity | now rewrite <- IH].
Qed.

(** [Str.replace a b] leaves no [a] behind. *)
Lemma countChar_replace (a b : ascii) (s : string) :
  a <> b -> countChar a (Str.replace a b s) = 0%nat.
Proof.
  intros N. induction s as [|c s IH]; [reflexivity|].
  cbn [Str.replace countChar]. rewrite IH.
  destruct (Ascii.eqb_spec c a) as [->|Nc].
  - destruct (Ascii.eqb_spec b a) as [->|_]; [now elim N | reflexivity].
  - destruct (Ascii.eqb_spec c a) as [->|_]; [now elim Nc | reflexivity].
Qed.

(** The commas and line feeds of a row, when the numbers have none. *)
Lemma rowText_count (show : Q -> string) (r : Row) :
  plainNumbers show ->
  countChar comma (rowText show r) = S (length (replicates r)) /\
  countChar linefeed (rowText show r) = 1%nat.
Proof.
  intros Plain. unfold rowText.
  assert (Values : forall vs,
            countChar comma
              (String.concat EmptyString
                 (map (fun v => "," ++ show v) vs)) = length vs /\
            countChar linefeed
              (String.concat EmptyString
                 (map (fun v => "," ++ show v) vs)) = 0%nat).
  { induction vs as [|v vs [IHc IHl]]; [now split|].
    cbn [map]. rewrite concat_cons, !countChar_app, IHc, IHl.
    destruct (Plain v) as [-> ->]. now split. }
  destruct (Values (replicates r)) as [Vc Vl].
  rewrite !countChar_app, Vc, Vl.
  destruct (Plain (distance r)) as [-> ->].
  destruct (Plain (average r)) as [-> ->].
  split; cbn; lia.
Qed.

Lemma csvHeader_fields (channelChoice : Channel) :
  fiveFields (csvHeader channelChoice).
Proof. destruct channelChoice; split; reflexivity. Qed.

Lemma overImages_length (channelChoice : Channel) (H x : Z)
    (images : list Mat) :
  forall acc r,
    overImages channelChoice H x images acc = Some r ->
    length (snd r) = length images.
Proof.
  induction images as [|image rest IH]; intros acc r; cbn [overImages].
  - now intros [= <-].
  - destruct (sumColumn _ _ _ _ _) as [total|]; [|discriminate]. cbn [bind].
    destruct (fdiv _ _) as [averageColor|]; [|discriminate]. cbn [bind].
    destruct (overImages _ _ _ _ _) as [r'|] eqn:O; [|discriminate].
    cbn [bind]. intros [= <-]. cbn [snd length]. f_equal. exact (IH _ _ O).
Qed.

Lemma mapM_Forall {A B : Type} (f : A -> option B) (P : B -> Prop)
    (xs : list A) :
  (forall x b, f x = Some b -> P b) ->
  forall bs, mapM f xs = Some bs -> Forall P bs.
Proof.
  intros Step. induction xs as [|x xs IH]; cbn [mapM]; intros bs.
  - intros [= <-]. constructor.
  - destruct (f x) as [b|] eqn:F; [|discriminate]. cbn [bind].
    destruct (mapM f xs) as [bs'|]; [|discriminate]. cbn [bind].
    intros [= <-]. constructor; [exact (Step _ _ F) | now apply IH].
Qed.

(** Every row of a profile has one value for each image. *)
Lemma profile_replicates (channelChoice : Channel) (images : list Mat)
    (distanceUpper distanceLower : Q) (body : list Row) :
  profile channelChoice images distanceUpper distanceLower = Some body ->
  Forall (fun r => length (replicates r) = length images) body.
Proof.
  unfold profile.
  destruct (nth_error images 0) as [image0|]; [|discriminate]. cbn [bind].
  destruct (fdiv _ _) as [pixelWidth|]; [|discriminate]. cbn [bind].
  apply mapM_Forall. intros x row. unfold profileColumn.
  destruct (overImages _ _ _ _ _) as [r|] eqn:O; [|discriminate].
  cbn [bind]. destruct (fdiv _ _) as [avg|]; [|discriminate]. cbn [bind].
  intros [= <-]. cbn [replicates]. exact (overImages_length _ _ _ _ _ _ O).
Qed.

Lemma align_length (images : list Mat) :
  length (alignImageHeights (alignImageWidths images)) = length images.
Proof. unfold alignImageHeights, alignImageWidths. now rewrite !length_map. Qed.

Section Loader.

Variables (w : World) (folderPath identifier : string).
Variables (rpm blurRadius : Z).

Let load (filenames : list string) :=
  loadImages w filenames folderPath rpm identifier blurRadius.

(** The loader saves nothing, writes no CSV file, and sends its errors
    to [std::cerr]. *)
Lemma loadImages_silent (filenames : list string) :
  failedSaves (snd (load filenames)) = [] /\
  failedWrites (snd (load filenames)) = [] /\
  forallb routed (snd (load filenames)) = true /\
  forall show, csvLines show (snd (load filenames)) = [].
Proof.
  unfold load. induction filenames as [|f rest (IHs & IHw & IHl & IHc)];
    [now repeat split|].
  cbn [loadImages].
  destruct (loadImages w rest folderPath rpm identifier blurRadius)
    as [[images names] log].
  cbn [snd] in *. destruct (Str.found _); [|now repeat split].
  destruct (empty _); cbn [snd]; now repeat split.
Qed.

(** With a radius that is not positive the blur filter is not used. *)
Lemma loadImages_no_blur (blur : Mat -> Z -> Mat) (filenames : list string) :
  blurRadius <= 0 ->
  loadImages (withBlur w blur) filenames folderPath rpm identifier blurRadius
  = load filenames.
Proof.
  intros R. unfold load.
  induction filenames as [|f rest IH]; [reflexivity|].
  cbn [loadImages]. rewrite IH. cbn [imread GaussianBlur withBlur].
  destruct (blurRadius >? 0) eqn:G; [lia | reflexivity].
Qed.

End Loader.

Section Group.

Variables (w : World) (filenames : list string).
Variables (folderPath outputFolder identifier : string) (rpm : Z).
Variables (distanceUpper distanceLower : Q).
Variables (channelChoice : Channel) (blurRadius : Z).

Let loaded := loadImages w filenames folderPath rpm identifier blurRadius.
Let group := alignImageHeights (alignImageWidths (fst (fst loaded))).
Let alignedImagesPath := outputFolder ++ "/aligned_images".
Let csvFilePath :=
  outputFolder ++ "/" ++ identifier ++ "_" ++ Str.to_string rpm ++ "_"
    ++ channelLetter channelChoice ++ "ness.csv".
Let start := (Cout (ProcessingRPM rpm) :: snd loaded)%list.
Let saved :=
  (CreateDirectories alignedImagesPath
     :: saveImages w alignedImagesPath identifier rpm group 0
     ++ reportDimensions group 0)%list.
Let process :=
  processRPMImages w filenames folderPath rpm outputFolder identifier
    distanceUpper distanceLower channelChoice blurRadius.

Lemma saveImages_more (dir : string) (images : list Mat) :
  forall i,
    failedSaves (saveImages w dir identifier rpm images i)
    = failedWrites (saveImages w dir identifier rpm images i) /\
    forallb routed (saveImages w dir identifier rpm images i) = true /\
    (forall show, csvLines show (saveImages w dir identifier rpm images i)
                  = []).
Proof.
  induction images as [|image rest IH]; intros i; [now repeat split|].
  destruct (IH (i + 1)) as (IHs & IHl & IHc).
  cbn [saveImages].
  destruct (imwrite w _ image); cbn; rewrite ?IHs;
    repeat split; try reflexivity; try exact IHl; intros show;
    now rewrite IHc.
Qed.

Lemma reportDimensions_more (images : list Mat) :
  forall i,
    failedSaves (reportDimensions images i) = [] /\
    failedWrites (reportDimensions images i) = [] /\
    forallb routed (reportDimensions images i) = true /\
    (forall show, csvLines show (reportDimensions images i) = []).
Proof.
  induction images as [|image rest IH]; intros i; [now repeat split|].
  destruct (IH (i + 1)) as (IHs & IHw & IHl & IHc).
  cbn. now repeat split.
Qed.

Lemma start_more :
  failedSaves start = [] /\ failedWrites start = [] /\
  forallb routed start = true /\
  (forall show, csvLines show start = []).
Proof.
  destruct (loadImages_silent w folderPath identifier rpm blurRadius filenames)
    as (S & W & L & C).
  unfold start, loaded. cbn. now repeat split.
Qed.

Lemma saved_more :
  failedSaves saved = failedWrites saved /\
  forallb routed saved = true /\
  (forall show, csvLines show saved = []) /\
  Forall (fun pm => countChar backslash (fst pm) = 0%nat) (savedImages saved).
Proof.
  destruct (saveImages_more alignedImagesPath group 0) as (S & L & C).
  destruct (reportDimensions_more group 0) as (S' & W' & L' & C').
  destruct (Orchestrator.saved_views w filenames folderPath outputFolder
              identifier rpm blurRadius) as (_ & _ & V).
  cbv zeta in V. fold loaded group alignedImagesPath saved in V.
  split; [|split; [|split]].
  - unfold saved. cbn. now rewrite failedSaves_app, failedWrites_app, S, S', W'.
  - unfold saved. cbn. now rewrite forallb_app, L, L'.
  - intros show. unfold saved. cbn. now rewrite csvLines_app, C, C'.
  - rewrite V. apply Forall_map, Forall_forall. intros jm _. cbn [fst].
    unfold alignedFilename. now apply countChar_replace.
Qed.

(** What one group adds to a run. *)
Lemma process_more (evs : list Event) :
  process = Some evs ->
  failedSaves evs = failedWrites evs /\
  forallb routed evs = true /\
  Forall (fun pm => countChar backslash (fst pm) = 0%nat) (savedImages evs) /\
  (forall show, plainNumbers show -> Forall fiveFields (csvLines show evs)).
Proof.
  unfold process. rewrite Orchestrator.process_unfold. cbv zeta.
  fold loaded group alignedImagesPath csvFilePath start saved.
  destruct start_more as (Ss & Sw & Sl & Sc).
  destruct saved_more as (Vs & Vl & Vc & Vb).
  destruct (Orchestrator.start_views w filenames folderPath identifier rpm
              blurRadius) as (_ & _ & Si & _).
  cbv zeta in Si. fold loaded start in Si.
  clearbody start saved.
  destruct (negb (length (fst (fst loaded)) =? 3)%nat) eqn:Three.
  - intros [= <-].
    rewrite failedSaves_app, failedWrites_app, forallb_app,
      Orchestrator.savedImages_app, Ss, Sw, Si, Sl.
    split; [reflexivity|]. split; [reflexivity|].
    split; [constructor|]. intros show _. rewrite csvLines_app, Sc.
    constructor.
  - destruct (negb (ofstream_open w csvFilePath)).
    + intros [= <-].
      rewrite !failedSaves_app, !failedWrites_app, !forallb_app,
        !Orchestrator.savedImages_app, Ss, Sw, Si, Vs, Sl, Vl.
      split; [reflexivity|]. split; [reflexivity|].
      split; [cbn [savedImages app]; now rewrite app_nil_r|].
      intros show _. rewrite !csvLines_app, Sc, Vc. constructor.
    + destruct (profile _ _ _ _) as [body|] eqn:P; [|discriminate].
      cbn [bind]. intros [= <-].
      rewrite !failedSaves_app, !failedWrites_app, !forallb_app,
        !Orchestrator.savedImages_app, Ss, Sw, Si, Vs, Sl, Vl.
      split; [reflexivity|]. split; [reflexivity|].
      split; [cbn [savedImages app]; now rewrite app_nil_r|].
      intros show Plain. rewrite !csvLines_app, Sc, Vc.
      cbn [csvLines app]. rewrite app_nil_r.
      constructor; [apply csvHeader_fields|].
      apply Forall_map.
      apply negb_false_iff, Nat.eqb_eq in Three.
      pose proof (profile_replicates _ _ _ _ _ P) as Len.
      unfold group in Len. rewrite align_length, Three in Len.
      revert Len. apply Forall_impl. intros r Lr.
      destruct (rowText_count show r Plain) as [Cc Cl].
      split; [now rewrite Cc, Lr | exact Cl].
Qed.

End Group.

Section Groups.

Variables (w : World) (cfg : Config) (filenames : list string).

Lemma processAll_more (keys : list Z) :
  forall evs,
    processAll w cfg filenames keys = Some evs ->
    failedSaves evs = failedWrites evs /\
    forallb routed evs = true /\
    Forall (fun pm => countChar backslash (fst pm) = 0%nat)
           (savedImages evs) /\
    (forall show, plainNumbers show -> Forall fiveFields (csvLines show evs)).
Proof.
  induction keys as [|k rest IH]; cbn [processAll]; intros evs.
  - intros [= <-]. repeat split; constructor.
  - destruct (processRPMImages _ _ _ _ _ _ _ _ _ _) as [ek|] eqn:Pk;
      [|discriminate].
    cbn [bind].
    destruct (processAll w cfg filenames rest) as [er|]; [|discriminate].
    intros [= <-].
    destruct (process_more _ _ _ _ _ _ _ _ _ _ _ Pk) as (S & L & B & C).
    destruct (IH er eq_refl) as (S' & L' & B' & C').
    rewrite failedSaves_app, failedWrites_app, forallb_app,
      Orchestrator.savedImages_app, S, S', L, L'.
    split; [reflexivity|]. split; [reflexivity|].
    split; [now apply Forall_app|].
    intros show Plain. rewrite csvLines_app. apply Forall_app.
    split; [now apply C | now apply C'].
Qed.

Lemma saveImages_no_blur (blur : Mat -> Z -> Mat) (dir identifier : string)
    (rpm : Z) (images : list Mat) :
  forall i,
    saveImages (withBlur w blur) dir identifier rpm images i
    = saveImages w dir identifier rpm images i.
Proof.
  induction images as [|image rest IH]; intros i; [reflexivity|].
  cbn [saveImages]. now rewrite IH.
Qed.

Lemma processAll_no_blur (blur : Mat -> Z -> Mat) (keys : list Z) :
  cfg_blurRadius cfg <= 0 ->
  processAll (withBlur w blur) cfg filenames keys
  = processAll w cfg filenames keys.
Proof.
  intros R. induction keys as [|k rest IH]; [reflexivity|].
  cbn [processAll]. rewrite IH. f_equal.
  unfold processRPMImages. rewrite loadImages_no_blur by exact R.
  destruct (loadImages w filenames _ k _ _) as [[images names] log].
  now rewrite saveImages_no_blur.
Qed.

End Groups.

End OrchestratorMore.

(** ** More on the run, the log and the prompts *)

Module RunMore.

Lemma to_string_neg (p : positive) :
  Str.to_string (Z.neg p)
  = String "-" (NilEmpty.string_of_uint (Pos.to_uint p)).
Proof.
  unfold Str.to_string. cbn [Z.to_int NilZero.string_of_int].
  pose proof (DecimalPos.Unsigned.to_uint_nonnil p) as NN.
  unfold NilZero.string_of_uint. now destruct (Pos.to_uint p).
Qed.

Lemma countChar_digits (c : ascii) (s : string) :
  Str.is_digit c = false -> Str.all_digits s = true -> countChar c s = 0%nat.
Proof.
  intros Nd. induction s as [|d s IH]; [reflexivity|].
  cbn [Str.all_digits countChar]. intros [D Ds]%andb_prop.
  rewrite (IH Ds). destruct (Ascii.eqb_spec d c) as [->|_]; [|reflexivity].
  congruence.
Qed.

(** The decimal rendering of an integer has digits and at most a sign. *)
Lemma to_string_plain (c : ascii) (k : Z) :
  Str.is_digit c = false -> c <> "-"%char ->
  countChar c (Str.to_string k) = 0%nat.
Proof.
  intros Nd Nm. destruct k as [|p|p].
  - now apply countChar_digits.
  - rewrite ClassifierMore.to_string_pos.
    apply countChar_digits; [exact Nd | apply ClassifierMore.all_digits_of_uint].
  - rewrite to_string_neg. cbn [countChar].
    rewrite (countChar_digits c _ Nd (ClassifierMore.all_digits_of_uint _)).
    destruct (Ascii.eqb_spec "-"%char c) as [E|_]; [now elim Nm | reflexivity].
Qed.

Lemma showFloor_plain : plainNumbers Sample.showFloor.
Proof.
  intros q. unfold Sample.showFloor.
  split; apply to_string_plain; (reflexivity || discriminate).
Qed.

(** What holds of the events of every run. *)
Lemma main_more (w : World) (cfg : Config) :
  failedSaves (snd (main w cfg)) = failedWrites (snd (main w cfg)) /\
  forallb routed (snd (main w cfg)) = true /\
  Forall (fun pm => countChar backslash (fst pm) = 0%nat)
         (savedImages (snd (main w cfg))) /\
  (forall show, plainNumbers show ->
                Forall fiveFields (csvLines show (snd (main w cfg)))).
Proof.
  unfold main.
  destruct (extractUniqueRPMs _ _) as [keys|];
    [|repeat split; constructor].
  destruct (validateReplicates _ _ _) as [[|] errors] eqn:V; cbn [negb].
  - destruct (processAll _ _ _ _) as [evs|] eqn:P;
      [|repeat split; constructor].
    cbn [snd]. exact (OrchestratorMore.processAll_more _ _ _ _ _ P).
  - destruct (ClassifierMore.validate_false_inv _ _ _ _ V) as (k & _ & _ & ->).
    repeat split; constructor.
Qed.

Lemma append_nil_r (s : string) : s ++ EmptyString = s.
Proof. induction s as [|c s IH]; simpl; [reflexivity | now rewrite IH]. Qed.

Lemma sputc_char (sink : Tee.Sink) (ch : ascii) :
  Tee.sputc sink (Z.of_N (N_of_ascii ch)) = sink ++ String ch EmptyString.
Proof.
  unfold Tee.sputc. pose proof (N_ascii_bounded ch) as B.
  rewrite Z.mod_small by lia. now rewrite N2Z.id, ascii_N_embedding.
Qed.

Lemma write_both (s : string) :
  forall c f,
    Tee.write {| Tee.console := Some c; Tee.file := Some f |} s
    = Some {| Tee.console := Some (c ++ s); Tee.file := Some (f ++ s) |}.
Proof.
  induction s as [|ch s IH]; intros c f; cbn [Tee.write].
  - now rewrite !append_nil_r.
  - unfold Tee.overflow.
    assert (E : (Z.of_N (N_of_ascii ch) =? Tee.EOF) = false)
      by (apply Z.eqb_neq; unfold Tee.EOF; lia).
    rewrite E. cbn [negb bind Tee.console Tee.file fst].
    rewrite IH, !sputc_char, !ClassifierMore.append_assoc. reflexivity.
Qed.

Lemma toupper_idem (c : ascii) : toupper (toupper c) = toupper c.
Proof. destruct c as [[] [] [] [] [] [] [] []]; reflexivity. Qed.

Lemma readUpper_In (attempts : list (option Q)) :
  forall r, readUpper attempts = Some r -> In (Some (fst r)) attempts.
Proof.
  induction attempts as [|[x|] rest IH]; cbn [readUpper]; intros r.
  - discriminate.
  - intros [= <-]. now left.
  - destruct (readUpper rest) as [r'|]; [|discriminate]. cbn [bind].
    intros [= <-]. cbn [fst]. right. now apply IH.
Qed.

(** The loop of the lower bound ends with the first answer that is a
    number below the upper bound. *)
Lemma readLower_first (distanceUpper : Q) (attempts : list (option Q)) :
  forall r,
    readLower distanceUpper attempts = Some r ->
    exists before after,
      attempts = (before ++ Some (fst r) :: after)%list /\
      Forall (turnedDown distanceUpper) before /\
      (fst r < distanceUpper)%Q.
Proof.
  induction attempts as [|[x|] rest IH]; cbn [readLower]; intros r.
  - discriminate.
  - destruct (Qle_bool distanceUpper x) eqn:Le.
    + destruct (readLower distanceUpper rest) as [r'|]; [|discriminate].
      cbn [bind]. intros [= <-]. cbn [fst].
      destruct (IH r' eq_refl) as (before & after & -> & T & B).
      exists (Some x :: before)%list, after.
      split; [reflexivity|]. split; [|exact B].
      constructor; [|exact T]. now apply Qle_bool_iff.
    + intros [= <-]. exists [], rest. split; [reflexivity|].
      split; [constructor|]. cbn [fst]. apply Qnot_le_lt. intros L.
      apply Qle_bool_iff in L. congruence.
  - destruct (readLower distanceUpper rest) as [r'|]; [|discriminate].
    cbn [bind]. intros [= <-]. cbn [fst].
    destruct (IH r' eq_refl) as (before & after & -> & T & B).
    exists (None :: before)%list, after.
    split; [reflexivity|]. split; [|exact B]. now constructor.
Qed.

Lemma readLower_ends (distanceUpper distanceLower : Q)
    (before after : list (option Q)) :
  Forall (turnedDown distanceUpper) before ->
  (distanceLower < distanceUpper)%Q ->
  exists prompts,
    readLower distanceUpper (before ++ Some distanceLower :: after)
    = Some (distanceLower, prompts) /\
    length prompts = S (2 * length before).
Proof.
  intros T B. induction T as [|[x|] before Tx T IH]; cbn [app readLower].
  - destruct (Qle_bool distanceUpper distanceLower) eqn:Le.
    + apply Qle_bool_iff in Le. now elim (Qlt_not_le _ _ B).
    + now exists [AskLower].
  - cbn [turnedDown] in Tx. apply Qle_bool_iff in Tx. rewrite Tx.
    destruct IH as (prompts & -> & L). cbn [bind fst snd].
    eexists. split; [reflexivity|]. cbn [length]. rewrite L. lia.
  - destruct IH as (prompts & -> & L). cbn [bind fst snd].
    eexists. split; [reflexivity|]. cbn [length]. rewrite L. lia.
Qed.

Lemma readBlur_nonneg (attempts : list (option Z)) :
  forall r,
    readBlur attempts = Some r -> 0 <= fst r /\ In (Some (fst r)) attempts.
Proof.
  induction attempts as [|[x|] rest IH]; cbn [readBlur]; intros r.
  - discriminate.
  - destruct (x >=? 0) eqn:G.
    + intros [= <-]. cbn [fst]. split; [lia | now left].
    + destruct (readBlur rest) as [r'|]; [|discriminate]. cbn [bind].
      intros [= <-]. cbn [fst]. destruct (IH r' eq_refl). split; [|right];
        assumption.
  - destruct (readBlur rest) as [r'|]; [|discriminate]. cbn [bind].
    intros [= <-]. cbn [fst]. destruct (IH r' eq_refl). split; [|right];
      assumption.
Qed.

Lemma readChannel_letter (typed : list ascii) :
  forall r,
    readChannel typed = Some r ->
    exists c, In c typed /\
              String (toupper c) EmptyString = channelLetter (fst r).
Proof.
  induction typed as [|c rest IH]; cbn [readChannel]; intros r.
  - discriminate.
  - destruct (Ascii.eqb_spec (toupper c) "R") as [R|_];
      [intros [= <-]; exists c; split; [now left | now rewrite R]|].
    destruct (Ascii.eqb_spec (toupper c) "G") as [G|_];
      [intros [= <-]; exists c; split; [now left | now rewrite G]|].
    destruct (Ascii.eqb_spec (toupper c) "B") as [B|_];
      [intros [= <-]; exists c; split; [now left | now rewrite B]|].
    destruct (readChannel rest) as [r'|]; [|discriminate]. cbn [bind].
    intros [= <-]. cbn [fst]. destruct (IH r' eq_refl) as (c' & I & E).
    exists c'. split; [now right | exact E].
Qed.

End RunMore.

(** X16.  A run reports on [std::cerr] the aligned images that [imwrite]
    did not save, each one once and in the order of the attempts, and
    reports no other. *)
Theorem save_failures_are_reported (w : World) (cfg : Config) :
  failedSaves (snd (main w cfg)) = failedWrites (snd (main w cfg)).
Proof. exact (proj1 (RunMore.main_more w cfg)). Qed.

(** X18.  With a blur radius that is not positive the blur filter plays
    no part: a run does the same with any filter in its place. *)
Theorem radius_0_leaves_the_filter_out
    (w : World) (cfg : Config) (blur : Mat -> Z -> Mat)
    (NoRadius : cfg_blurRadius cfg <= 0) :
  main (withBlur w blur) cfg = main w cfg.
Proof.
  unfold main.
  change (directory_files (withBlur w blur)) with (directory_files w).
  change (timestamp (withBlur w blur)) with (timestamp w).
  destruct (extractUniqueRPMs _ _) as [keys|]; [|reflexivity].
  destruct (validateReplicates _ _ _) as [[|] errors]; cbn [negb];
    [|reflexivity].
  now rewrite OrchestratorMore.processAll_no_blur.
Qed.

Lemma radius_0_leaves_the_filter_out_witness :
  cfg_blurRadius Sample.config <= 0 /\
  main (withBlur (Sample.world "20240101_000000" true) Cases.wipe)
       Sample.config
  = main (Sample.world "20240101_000000" true) Sample.config.
Proof.
  assert (R : cfg_blurRadius Sample.config <= 0) by (cbn; lia).
  split; [exact R|].
  exact (radius_0_leaves_the_filter_out _ Sample.config Cases.wipe R).
Defined.

(** X19.  No aligned image is saved under a name with a backslash: the
    path of every [imwrite] of a run has none, whatever the output folder
    is called. *)
Theorem saved_paths_have_no_backslash (w : World) (cfg : Config) :
  Forall (fun pm => countChar backslash (fst pm) = 0%nat)
         (savedImages (snd (main w cfg))).
Proof. exact (proj1 (proj2 (proj2 (RunMore.main_more w cfg)))). Qed.

(** X20.  Every line of every CSV file of a run has five fields: when
    the rendering of a number has no comma and no line feed, the header
    and each row have four commas and one line feed. *)
Theorem every_csv_line_has_five_fields
    (show_double : Q -> string) (w : World) (cfg : Config)
    (Plain : plainNumbers show_double) :
  Forall fiveFields (csvLines show_double (snd (main w cfg))).
Proof. exact (proj2 (proj2 (proj2 (RunMore.main_more w cfg))) _ Plain). Qed.

Lemma every_csv_line_has_five_fields_witness :
  plainNumbers Sample.showFloor /\
  length (csvLines Sample.showFloor
            (snd (main (Sample.world "20240101_000000" true) Sample.config)))
  = 3%nat /\
  Forall fiveFields
    (csvLines Sample.showFloor
       (snd (main (Sample.world "20240101_000000" true) Sample.config))).
Proof.
  split; [exact RunMore.showFloor_plain|]. split; [reflexivity|].
  exact (every_csv_line_has_five_fields Sample.showFloor _ Sample.config
           RunMore.showFloor_plain).
Defined.

(** X21.  After [init], the buffer copies every character written to it
    to both sinks: writing [s] adds [s] to the console and to the file.
    Without [init] the first character written would go through a null
    pointer. *)
Theorem tee_copies_to_both_sinks
    (b : Tee.DualStreamBuffer) (c f : Tee.Sink) (s : string) :
  Tee.write (Tee.init b c f) s = Some (Tee.init b (c ++ s) (f ++ s)) /\
  forall ch, Tee.write Tee.fresh (String ch s) = None.
Proof.
  split; [apply RunMore.write_both|]. intros ch. cbn [Tee.write].
  unfold Tee.overflow.
  assert (E : (Z.of_N (N_of_ascii ch) =? Tee.EOF) = false)
    by (apply Z.eqb_neq; unfold Tee.EOF; lia).
  now rewrite E.
Qed.

(** X22.  The log file of a run holds what the console shows, less the
    errors: every error message goes to [std::cerr], which the log does
    not follow.  So a run that the validator ends leaves no trace of the
    reason in the log. *)
Theorem errors_bypass_the_log (w : World) (cfg : Config) :
  logFile (snd (main w cfg))
  = filter (fun m => negb (is_error m)) (consoleText (snd (main w cfg))) /\
  (fst (main w cfg) = Returned (-1) ->
   logFile (snd (main w cfg)) = [] /\
   exists k, consoleText (snd (main w cfg)) = [NotThreeReplicates k]).
Proof.
  split.
  - apply OrchestratorMore.routed_log.
    exact (proj1 (proj2 (RunMore.main_more w cfg))).
  - unfold main.
    destruct (extractUniqueRPMs _ _) as [keys|]; [|discriminate].
    destruct (validateReplicates _ _ _) as [[|] errors] eqn:V; cbn [negb].
    + destruct (processAll _ _ _ _); discriminate.
    + destruct (ClassifierMore.validate_false_inv _ _ _ _ V)
        as (k & _ & _ & ->).
      intros _. split; [reflexivity|]. now exists k.
Qed.

Lemma errors_bypass_the_log_witness :
  fst (main Sample.shortWorld Sample.config) = Returned (-1) /\
  logFile (snd (main Sample.shortWorld Sample.config)) = [] /\
  exists k,
    consoleText (snd (main Sample.shortWorld Sample.config))
    = [NotThreeReplicates k].
Proof.
  assert (R : fst (main Sample.shortWorld Sample.config) = Returned (-1))
    by reflexivity.
  split; [exact R|].
  exact (proj2 (errors_bypass_the_log Sample.shortWorld Sample.config) R).
Defined.

(** X23.  The loop of the lower bound ends with a value exactly when the
    answers hold a number below the upper bound after answers that are
    all turned down: it takes the first number below the upper bound. *)
Theorem lower_bound_is_first_answer_below_upper
    (distanceUpper distanceLower : Q) (attempts : list (option Q)) :
  (exists prompts,
     readLower distanceUpper attempts = Some (distanceLower, prompts)) <->
  (exists before after,
     attempts = (before ++ Some distanceLower :: after)%list /\
     Forall (turnedDown distanceUpper) before /\
     (distanceLower < distanceUpper)%Q).
Proof.
  split.
  - intros (prompts & E).
    destruct (RunMore.readLower_first _ _ _ E)
      as (before & after & A & T & B).
    now exists before, after.
  - intros (before & after & -> & T & B).
    destruct (RunMore.readLower_ends _ _ _ after T B) as (prompts & E & _).
    now exists prompts.
Qed.

Lemma lower_bound_is_first_answer_below_upper_witness :
  exists before after,
    ans_lower Cases.answers = (before ++ Some 2%Q :: after)%list /\
    Forall (turnedDown 10%Q) before /\ (2 < 10)%Q.
Proof.
  exact (proj1 (lower_bound_is_first_answer_below_upper 10%Q 2%Q
                  (ans_lower Cases.answers))
           (ex_intro _ _ eq_refl)).
Defined.

(** X24.  [main] goes on only with a sound configuration: when the
    prompts are over, the lower bound is below the upper bound and the
    blur radius is not negative; the bounds and the radius are numbers
    that the loops extracted, and the channel is the upper case of a
    character that its loop extracted. *)
Theorem prompts_give_a_sound_configuration
    (w : World) (a : Answers) (prompts : list Prompt)
    (result : Outcome * list Event)
    (Done : program w a = Some (prompts, result)) :
  exists cfg,
    result = main w cfg /\
    (cfg_distanceLower cfg < cfg_distanceUpper cfg)%Q /\
    0 <= cfg_blurRadius cfg /\
    In (Some (cfg_distanceUpper cfg)) (ans_upper a) /\
    In (Some (cfg_distanceLower cfg)) (ans_lower a) /\
    In (Some (cfg_blurRadius cfg)) (ans_blur a) /\
    (exists c, In c (ans_channel a) /\
               String (toupper c) EmptyString
               = channelLetter (cfg_channelChoice cfg)).
Proof.
  revert Done. unfold program, gatherConfig.
  destruct (readUpper (ans_upper a)) as [upper|] eqn:U; [|discriminate].
  cbn [bind].
  destruct (readLower (fst upper) (ans_lower a)) as [lower|] eqn:L;
    [|discriminate].
  cbn [bind].
  destruct (readChannel (ans_channel a)) as [channel|] eqn:C; [|discriminate].
  cbn [bind].
  destruct (readBlur (ans_blur a)) as [blur|] eqn:B; [|discriminate].
  cbn [bind fst snd]. intros [= _ <-].
  destruct (RunMore.readLower_first _ _ _ L) as (before & after & A & _ & Lt).
  destruct (RunMore.readBlur_nonneg _ _ B) as [Nn Ib].
  eexists. split; [reflexivity|]. cbn.
  split; [exact Lt|]. split; [exact Nn|].
  split; [exact (RunMore.readUpper_In _ _ U)|].
  split; [rewrite A; apply in_or_app; right; now left|].
  split; [exact Ib|]. exact (RunMore.readChannel_letter _ _ C).
Qed.

Lemma prompts_give_a_sound_configuration_witness :
  exists cfg,
    option_map snd
      (program (Sample.world "20240101_000000" true) Cases.answers)
    = Some (main (Sample.world "20240101_000000" true) cfg) /\
    (cfg_distanceLower cfg < cfg_distanceUpper cfg)%Q /\
    cfg_blurRadius cfg = 0.
Proof.
  destruct (program (Sample.world "20240101_000000" true) Cases.answers)
    as [[prompts result]|] eqn:P; [|discriminate P].
  destruct (prompts_give_a_sound_configuration _ _ _ _ P)
    as (cfg & R & Lt & Nn & _ & _ & Ib & _).
  exists cfg. cbn [option_map snd]. split; [now rewrite R|].
  split; [exact Lt|].
  destruct Ib as [E|[E|[E|[]]]]; try discriminate E;
    injection E as E; lia.
Defined.

(** X25.  The channel is read without regard to case: the loop does the
    same on the upper-case forms of what was typed, and it accepts a
    letter exactly when it is one of R, G, B, r, g, b. *)
Theorem channel_is_read_without_regard_to_case (typed : list ascii) :
  readChannel (map toupper typed) = readChannel typed /\
  forall c,
    (exists r, readChannel (c :: typed) = Some (r, [AskChannel])) <->
    In c ["R"; "G"; "B"; "r"; "g"; "b"]%char.
Proof.
  split.
  - induction typed as [|c rest IH]; [reflexivity|].
    cbn [map readChannel]. now rewrite RunMore.toupper_idem, IH.
  - intros c. cbn [readChannel].
    destruct (readChannel typed) as [[r ps]|];
      destruct c as [[] [] [] [] [] [] [] []]; cbn;
      (split;
       [ intros [r' E]; first [discriminate E | tauto]
       | intros I; first [eexists; reflexivity
                         | exfalso; intuition discriminate] ]).
Qed.
